(** * SkillSwap: the swap lifecycle, ratings, skill registry, notification
      relay and admin console of the Express/SQLite server, embedded in Rocq.

    Every route handler is a function from the database to an HTTP reply and
    the database after the handler ran.  A table is a finite map from the
    INTEGER PRIMARY KEY [id] to the other columns of the row, and a row has
    columns of the table as database/init.sql and createTables declare it
    ([Schema.tables]).  A statement that names a table or a column the
    schema does not have is rejected by SQLite: the handler's catch block
    answers and nothing is written.
    [req.user!.id], the user of the verified token, is the [user] argument;
    [datetime('now')] and [CURRENT_TIMESTAMP] are the [now] argument.  A
    request body is given by its fields, and the zod schema of the route is
    checked by the handler's first lines here.  The [debug] objects some
    error replies carry are left out of the replies. *)

From Stdlib Require Import ZArith QArith Qround Qabs Lia Lqa.
From stdpp Require Import base option list gmap fin_maps strings.

Set Warnings "-clear-no-such-hyp".
Local Open Scope string_scope.
Local Open Scope Z_scope.

(** ** Rows of the tables (database/init.sql, createTables) *)

(** [status] column of swap_requests:
    'pending' | 'accepted' | 'rejected' | 'completed' | 'cancelled'. *)
Inductive Status := pending | accepted | rejected | completed | cancelled.

#[global] Instance Status_eq_dec : EqDecision Status.
Proof. solve_decision. Defined.

Module User.
Record t := mk {
  email : string;
  rating : Q;          (* REAL DEFAULT 0 *)
  isAdmin : bool;
  updatedAt : Z
}.
End User.

Module Skill.
Record t := mk {
  userId : Z;
  name : string;
  description : option string;
  category : string;
  proficiency : string;
  isOffering : bool;
  isSeeking : bool;
  updatedAt : Z
}.
End Skill.

Module SwapRequest.
Record t := mk {
  requesterId : Z;
  skillOfferedId : Z;
  skillRequestedId : Z;
  status : Status;
  message : option string;
  completedAt : option Z;
  ratingByRequester : option Z;
  ratingByReceiver : option Z;
  feedbackByRequester : option string;
  feedbackByReceiver : option string;
  createdAt : Z;
  updatedAt : Z
}.
End SwapRequest.

Module Rating.
Record t := mk {
  userId : Z;          (* the rated user *)
  raterId : Z;
  rating : Z;
  comment : option string;
  createdAt : Z;
  updatedAt : Z
}.
End Rating.

(** ** The schema

    The tables and their columns, as database/init.sql and createTables
    (with migration 001_create_ratings_table) create them. *)
Module Schema.

Definition tables : list (string * list string) :=
  [("users", ["id"; "username"; "email"; "password"; "fullName"; "bio";
              "location"; "profilePicture"; "rating"; "isAdmin"; "createdAt";
              "updatedAt"]);
   ("skills", ["id"; "userId"; "name"; "description"; "category";
               "proficiency"; "isOffering"; "isSeeking"; "createdAt";
               "updatedAt"]);
   ("swap_requests", ["id"; "requesterId"; "skillOfferedId";
                      "skillRequestedId"; "status"; "message"; "proposedTime";
                      "proposedLocation"; "completedAt"; "ratingByRequester";
                      "ratingByReceiver"; "feedbackByRequester";
                      "feedbackByReceiver"; "createdAt"; "updatedAt"]);
   ("reviews", ["id"; "userId"; "reviewerId"; "swapId"; "rating"; "comment";
                "createdAt"; "updatedAt"]);
   ("ratings", ["id"; "userId"; "raterId"; "rating"; "comment"; "createdAt";
                "updatedAt"]);
   ("migrations", ["id"; "name"; "run_at"])].

Definition columns (table : string) : option (list string) :=
  snd <$> head (filter (λ t, t.1 = table) tables).

(** SQLite prepares a statement on [table] that names [names] as columns. *)
Definition prepares (table : string) (names : list string) : bool :=
  match columns table with
  | Some cs => forallb (λ c, bool_decide (c ∈ cs)) names
  | None => false
  end.

End Schema.

(** ** The database

    [seq_*] is the sqlite_sequence entry of an AUTOINCREMENT table. *)
Record Db := mkDb {
  users : gmap Z User.t;
  skills : gmap Z Skill.t;
  swap_requests : gmap Z SwapRequest.t;
  seq_swap_requests : Z;
  ratings : gmap Z Rating.t;
  seq_ratings : Z
}.

Definition set_skills (f : gmap Z Skill.t → gmap Z Skill.t) (db : Db) : Db :=
  mkDb (users db) (f (skills db)) (swap_requests db) (seq_swap_requests db)
       (ratings db) (seq_ratings db).

Definition set_users (f : gmap Z User.t → gmap Z User.t) (db : Db) : Db :=
  mkDb (f (users db)) (skills db) (swap_requests db) (seq_swap_requests db)
       (ratings db) (seq_ratings db).

Definition set_swap_requests (f : gmap Z SwapRequest.t → gmap Z SwapRequest.t)
    (db : Db) : Db :=
  mkDb (users db) (skills db) (f (swap_requests db)) (seq_swap_requests db)
       (ratings db) (seq_ratings db).

(** Largest rowid in a table (0 for the empty table). *)
Definition max_rowid {A} (m : gmap Z A) : Z :=
  map_fold (λ k _ acc, Z.max k acc) 0 m.

(** The rowid SQLite gives the next row of an AUTOINCREMENT table: one more
    than the largest rowid ever used. *)
Definition next_rowid {A} (seq : Z) (m : gmap Z A) : Z :=
  Z.max seq (max_rowid m) + 1.

(** [db.get] with a WHERE clause that is not on the primary key: some row
    (with its id) satisfying the predicate, if there is one. *)
Definition select_where {A} (p : A → bool) (m : gmap Z A) : option (Z * A) :=
  head (filter (λ kv, p kv.2) (map_to_list m)).

(** ** HTTP replies: [res.status(code).json(body)] *)

Inductive Body :=
  | Message (message : string)
  | Created (message : string) (swap_request_id : Z)
  | Error (error : string)
  | ErrorSuggestion (error suggestion : string) (allowedActions : list string).

Record Response := reply { status : Z; body : Body }.

Definition includes (x : string) (l : list string) : bool :=
  bool_decide (x ∈ l).

(** ** swaps.routes.ts *)
Module Swaps.

(** The literal the request names, as the column value it is stored as;
    [None] is a value the column's CHECK constraint refuses. *)
Definition status_of_string (s : string) : option Status :=
  if bool_decide (s = "pending") then Some pending
  else if bool_decide (s = "accepted") then Some accepted
  else if bool_decide (s = "rejected") then Some rejected
  else if bool_decide (s = "completed") then Some completed
  else if bool_decide (s = "cancelled") then Some cancelled
  else None.

(** swapRequestSchema: three positive integers. *)
Definition swapRequestSchema (providerId offeredSkillId wantedSkillId : Z) : bool :=
  (0 <? providerId) && (0 <? offeredSkillId) && (0 <? wantedSkillId).

(** SELECT id FROM skills WHERE id = ? AND userId = ? AND isOffering = 1 *)
Definition offered_by (db : Db) (skillId owner : Z) : option Skill.t :=
  match skills db !! skillId with
  | Some s =>
      if bool_decide (Skill.userId s = owner) && Skill.isOffering s
      then Some s else None
  | None => None
  end.

(** SELECT id FROM swap_requests WHERE requesterId = ? AND
    skillRequestedId = ? AND status = 'pending' *)
Definition is_pending_for (requester wanted : Z) (sr : SwapRequest.t) : bool :=
  bool_decide (SwapRequest.requesterId sr = requester)
  && bool_decide (SwapRequest.skillRequestedId sr = wanted)
  && bool_decide (SwapRequest.status sr = pending).

(** POST / : create a swap request. *)
Definition create (now user : Z)
    (providerId offeredSkillId wantedSkillId : Z) (message : option string)
    (db : Db) : Response * Db :=
  if negb (swapRequestSchema providerId offeredSkillId wantedSkillId)
  then (reply 400 (Error "Validation failed"), db)
  else if bool_decide (providerId = 0) || bool_decide (offeredSkillId = 0)
          || bool_decide (wantedSkillId = 0)
  then (reply 400 (Error "Missing required fields"), db)
  else match offered_by db offeredSkillId user with
  | None => (reply 400 (Error "Invalid offered skill"), db)
  | Some _ =>
    match offered_by db wantedSkillId providerId with
    | None => (reply 400 (Error "Invalid wanted skill"), db)
    | Some _ =>
      match select_where (is_pending_for user wantedSkillId) (swap_requests db) with
      | Some _ =>
          (reply 400 (Error "You already have a pending request for this skill"), db)
      | None =>
          let lastID := next_rowid (seq_swap_requests db) (swap_requests db) in
          let row := SwapRequest.mk user offeredSkillId wantedSkillId
                       pending message None None None None None now now in
          (reply 201 (Created "Swap request created successfully" lastID),
           mkDb (users db) (skills db) (<[lastID := row]> (swap_requests db))
                lastID (ratings db) (seq_ratings db))
      end
    end
  end.

(** SELECT sr.*, s.userId as skillOwnerId FROM swap_requests sr
    JOIN skills s ON sr.skillRequestedId = s.id WHERE sr.id = ? *)
Definition select_with_owner (db : Db) (swapRequestId : Z)
    : option (SwapRequest.t * Z) :=
  sr ← swap_requests db !! swapRequestId;
  s ← skills db !! SwapRequest.skillRequestedId sr;
  Some (sr, Skill.userId s).

(** The authorization chain of PUT /:id/status; [Some r] is an early
    return with reply [r]. *)
Definition check_authorization (user : Z) (status : string)
    (requesterId skillOwnerId : Z) : option Response :=
  if includes status ["accepted"; "rejected"] then
    if bool_decide (skillOwnerId ≠ user) then
      Some (reply 403 (Error "Only the provider can accept or reject the request"))
    else if bool_decide (requesterId = user) then
      Some (reply 403 (ErrorSuggestion
        "You cannot accept or reject your own swap request"
        "If you want to cancel this request, use the cancel option instead" []))
    else None
  else if bool_decide (status = "cancelled") then
    if bool_decide (requesterId ≠ user) then
      if bool_decide (skillOwnerId = user) then
        Some (reply 400 (ErrorSuggestion
          "You cannot cancel this request"
          "As the provider, you should use the reject option instead of cancel"
          ["rejected"]))
      else Some (reply 403 (Error "Only the requester can cancel the request"))
    else None
  else if bool_decide (status = "completed") then
    if bool_decide (requesterId ≠ user) && bool_decide (skillOwnerId ≠ user) then
      Some (reply 403 (Error "Only the requester or provider can complete the swap"))
    else None
  else None.

(** The two UPDATEs of the transaction, on the row they select. *)
Definition write_status (now : Z) (st : Status) (sr : SwapRequest.t)
    : SwapRequest.t :=
  SwapRequest.mk (SwapRequest.requesterId sr)
    (SwapRequest.skillOfferedId sr) (SwapRequest.skillRequestedId sr)
    st (SwapRequest.message sr)
    (if bool_decide (st = completed) then Some now else SwapRequest.completedAt sr)
    (SwapRequest.ratingByRequester sr) (SwapRequest.ratingByReceiver sr)
    (SwapRequest.feedbackByRequester sr) (SwapRequest.feedbackByReceiver sr)
    (SwapRequest.createdAt sr) now.

(** PUT /:id/status : update the status of a swap request. *)
Definition updateStatus (now user swapRequestId : Z) (status : string)
    (db : Db) : Response * Db :=
  if negb (includes status ["accepted"; "rejected"; "completed"; "cancelled"])
  then (reply 400 (Error "Invalid status"), db)
  else match select_with_owner db swapRequestId with
  | None => (reply 404 (Error "Swap request not found"), db)
  | Some (swapRequest, skillOwnerId) =>
    match check_authorization user status
            (SwapRequest.requesterId swapRequest) skillOwnerId with
    | Some r => (r, db)
    | None =>
      match status_of_string status with
      | None => (reply 500 (Error "Internal server error"), db)  (* ROLLBACK *)
      | Some st =>
          (reply 200 (Message ("Swap request " ++ status ++ " successfully")),
           set_swap_requests (alter (write_status now st) swapRequestId) db)
      end
    end
  end.

(** DELETE /:id : delete a swap request. *)
Definition delete (user swapRequestId : Z) (db : Db) : Response * Db :=
  match swap_requests db !! swapRequestId with
  | None => (reply 404 (Error "Swap request not found"), db)
  | Some swapRequest =>
    match skills db !! SwapRequest.skillRequestedId swapRequest with
    | None => (reply 404 (Error "Requested skill not found"), db)
    | Some providerSkill =>
      if bool_decide (Skill.userId providerSkill ≠ user)
         && bool_decide (SwapRequest.requesterId swapRequest ≠ user)
      then (reply 403 (Error "Not authorized to update this swap request"), db)
      else match swap_requests db !! swapRequestId with
      | None => (reply 404 (Error "Swap request not found"), db)
      | Some swapRequestStatus =>
        if bool_decide (SwapRequest.status swapRequestStatus ≠ pending)
        then (reply 400 (Error "Only pending swap requests can be deleted"), db)
        else (reply 200 (Message "Swap request deleted successfully"),
              set_swap_requests (base.delete swapRequestId) db)
      end
    end
  end.

End Swaps.

(** ** REAL values

    SQLite's REAL and JavaScript's number are IEEE 754 binary64.  A finite
    binary64 value is a rational, so REAL columns are [Q]; the one rounding
    the handlers perform, the division inside AVG, is [b64_div].  The values
    met here lie between 1 and 5, far from overflow and from the subnormal
    range, so the exponent is left unbounded. *)
Module Real.

(** Nearest integer to [num/den] ([den > 0]), ties to even. *)
Definition round_half_even (num den : Z) : Z :=
  let f := num / den in
  let r := num mod den in
  match 2 * r ?= den with
  | Lt => f
  | Gt => f + 1
  | Eq => if Z.even f then f else f + 1
  end.

(** The exponent [e] with [2^e ≤ n/d < 2^(e+1)], for [n, d > 0]. *)
Definition exponent (n d : Z) : Z :=
  let e0 := Z.log2 n - Z.log2 d in
  if 0 <=? e0
  then (if d * 2 ^ e0 <=? n then e0 else e0 - 1)
  else (if d <=? n * 2 ^ (- e0) then e0 else e0 - 1).

(** [m * 2^k] as a rational. *)
Definition scale2 (m k : Z) : Q :=
  if 0 <=? k then inject_Z (m * 2 ^ k) else Qmake m (Z.to_pos (2 ^ (- k))).

(** The binary64 quotient of two positive integers: [n/d] rounded to a
    53-bit significand, ties to even. *)
Definition b64_div (n d : Z) : Q :=
  let e := exponent n d in
  let k := 52 - e in
  let m := if 0 <=? k then round_half_even (n * 2 ^ k) d
           else round_half_even n (d * 2 ^ (- k)) in
  Qred (scale2 m (- k)).

(** [x.toFixed(1)] for [x ≥ 0], read back as a decimal: the multiple [n/10]
    closest to [x], the larger [n] when two are equally close. *)
Definition toFixed1 (x : Q) : Q :=
  Qred (Qmake (Qfloor (x * 10 + (1 # 2))) 10).

End Real.

(** ** ratings.routes.ts *)
Module Ratings.

(** ratingSchema: an integer between 1 and 5. *)
Definition ratingSchema (rating : Z) : bool := (1 <=? rating) && (rating <=? 5).

(** [feedback || null] *)
Definition or_null (feedback : option string) : option string :=
  match feedback with
  | Some "" => None
  | f => f
  end.

(** The [rating] column of the rows WHERE userId = ?. *)
Definition received (userId : Z) (m : gmap Z Rating.t) : list Z :=
  Rating.rating <$>
    filter (λ r, Rating.userId r = userId) (map_to_list m).*2.

Definition SUM (l : list Z) : Z := foldr Z.add 0 l.
Definition COUNT (l : list Z) : Z := Z.of_nat (length l).

(** AVG(rating): NULL over no rows, else the sum divided by the count in
    binary64. *)
Definition AVG (l : list Z) : option Q :=
  match l with
  | [] => None
  | _ => Some (Real.b64_div (SUM l) (COUNT l))
  end.




(** POST /swap/:swapId : add a rating for a completed swap.  After the
    participant check the handler runs
      SELECT id, userId FROM ratings WHERE swapId = ? AND raterId = ?
    and [ratings] has no column swapId ([Schema.tables]): db.get rejects and
    the catch block answers.  The INSERT or UPDATE of the rating, the UPDATE
    of swap_requests and the call of updateUserAverageRating that follow in
    the handler are not reached. *)
Definition submit (now user swapId rating : Z) (feedback : option string)
    (db : Db) : Response * Db :=
  if negb (ratingSchema rating)
  then (reply 400 (Error "Validation failed"), db)
  else match swap_requests db !! swapId with
  | None => (reply 404 (Error "Completed swap request not found"), db)
  | Some swapRequest =>
    if bool_decide (SwapRequest.status swapRequest ≠ completed)
    then (reply 404 (Error "Completed swap request not found"), db)
    else match skills db !! SwapRequest.skillRequestedId swapRequest with
    | None => (reply 404 (Error "Requested skill not found"), db)
    | Some skillOwner =>
      if bool_decide (SwapRequest.requesterId swapRequest ≠ user)
         && bool_decide (Skill.userId skillOwner ≠ user)
      then (reply 403 (Error "You are not part of this swap"), db)
      else (reply 500 (Error "Internal server error"), db)
    end
  end.

(** The aggregate part of the reply of GET /user/:userId. *)
Record Stats := mkStats { avgRating : option Q; totalRatings : Z }.

Definition getRatingsForUser (userId : Z) (db : Db) : Stats :=
  let l := received userId (ratings db) in
  mkStats
    (match AVG l with
     | Some q => if Qeq_bool q 0 then None else Some (Real.toFixed1 q)
     | None => None
     end)
    (COUNT l).

End Ratings.

(** ** The older handler of the same route *)
Module LegacyRatings.

(** POST /swap/:swapId : its first statement,
      SELECT * FROM swaps WHERE id = ? AND status = 'completed'
    names a table the schema does not have ([Schema.tables]): db.get rejects
    and the catch block answers. *)
Definition submit (now user swapId rating : Z) (feedback : option string)
    (db : Db) : Response * Db :=
  if negb (Ratings.ratingSchema rating)
  then (reply 400 (Error "Validation failed"), db)
  else (reply 500 (Error "Internal server error"), db).

End LegacyRatings.

(** ** skills.routes.ts *)
Module Skills.

(** skillSchema; the result is the proficiency level after the default. *)
Definition skillSchema (name type : string) (proficiency_level : option string)
    : option string :=
  if (2 <=? Z.of_nat (String.length name)) && includes type ["offered"; "wanted"]
  then match proficiency_level with
       | None => Some "intermediate"
       | Some p =>
           if includes p ["beginner"; "intermediate"; "advanced"; "expert"]
           then Some p else None
       end
  else None.

(** SELECT id FROM skills WHERE id = ? AND userId = ? *)
Definition owned_by (db : Db) (skillId user : Z) : option Skill.t :=
  match skills db !! skillId with
  | Some s => if bool_decide (Skill.userId s = user) then Some s else None
  | None => None
  end.

(** UPDATE skills SET ... WHERE id = ? AND userId = ? , on a row with this id *)
Definition rewrite_skill (now user : Z) (name : string) (isOffering isSeeking : bool)
    (description : option string) (proficiency : string) (s : Skill.t) : Skill.t :=
  if bool_decide (Skill.userId s = user)
  then Skill.mk (Skill.userId s) name description (Skill.category s)
         proficiency isOffering isSeeking now
  else s.

(** PUT /:id : update a skill. *)
Definition update (now user skillId : Z) (name type : string)
    (description proficiency_level : option string) (db : Db) : Response * Db :=
  match skillSchema name type proficiency_level with
  | None => (reply 400 (Error "Validation failed"), db)
  | Some proficiency =>
    match owned_by db skillId user with
    | None => (reply 404 (Error "Skill not found"), db)
    | Some _ =>
        let isOffering := bool_decide (type = "offered") in
        let isSeeking := bool_decide (type = "wanted") in
        (reply 200 (Message "Skill updated successfully"),
         set_skills (alter (rewrite_skill now user name isOffering isSeeking
                              (Ratings.or_null description) proficiency)
                           skillId) db)
    end
  end.

(** DELETE FROM skills WHERE id = ? AND userId = ? ; the swap requests that
    reference the skill go with it (ON DELETE CASCADE). *)
Definition delete_row (user skillId : Z) (db : Db) : Db :=
  match skills db !! skillId with
  | Some s =>
      if bool_decide (Skill.userId s = user)
      then mkDb (users db) (base.delete skillId (skills db))
             (filter (λ kv, SwapRequest.skillOfferedId kv.2 ≠ skillId
                            ∧ SwapRequest.skillRequestedId kv.2 ≠ skillId)
                     (swap_requests db))
             (seq_swap_requests db) (ratings db) (seq_ratings db)
      else db
  | None => db
  end.

(** DELETE /:id : delete a skill. *)
Definition delete (user skillId : Z) (db : Db) : Response * Db :=
  match owned_by db skillId user with
  | None => (reply 404 (Error "Skill not found"), db)
  | Some _ =>
      (reply 200 (Message "Skill deleted successfully"),
       delete_row user skillId db)
  end.

End Skills.

(** ** admin.routes.ts and scripts/make-admin.ts *)
Module Admin.

(** requireAdmin: [Some r] ends the request with reply [r]. *)
Definition requireAdmin (is_admin : bool) : option Response :=
  if negb is_admin then Some (reply 403 (Error "Admin access required"))
  else None.

(** PUT /users/:id/ban, behind requireAdmin ([is_admin] is the flag of the
    caller's token).  The handler runs
      UPDATE users SET isBanned = ?, updatedAt = CURRENT_TIMESTAMP
      WHERE id = ? AND isAdmin = 0
    and [users] has no column isBanned ([Schema.tables]): db.run rejects and
    the catch block answers. *)
Definition banUser (now : Z) (is_admin : bool) (userId : Z) (isBanned : bool)
    (db : Db) : Response * Db :=
  match requireAdmin is_admin with
  | Some r => (r, db)
  | None => (reply 500 (Error "Internal server error"), db)
  end.

Definition lower (c : Ascii.ascii) : Ascii.ascii :=
  let n := Ascii.nat_of_ascii c in
  if (65 <=? n)%nat && (n <=? 90)%nat then Ascii.ascii_of_nat (n + 32) else c.

Fixpoint toLowerCase (s : string) : string :=
  match s with
  | EmptyString => EmptyString
  | String c s' => String (lower c) (toLowerCase s')
  end.

Definition set_admin (now : Z) (email : string) (u : User.t) : User.t :=
  if bool_decide (User.email u = email)
  then User.mk (User.email u) (User.rating u) true now
  else u.

(** makeUserAdmin: [email] and [confirm] are the two answers typed at the
    prompt. *)
Definition makeUserAdmin (now : Z) (email confirm : string) (db : Db) : Db :=
  match select_where (λ u, bool_decide (User.email u = email)) (users db) with
  | None => db
  | Some (_, user) =>
      if User.isAdmin user then db
      else if negb (bool_decide (toLowerCase confirm = "yes")) then db
      else set_users (fmap (set_admin now email)) db
  end.

End Admin.

(** ** The WebSocket relay of the server entry point

    A [WebSocket] object is a handle (a number); [sockets] holds, for every
    connection the server has seen, the object's [readyState] and the
    variables of the closure that the 'connection' handler created for it. *)
Module Relay.

Inductive ReadyState := CONNECTING | OPEN | CLOSING | CLOSED.

#[global] Instance ReadyState_eq_dec : EqDecision ReadyState.
Proof. solve_decision. Defined.

Record Socket := mkSocket {
  readyState : ReadyState;
  isAlive : bool;
  pingInterval : bool;        (* the interval has not been cleared *)
  userId : option string;     (* set once the 'close', 'error' and 'message'
                                 listeners are attached *)
  closeCode : option Z;
  sent : list string          (* frames handed to ws.send, newest first *)
}.

Record State := mkState {
  clients : gmap string nat;  (* const clients = new Map<string, WebSocket>() *)
  sockets : gmap nat Socket
}.

(** ws.close(code, reason) *)
Definition close (code : Z) (s : Socket) : Socket :=
  match readyState s with
  | OPEN | CONNECTING =>
      mkSocket CLOSING (isAlive s) (pingInterval s) (userId s) (Some code) (sent s)
  | _ => s
  end.

(** ws.terminate() *)
Definition terminate (s : Socket) : Socket :=
  match readyState s with
  | CLOSED => s
  | _ => mkSocket CLOSING (isAlive s) (pingInterval s) (userId s)
           (closeCode s) (sent s)
  end.

(** ws.send(frame) *)
Definition send (frame : string) (s : Socket) : Socket :=
  match readyState s with
  | OPEN => mkSocket OPEN (isAlive s) (pingInterval s) (userId s)
              (closeCode s) (frame :: sent s)
  | _ => s
  end.

Definition set_isAlive (b : bool) (s : Socket) : Socket :=
  mkSocket (readyState s) b (pingInterval s) (userId s) (closeCode s) (sent s).

(** wss.on('connection', (ws, req) => ...): [req_url] is [None] when
    req.url is missing, else the value of searchParams.get('userId'). *)
Definition connection (ws : nat) (req_url : option (option string))
    (st : State) : State :=
  let fresh := mkSocket OPEN true true None None [] in
  match req_url with
  | None => mkState (clients st) (<[ws := close 4000 fresh]> (sockets st))
  | Some None | Some (Some "") =>
      mkState (clients st) (<[ws := close 4000 fresh]> (sockets st))
  | Some (Some userId) =>
      let socks :=
        match clients st !! userId with
        | Some existingConnection =>
            alter (close 1000) existingConnection (sockets st)
        | None => sockets st
        end in
      mkState (<[userId := ws]> (clients st))
              (<[ws := mkSocket OPEN true true (Some userId) None []]> socks)
  end.

(** The body of the setInterval callback of socket [ws]. *)
Definition heartbeat (s : Socket) : Socket :=
  if negb (isAlive s) then terminate s else set_isAlive false s.

(** handleClose of socket [ws], whose closure holds [userId]. *)
Definition handleClose (ws : nat) (userId : string) (st : State) : State :=
  mkState
    (if bool_decide (clients st !! userId = Some ws)
     then base.delete userId (clients st) else clients st)
    (alter (λ s, mkSocket (readyState s) (isAlive s) false (Relay.userId s)
                   (closeCode s) (sent s)) ws (sockets st)).

(** broadcastNotification(userId, notification) *)
Definition broadcastNotification (userId notification : string) (st : State)
    : State :=
  match clients st !! userId with
  | Some client =>
      match sockets st !! client with
      | Some s =>
          if bool_decide (readyState s = OPEN)
          then mkState (clients st)
                 (<[client := send notification s]> (sockets st))
          else st
      | None => st
      end
  | None => st
  end.

(** broadcastToAll(notification) *)
Definition broadcastToAll (notification : string) (st : State) : State :=
  mkState (clients st)
    (map_fold (λ _ client socks, alter (send notification) client socks)
              (sockets st) (clients st)).

(** What the process reacts to. *)
Inductive Event :=
  | Connection (ws : nat) (req_url : option (option string))
  | Interval (ws : nat)                 (* the 30 s timer of [ws] fires *)
  | Pong (ws : nat)                     (* ws.on('pong') *)
  | Close (ws : nat)                    (* ws.on('close'): the socket is closed *)
  | SocketError (ws : nat)              (* ws.on('error') *)
  | PingMessage (ws : nat)              (* ws.on('message') with {type:'ping'} *)
  | BroadcastNotification (userId notification : string)
  | BroadcastToAll (notification : string).

Definition mark_closed (s : Socket) : Socket :=
  mkSocket CLOSED (isAlive s) (pingInterval s) (userId s) (closeCode s) (sent s).

(** One reaction.  An event that cannot occur in the state (a second
    'connection' for the same object, a timer that was cleared, an event of
    an unknown socket) leaves it as it is. *)
Definition step (e : Event) (st : State) : State :=
  match e with
  | Connection ws req_url =>
      match sockets st !! ws with
      | None => connection ws req_url st
      | Some _ => st
      end
  | Interval ws =>
      match sockets st !! ws with
      | Some s =>
          if pingInterval s
          then mkState (clients st) (<[ws := heartbeat s]> (sockets st))
          else st
      | None => st
      end
  | Pong ws => mkState (clients st) (alter (set_isAlive true) ws (sockets st))
  | Close ws =>
      match sockets st !! ws with
      | Some s =>
          let st1 := mkState (clients st) (<[ws := mark_closed s]> (sockets st)) in
          match userId s with
          | Some u => handleClose ws u st1
          | None => st1
          end
      | None => st
      end
  | SocketError ws =>
      match sockets st !! ws with
      | Some s =>
          match userId s with
          | Some u => handleClose ws u st
          | None => st
          end
      | None => st
      end
  | PingMessage ws =>
      match sockets st !! ws with
      | Some s =>
          match userId s with
          | Some _ => mkState (clients st) (<[ws := send "pong" s]> (sockets st))
          | None => st
          end
      | None => st
      end
  | BroadcastNotification userId notification =>
      broadcastNotification userId notification st
  | BroadcastToAll notification => broadcastToAll notification st
  end.

Definition run (es : list Event) (st : State) : State :=
  foldl (λ st e, step e st) st es.

Definition init : State := mkState ∅ ∅.

(** The states the server can be in. *)
Inductive reachable : State → Prop :=
  | reachable_init : reachable init
  | reachable_step e st : reachable st → reachable (step e st).

(** The socket sendTo would write to. *)
Definition live (st : State) (userId : string) (ws : nat) : Prop :=
  clients st !! userId = Some ws
  ∧ ∃ s, sockets st !! ws = Some s ∧ readyState s = OPEN.

(** [e] is neither a pong, nor the close, nor an error of [ws]. *)
Definition silent (ws : nat) (e : Event) : Prop :=
  match e with
  | Pong w | Close w | SocketError w => w ≠ ws
  | _ => True
  end.

End Relay.

(** ** Vocabulary of the specification, read off the replies *)

(** The edges the specification draws between statuses. *)
Definition edge (from to : Status) : bool :=
  match from, to with
  | pending, (accepted | rejected | cancelled) => true
  | accepted, completed => true
  | _, _ => false
  end.

(** Who may ask for which target status, as PUT /:id/status decides it. *)
Definition may_transition (user requesterId skillOwnerId : Z) (target : Status)
    : bool :=
  match target with
  | accepted | rejected =>
      bool_decide (skillOwnerId = user) && bool_decide (requesterId ≠ user)
  | cancelled => bool_decide (requesterId = user)
  | completed => bool_decide (requesterId = user) || bool_decide (skillOwnerId = user)
  | pending => false
  end.

Definition NotAuthorized (r : Response) : Prop := status r = 403.
Definition NotFound (r : Response) : Prop := status r = 404.

(** A 400 reply that names the action to use instead. *)
Definition WrongAction (r : Response) (suggested : string) : Prop :=
  status r = 400 ∧ ∃ e s, body r = ErrorSuggestion e s [suggested].

Definition InvalidStateTransition (r : Response) : Prop :=
  r = reply 400 (Error "Only pending swap requests can be deleted").



Definition swap_status (db : Db) (swapRequestId : Z) : option Status :=
  SwapRequest.status <$> swap_requests db !! swapRequestId.

(** ** A small database for the examples

    User 1 offers skills 10 and 12, user 2 offers skill 11, user 3 owns
    nothing; swap request 1 is user 1 offering 10 for 11, in status [st]. *)
Module Fixture.
Definition user (email : string) : User.t := User.mk email 0 false 0.
Definition skill (owner : Z) : Skill.t :=
  Skill.mk owner "React" None "Other" "expert" true false 0.
Definition request (st : Status) : SwapRequest.t :=
  SwapRequest.mk 1 10 11 st None None None None None None 0 0.
Definition db (st : Status) : Db :=
  mkDb (list_to_map [(1, user "a@x.org"); (2, user "b@x.org"); (3, user "c@x.org")])
       (list_to_map [(10, skill 1); (11, skill 2); (12, skill 1)])
       {[ 1 := request st ]} 1 ∅ 0.
End Fixture.



Definition has_pending_request (db : Db) (requester wanted : Z) : Prop :=
  ∃ k sr, swap_requests db !! k = Some sr
          ∧ SwapRequest.requesterId sr = requester
          ∧ SwapRequest.skillRequestedId sr = wanted
          ∧ SwapRequest.status sr = pending.

(** User 2 has received a 5 and a 4 from user 3 and a 4 from user 1; swap
    request 1 (user 1 asking user 2) is completed. *)
Module RatingsFixture.
Definition row (raterId rating : Z) : Rating.t :=
  Rating.mk 2 raterId rating None 0 0.
Definition db : Db :=
  mkDb (users (Fixture.db completed)) (skills (Fixture.db completed))
       (swap_requests (Fixture.db completed)) 1
       (list_to_map [(1, row 3 5); (2, row 3 4); (3, row 1 4)]) 3.
End RatingsFixture.

(** The database of [Fixture] with user 3 an administrator. *)
Module AdminFixture.
Definition db : Db :=
  set_users (insert 3 (User.mk "c@x.org" 0 true 0)) (Fixture.db pending).
End AdminFixture.

(** ** Vocabulary for the relay *)

(** A socket that serves a user: open, announced for that user, and its
    close handler has not run. *)
Definition serving (st : Relay.State) (userId : string) (ws : nat) : Prop :=
  ∃ s, Relay.sockets st !! ws = Some s ∧ Relay.userId s = Some userId
       ∧ Relay.readyState s = Relay.OPEN ∧ Relay.pingInterval s = true.

(** Every registry entry is a socket announced for that user whose close
    handler has not run, and every serving socket is the registry entry of
    its user. *)
Definition registry_consistent (st : Relay.State) : Prop :=
  (∀ u ws, Relay.clients st !! u = Some ws →
     ∃ s, Relay.sockets st !! ws = Some s ∧ Relay.userId s = Some u
          ∧ Relay.pingInterval s = true ∧ Relay.readyState s ≠ Relay.CLOSED)
  ∧ (∀ u ws, serving st u ws → Relay.clients st !! u = Some ws).

(** Two socket records that differ at most in the frames sent. *)
Definition same_control (s s' : Relay.Socket) : Prop :=
  Relay.readyState s' = Relay.readyState s
  ∧ Relay.isAlive s' = Relay.isAlive s
  ∧ Relay.pingInterval s' = Relay.pingInterval s
  ∧ Relay.userId s' = Relay.userId s.

(** ** database/migration.ts: MigrationRunner

    [S] is the state of everything a migration's [up] may change.  [up]
    returns the state it reached and whether it returned ([true]) or threw
    ([false]).  The [migrations] table is the set of its primary keys. *)
Module Migrations.

Section Runner.
Context {S : Type}.

Record Migration := mkMigration {
  id : string;
  up : S → S * bool
}.

Record Db := mkDb {
  schema : S;
  applied : gset string     (* SELECT id FROM migrations *)
}.

(** The for loop of [migrate]: every iteration is BEGIN TRANSACTION, [up],
    INSERT INTO migrations, COMMIT; a throw of [up] or of the INSERT (the id
    is already a primary key of the table) is answered by ROLLBACK and
    rethrown.  [Some i] is the id of the migration that threw. *)
Fixpoint run_pending (pendingMigrations : list Migration) (db : Db)
    : Db * option string :=
  match pendingMigrations with
  | [] => (db, None)
  | migration :: rest =>
      let '(s, returned) := up migration (schema db) in
      if returned && bool_decide (id migration ∉ applied db)
      then run_pending rest (mkDb s ({[ id migration ]} ∪ applied db))
      else (db, Some (id migration))
  end.

(** migrate() of a runner whose [addMigration] calls registered
    [migrations], in that order. *)
Definition migrate (migrations : list Migration) (db : Db) : Db * option string :=
  let appliedIds := applied db in
  let pendingMigrations :=
    filter (λ m, id m ∉ appliedIds) migrations in
  run_pending pendingMigrations db.

End Runner.

Arguments Migration : clear implicits.
Arguments Db : clear implicits.

End Migrations.

(** A runner over a schema that is the list of its tables: the migration of
    migrations/001_create_ratings_table.ts, and one whose [up] throws. *)
Module MigrationFixture.
Definition createRatingsTable : Migrations.Migration (list string) :=
  Migrations.mkMigration "001_create_ratings_table"
    (λ s, (if bool_decide ("ratings" ∈ s) then s else "ratings" :: s, true)).
Definition broken : Migrations.Migration (list string) :=
  Migrations.mkMigration "002_broken" (λ s, ("half" :: s, false)).
Definition db0 : Migrations.Db (list string) :=
  Migrations.mkDb ["users"; "skills"] ∅.
(** [broken] is recorded as applied. *)
Definition db1 : Migrations.Db (list string) :=
  Migrations.mkDb ["users"; "skills"] {[ "002_broken" ]}.
End MigrationFixture.

(** ** skills.routes.ts: POST / *)
Module NewSkill.

(** The database with the sqlite_sequence entry of [skills]. *)
Record Store := mkStore { db : Db; seq_skills : Z }.

(** WHERE userId = ? AND name = ? AND ((isOffering = 1 AND ? = 'offered')
    OR (isSeeking = 1 AND ? = 'wanted')) *)
Definition listed_as (user : Z) (name type : string) (s : Skill.t) : bool :=
  bool_decide (Skill.userId s = user) && bool_decide (Skill.name s = name)
  && ((Skill.isOffering s && bool_decide (type = "offered"))
      || (Skill.isSeeking s && bool_decide (type = "wanted"))).

(** POST / : add a skill.  [category] is the field of the request body;
    skillSchema does not declare it, so [schema.parse] strips it and the
    handler's [category = 'Other'] default applies.  The second component is
    the [skill] of the 201 reply: the id and row of the new skill. *)
Definition add (now user : Z) (name type : string)
    (description proficiency_level category : option string) (st : Store)
    : Response * option (Z * Skill.t) * Store :=
  match Skills.skillSchema name type proficiency_level with
  | None => (reply 400 (Error "Validation failed"), None, st)
  | Some proficiency_level =>
    let category : option string := None in
    let category := default "Other" category in
    if negb (includes proficiency_level
               ["beginner"; "intermediate"; "advanced"; "expert"])
    then (reply 400 (Error "Invalid proficiency level"), None, st)
    else match select_where (listed_as user name type) (skills (db st)) with
    | Some _ => (reply 400 (Error "You already have this skill listed"), None, st)
    | None =>
        let isOffering := bool_decide (type = "offered") in
        let isSeeking := bool_decide (type = "wanted") in
        let skillId := next_rowid (seq_skills st) (skills (db st)) in
        let row := Skill.mk user name (Ratings.or_null description) category
                     proficiency_level isOffering isSeeking now in
        (reply 201 (Message "Skill added successfully"), Some (skillId, row),
         mkStore (set_skills (insert skillId row) (db st)) skillId)
    end
  end.

End NewSkill.

(** A user lists a skill name at most once per direction. *)
Definition listings_distinct (m : gmap Z Skill.t) : Prop :=
  ∀ k1 k2 s1 s2, m !! k1 = Some s1 → m !! k2 = Some s2 →
    Skill.userId s1 = Skill.userId s2 → Skill.name s1 = Skill.name s2 →
    (Skill.isOffering s1 = true ∧ Skill.isOffering s2 = true)
    ∨ (Skill.isSeeking s1 = true ∧ Skill.isSeeking s2 = true) →
    k1 = k2.

(** ** swaps.routes.ts: GET / , and the actions SwapRequestsPage offers *)
Module SwapList.

(** The WHERE clause of the listing on a row that survives the four JOINs
    (requester, wanted skill, its owner, offered skill).  [status] and [type]
    are the query parameters; [if (status)] skips an absent or empty one. *)
Definition row_visible (db : Db) (user : Z) (status : option string)
    (type : string) (sr : SwapRequest.t) : bool :=
  match users db !! SwapRequest.requesterId sr,
        skills db !! SwapRequest.skillRequestedId sr,
        skills db !! SwapRequest.skillOfferedId sr with
  | Some _, Some ws, Some _ =>
      match users db !! Skill.userId ws with
      | Some _ =>
          (bool_decide (SwapRequest.requesterId sr = user)
           || bool_decide (Skill.userId ws = user))
          && match status with
             | None | Some "" => true
             | Some s =>
                 bool_decide (Swaps.status_of_string s = Some (SwapRequest.status sr))
             end
          && (if bool_decide (type = "sent")
              then bool_decide (SwapRequest.requesterId sr = user)
              else if bool_decide (type = "received")
              then bool_decide (Skill.userId ws = user)
              else true)
      | None => false
      end
  | _, _, _ => false
  end.

(** GET / : the rows of the reply, by id (the reply orders them by
    createdAt, which is not kept here). *)
Definition list (user : Z) (status : option string) (type : string) (db : Db)
    : gmap Z SwapRequest.t :=
  filter (λ kv, row_visible db user status type kv.2 = true) (swap_requests db).

End SwapList.

Module SwapRequestsPage.

Inductive Action :=
  | DeleteRequest
  | StatusUpdate (status : string)
  | RateExperience.

(** The buttons the page renders on the card of a swap, under the tab
    [filter] ('sent' or 'received'). *)
Definition actions (filter : string) (status : Status) : list Action :=
  match status with
  | pending =>
      (if bool_decide (filter = "sent") then [DeleteRequest] else [])
      ++ (if bool_decide (filter = "received")
          then [StatusUpdate "accepted"; StatusUpdate "rejected"] else [])
  | accepted => [StatusUpdate "completed"]
  | completed => [RateExperience]
  | _ => []
  end.

End SwapRequestsPage.

(** ** NotificationContext.tsx: reconnecting the notification socket *)
Module NotificationProvider.

Definition maxReconnectAttempts : Z := 5.

(** ws.current.onopen: the new value of reconnectAttempts.current. *)
Definition onopen (reconnectAttempts : Z) : Z := 0.

(** ws.current.onclose: the new value of reconnectAttempts.current and the
    delay of the reconnect timer, when one is set. *)
Definition onclose (code : Z) (reconnectAttempts : Z) : Z * option Z :=
  if bool_decide (code = 1000) || bool_decide (code = 4000)
  then (reconnectAttempts, None)
  else if bool_decide (reconnectAttempts < maxReconnectAttempts)
  then
    let delay := Z.min (1000 * 2 ^ reconnectAttempts) 30000 in
    (reconnectAttempts + 1, Some delay)
  else (reconnectAttempts, None).

Inductive Event :=
  | Opened
  | Closed (code : Z).

(** The counter and the delays of the timers set, oldest first, as the
    sockets of the provider open and close.  (The constructor of WebSocket
    is taken not to throw: the catch branch of setupWebSocket is left out.) *)
Fixpoint run (es : list Event) (reconnectAttempts : Z) : Z * list Z :=
  match es with
  | [] => (reconnectAttempts, [])
  | Opened :: rest => run rest (onopen reconnectAttempts)
  | Closed code :: rest =>
      let '(n, timer) := onclose code reconnectAttempts in
      let '(n', delays) := run rest n in
      (n', (option_list timer ++ delays)%list)
  end.

End NotificationProvider.

(** ** HomePage.tsx: the pagination bar *)
Module HomePage.

(** The numbered buttons: Array.from({length: Math.min(5, totalPages)}, ...). *)
Definition page_buttons (totalPages currentPage : Z) : list Z :=
  (λ i, Z.max 1 (Z.min (totalPages - 4) (currentPage - 2)) + Z.of_nat i)
    <$> seq 0 (Z.to_nat (Z.min 5 totalPages)).

(** The pages handlePageChange can be called with: Previous and Next when
    they are not disabled, and the numbered buttons. *)
Definition page_changes (totalPages currentPage : Z) : list Z :=
  if bool_decide (1 < totalPages)
  then (if bool_decide (currentPage = 1) then [] else [currentPage - 1])
       ++ page_buttons totalPages currentPage
       ++ (if bool_decide (currentPage = totalPages) then [] else [currentPage + 1])
  else [].

End HomePage.

(** ** users.routes.ts: GET /search, the page of the result *)
Module UserSearch.

(** LIMIT ? OFFSET ? : a negative offset counts as 0, a negative limit as no
    limit. *)
Definition LIMIT_OFFSET {A} (limit offset : Z) (rows : list A) : list A :=
  let rest := drop (Z.to_nat offset) rows in
  if bool_decide (limit < 0) then rest else take (Z.to_nat limit) rest.

(** Math.ceil(Number(total) / Number(limit)) for a count [total ≥ 0] and
    [limit > 0], the quotient taken in binary64. *)
Definition totalPages (total limit : Z) : Z :=
  if bool_decide (total = 0) then 0 else Qceiling (Real.b64_div total limit).

Record Pagination := mkPagination {
  page : Z;
  limit : Z;
  total : Z;
  pages : Z                     (* totalPages *)
}.

(** The reply for the users [matching] the search (every user but the
    caller, having a skill like the one asked for), ordered by fullName. *)
Definition search {A} (page limit : Z) (matching : list A)
    : list A * Pagination :=
  let offset := (page - 1) * limit in
  (LIMIT_OFFSET limit offset matching,
   mkPagination page limit (Z.of_nat (length matching))
     (totalPages (Z.of_nat (length matching)) limit)).

End UserSearch.

(** ** middleware/auth.ts, auth.routes.ts and the interceptors of api.ts *)
Module Auth.

Import Stdlib.Strings.Ascii.
Definition space : ascii := " "%char.
Definition at_sign : ascii := "@"%char.

(** s.split(separator), for a separator of one character. *)
Fixpoint split (separator : Ascii.ascii) (s : string) : list string :=
  match s with
  | EmptyString => [EmptyString]
  | String c rest =>
      if Ascii.eqb c separator then EmptyString :: split separator rest
      else match split separator rest with
           | piece :: pieces => String c piece :: pieces
           | [] => [String c EmptyString]
           end
  end.

(** The payload of a token. *)
Record Claims := mkClaims { id : Z; email : string; is_admin : bool }.

Inductive Outcome :=
  | Next (user : Claims)        (* req.user = decoded; next() *)
  | Rejected (r : Response).

(** The columns of users that [User.t] leaves out, kept under the rowid of
    the row. *)
Record Credentials := mkCredentials {
  username : string;            (* UNIQUE *)
  password : string;            (* the bcrypt hash *)
  fullName : string;
  location : option string
}.

Record Store := mkStore {
  db : Db;
  credentials : gmap Z Credentials;
  seq_users : Z
}.


Inductive Reply :=
  | Session (status : Z) (message token : string) (userId : Z)
  | Failure (r : Response).

Section Server.

Variable isEmail : string → bool.             (* z.string().email() *)
Variable hash : string → string → string.     (* bcrypt.hash, by password and salt *)
Variable compare : string → string → bool.    (* bcrypt.compare *)
Variable sign : Z → Claims → string.          (* jwt.sign at a time, expiresIn 7d *)
Variable verify : Z → string → option Claims. (* jwt.verify at a time; None: it throws *)

Definition generateToken (now : Z) (user : Claims) : string := sign now user.

(** authenticateToken, on the Authorization header of the request. *)
Definition authenticateToken (now : Z) (authorization : option string)
    : Outcome :=
  let token :=
    match authorization with
    | None | Some "" => None
    | Some authHeader => split space authHeader !! 1%nat
    end in
  match token with
  | None | Some "" => Rejected (reply 401 (Error "Access token required"))
  | Some token =>
      match verify now token with
      | Some decoded => Next decoded
      | None => Rejected (reply 403 (Error "Invalid or expired token"))
      end
  end.

Definition userRegistrationSchema (email password : string) : bool :=
  isEmail email && bool_decide (4 ≤ String.length password)%nat.

Definition userLoginSchema (email password : string) : bool :=
  isEmail email && bool_decide (1 ≤ String.length password)%nat.

Definition has_email (email : string) (u : User.t) : bool :=
  bool_decide (User.email u = email).

Definition has_username (name : string) (c : Credentials) : bool :=
  bool_decide (username c = name).

(** POST /register; [salt] is the salt bcrypt draws. *)
Definition register (now : Z) (salt : string) (email password : string)
    (name location : option string) (st : Store) : Reply * Store :=
  if negb (userRegistrationSchema email password)
  then (Failure (reply 400 (Error "Validation failed")), st)
  else match select_where (has_email email) (users (db st)) with
  | Some existingUser =>
      (Failure (reply 400 (Error "User already exists with this email")), st)
  | None =>
      let hashedPassword := hash password salt in
      let username := default "" (head (split at_sign email)) in
      match select_where (has_username username) (credentials st) with
      | Some _ =>             (* UNIQUE constraint failed: users.username *)
          (Failure (reply 500 (Error "Internal server error")), st)
      | None =>
          let userId := next_rowid (seq_users st) (users (db st)) in
          let fullName := match Ratings.or_null name with
                          | Some n => n
                          | None => username
                          end in
          let token := generateToken now (mkClaims userId email false) in
          (Session 201 "User registered successfully" token userId,
           mkStore
             (set_users (insert userId (User.mk email 0 false now)) (db st))
             (<[userId := mkCredentials username hashedPassword fullName
                            (Ratings.or_null location)]> (credentials st))
             userId)
      end
  end.

(** POST /login *)
Definition login (now : Z) (email password : string) (st : Store) : Reply :=
  if negb (userLoginSchema email password)
  then Failure (reply 400 (Error "Validation failed"))
  else match select_where (has_email email) (users (db st)) with
  | None => Failure (reply 401 (Error "Invalid email or password"))
  | Some (userId, user) =>
      match credentials st !! userId with
      | None => Failure (reply 500 (Error "Internal server error"))
      | Some c =>
          if negb (compare password (Auth.password c))
          then Failure (reply 401 (Error "Invalid email or password"))
          else Session 200 "Login successful"
                 (generateToken now
                    (mkClaims userId (User.email user) (User.isAdmin user)))
                 userId
      end
  end.

End Server.

(** api.ts, request interceptor: the Authorization header it sets, from
    localStorage.getItem('token'). *)
Definition request_interceptor (token : option string) : option string :=
  match token with
  | None | Some "" => None
  | Some token => Some ("Bearer " ++ token)
  end.

(** api.ts, response interceptor for an error reply: the token left in
    localStorage. *)
Definition response_interceptor (status : Z) (token : option string)
    : option string :=
  if bool_decide (status = 401) then None else token.

End Auth.

(** [c] occurs in [s]. *)
Fixpoint occurs (c : Ascii.ascii) (s : string) : bool :=
  match s with
  | EmptyString => false
  | String a rest => Ascii.eqb a c || occurs c rest
  end.

(** The users table as the UNIQUE constraints keep it: one row of
    credentials per user, no email and no username twice. *)
Definition accounts_unique (st : Auth.Store) : Prop :=
  (∀ k, is_Some (users (Auth.db st) !! k) ↔ is_Some (Auth.credentials st !! k))
  ∧ (∀ k1 k2 u1 u2, users (Auth.db st) !! k1 = Some u1 →
       users (Auth.db st) !! k2 = Some u2 →
       User.email u1 = User.email u2 → k1 = k2)
  ∧ (∀ k1 k2 c1 c2, Auth.credentials st !! k1 = Some c1 →
       Auth.credentials st !! k2 = Some c2 →
       Auth.username c1 = Auth.username c2 → k1 = k2).

(** Stand-ins for zod, bcrypt and jsonwebtoken, and a store with one
    account: passwords are kept as they are and the token of a user is
    their email. *)
Module AuthFixture.

Definition isEmail (s : string) : bool := occurs Auth.at_sign s.
Definition hash (password salt : string) : string := password.
Definition compare (password hashed : string) : bool :=
  bool_decide (password = hashed).
Definition sign (now : Z) (c : Auth.Claims) : string := Auth.email c.
Definition verify (now : Z) (token : string) : option Auth.Claims :=
  if bool_decide (token = "e@x.org")
  then Some (Auth.mkClaims 5 "e@x.org" false) else None.

Definition store : Auth.Store :=
  Auth.mkStore
    (mkDb {[ 4 := Fixture.user "d@x.org" ]} ∅ ∅ 0 ∅ 0)
    {[ 4 := Auth.mkCredentials "d" "pw-d" "D" None ]}
    4.

End AuthFixture.

(** ** The routes that write, as index.ts mounts them behind
    authenticateToken *)
Module Server.

Inductive Request :=
  | AddSkill (name type : string)
      (description proficiency_level category : option string)
  | UpdateSkill (skillId : Z) (name type : string)
      (description proficiency_level : option string)
  | DeleteSkill (skillId : Z)
  | CreateSwap (providerId offeredSkillId wantedSkillId : Z)
      (message : option string)
  | UpdateSwapStatus (swapRequestId : Z) (status : string)
  | DeleteSwap (swapRequestId : Z)
  | SubmitRating (swapId rating : Z) (feedback : option string)
  | BanUser (userId : Z) (isBanned : bool).

Definition on_db (f : Db → Response * Db) (st : NewSkill.Store)
    : Response * NewSkill.Store :=
  let '(r, db) := f (NewSkill.db st) in
  (r, NewSkill.mkStore db (NewSkill.seq_skills st)).

(** One request of the user [req.user], at time [now]. *)
Definition handle (now : Z) (user : Auth.Claims) (req : Request)
    (st : NewSkill.Store) : Response * NewSkill.Store :=
  let id := Auth.id user in
  match req with
  | AddSkill name type description proficiency_level category =>
      let '(r, _, st') :=
        NewSkill.add now id name type description proficiency_level category st in
      (r, st')
  | UpdateSkill skillId name type description proficiency_level =>
      on_db (Skills.update now id skillId name type description
               proficiency_level) st
  | DeleteSkill skillId => on_db (Skills.delete id skillId) st
  | CreateSwap providerId offeredSkillId wantedSkillId message =>
      on_db (Swaps.create now id providerId offeredSkillId wantedSkillId
               message) st
  | UpdateSwapStatus swapRequestId status =>
      on_db (Swaps.updateStatus now id swapRequestId status) st
  | DeleteSwap swapRequestId => on_db (Swaps.delete id swapRequestId) st
  | SubmitRating swapId rating feedback =>
      on_db (Ratings.submit now id swapId rating feedback) st
  | BanUser userId isBanned =>
      on_db (Admin.banUser now (Auth.is_admin user) userId isBanned) st
  end.

(** Requests served one after the other: the replies, in order, and the
    store they leave. *)
Fixpoint serve (reqs : list (Z * Auth.Claims * Request)) (st : NewSkill.Store)
    : list Response * NewSkill.Store :=
  match reqs with
  | [] => ([], st)
  | (now, user, req) :: rest =>
      let '(r, st1) := handle now user req st in
      let '(rs, st2) := serve rest st1 in
      (r :: rs, st2)
  end.

End Server.

(** Every swap request names two skills that exist. *)
Definition references_resolve (db : Db) : Prop :=
  ∀ k sr, swap_requests db !! k = Some sr →
    is_Some (skills db !! SwapRequest.skillOfferedId sr)
    ∧ is_Some (skills db !! SwapRequest.skillRequestedId sr).

(** The id a reply announces for a new swap request. *)
Definition created_id (r : Response) : option Z :=
  match body r with
  | Created _ swap_request_id => Some swap_request_id
  | _ => None
  end.

(** User 1 withdraws the request of [Fixture], asks again, withdraws and asks
    once more. *)
Module ServerFixture.
Definition store : NewSkill.Store := NewSkill.mkStore (Fixture.db pending) 12.
Definition alice : Auth.Claims := Auth.mkClaims 1 "a@x.org" false.
Definition requests : list (Z * Auth.Claims * Server.Request) :=
  [(1, alice, Server.DeleteSwap 1);
   (2, alice, Server.CreateSwap 2 10 11 None);
   (3, alice, Server.DeleteSwap 2);
   (4, alice, Server.CreateSwap 2 10 11 None)].
End ServerFixture.

(** ** App.tsx: the routes and their guards *)
Module App.

Record User := mkUser { is_admin : bool }.

Inductive Path :=
  | login_path | register_path | home_path | profile_path
  | user_path (id : string) | swaps_path | admin_path
  | other_path (address : string).   (* an address none of the routes matches *)

Inductive Page :=
  | LoginPage | RegisterPage | HomePage | ProfilePage | UserProfilePage
  | SwapRequestsPage | AdminDashboard.

Inductive Element :=
  | LoadingSpinner
  | Navigate (to : Path)
  | Render (page : Page)
  | Nothing.                         (* <Routes> without a match renders null *)

Definition ProtectedRoute (loading : bool) (user : option User)
    (children : Element) : Element :=
  if loading then LoadingSpinner
  else match user with
       | None => Navigate login_path
       | Some _ => children
       end.

Definition AdminRoute (loading : bool) (user : option User)
    (children : Element) : Element :=
  if loading then LoadingSpinner
  else match user with
       | None => Navigate home_path
       | Some u => if negb (is_admin u) then Navigate home_path else children
       end.

(** What AppContent shows at [path]. *)
Definition AppContent (loading : bool) (user : option User) (path : Path)
    : Element :=
  if loading then LoadingSpinner
  else match path with
  | login_path =>
      match user with Some _ => Navigate home_path | None => Render LoginPage end
  | register_path =>
      match user with Some _ => Navigate home_path | None => Render RegisterPage end
  | home_path => ProtectedRoute loading user (Render HomePage)
  | profile_path => ProtectedRoute loading user (Render ProfilePage)
  | user_path _ => ProtectedRoute loading user (Render UserProfilePage)
  | swaps_path => ProtectedRoute loading user (Render SwapRequestsPage)
  | admin_path => AdminRoute loading user (Render AdminDashboard)
  | other_path _ => Nothing
  end.

(** What is on the screen after at most [n] redirects. *)
Fixpoint follow (n : nat) (loading : bool) (user : option User) (path : Path)
    : Element :=
  match AppContent loading user path, n with
  | Navigate to, S n' => follow n' loading user to
  | e, _ => e
  end.

End App.

(** ** UserProfilePage.tsx: the swap request form *)
Module UserProfilePage.

(** CASE WHEN isOffering = 1 THEN 'offered' ELSE 'wanted' END as type *)
Definition type_of (s : Skill.t) : string :=
  if Skill.isOffering s then "offered" else "wanted".

(** The ids and types of the skills of a user, as GET /skills (for the
    caller) and GET /users/:id (for the profile) list them. *)
Definition skills_of (userId : Z) (db : Db) : list (Z * string) :=
  (λ kv, (kv.1, type_of kv.2))
    <$> filter (λ kv, Skill.userId kv.2 = userId) (map_to_list (skills db)).

(** The options of a select of the form: the skills of type 'offered'. *)
Definition options (listed : list (Z * string)) : list Z :=
  (filter (λ skill, skill.2 = "offered") listed).*1.

(** handleSwapRequest on the profile of user [id], by user [me]; the two
    selections are [None] while nothing is chosen.  [None]: no request is
    sent. *)
Definition handleSwapRequest (now me id : Z)
    (offered_skill_id wanted_skill_id : option Z) (message : string) (db : Db)
    : option (Response * Db) :=
  match offered_skill_id, wanted_skill_id with
  | Some offered, Some wanted =>
      Some (Swaps.create now me id offered wanted (Some message) db)
  | _, _ => None
  end.

End UserProfilePage.

(** * Theorems *)

(** ** Tables *)

Lemma max_rowid_bound {A} (m : gmap Z A) k v :
  m !! k = Some v → k ≤ max_rowid m.
Proof.
  unfold max_rowid. revert k v.
  apply (map_fold_weak_ind (λ r m, ∀ k v, m !! k = Some v → k ≤ r)).
  - intros k v H. by rewrite lookup_empty in H.
  - intros i x m' r Hi IH k v Hk.
    destruct (decide (i = k)) as [->|Hne].
    + lia.
    + rewrite lookup_insert_ne in Hk by done. specialize (IH _ _ Hk). lia.
Qed.

Lemma next_rowid_fresh {A} seq (m : gmap Z A) : m !! next_rowid seq m = None.
Proof.
  destruct (m !! next_rowid seq m) eqn:E; [|done].
  apply max_rowid_bound in E. unfold next_rowid in E. lia.
Qed.

Lemma select_where_Some {A} (p : A → bool) (m : gmap Z A) k v :
  select_where p m = Some (k, v) → p v = true ∧ m !! k = Some v.
Proof.
  unfold select_where. intros E.
  apply head_Some_elem_of in E. apply list_elem_of_filter in E as [Hp Hin].
  apply elem_of_map_to_list in Hin. simpl in Hp.
  split; [by destruct (p v)|done].
Qed.

Lemma select_where_None {A} (p : A → bool) (m : gmap Z A) :
  select_where p m = None ↔ ∀ k v, m !! k = Some v → p v = false.
Proof.
  unfold select_where. split.
  - intros H k v Hk. destruct (p v) eqn:Hp; [|done].
    assert ((k, v) ∈ filter (λ kv : Z * A, p kv.2) (map_to_list m)) as Hin.
    { apply list_elem_of_filter. split; [simpl; by rewrite Hp|].
      by apply elem_of_map_to_list. }
    destruct (filter _ _) as [|x l] eqn:E; [by apply elem_of_nil in Hin|].
    by simpl in H.
  - intros H. destruct (head _) as [[k w]|] eqn:E; [|done].
    apply head_Some_elem_of in E. apply list_elem_of_filter in E as [Hp Hin].
    apply elem_of_map_to_list in Hin. simpl in Hp.
    rewrite (H _ _ Hin) in Hp. done.
Qed.

Lemma alter_present {A} (f : A → A) (m : gmap Z A) k v :
  m !! k = Some v → alter f k m = <[k := f v]> m.
Proof.
  intros H. apply map_eq. intros j. destruct (decide (k = j)) as [->|Hne].
  - by rewrite lookup_alter_eq, lookup_insert_eq, H.
  - rewrite lookup_alter_ne, lookup_insert_ne; done.
Qed.

(** ** Binary64 rounding *)

Lemma round_half_even_near num den :
  0 < den → 2 * Z.abs (Real.round_half_even num den * den - num) ≤ den.
Proof.
  intros Hden. unfold Real.round_half_even.
  pose proof (Z.div_mod num den ltac:(lia)) as Hdm.
  pose proof (Z.mod_pos_bound num den Hden) as Hr.
  set (f := num / den) in *. set (r := num mod den) in *. clearbody f r.
  destruct (2 * r ?= den) eqn:E.
  - apply Z.compare_eq in E. destruct (Z.even f).
    + replace (f * den - num) with (- r) by lia. lia.
    + replace ((f + 1) * den - num) with (den - r) by lia. lia.
  - rewrite Z.compare_lt_iff in E.
    replace (f * den - num) with (- r) by lia. lia.
  - rewrite Z.compare_gt_iff in E.
    replace ((f + 1) * den - num) with (den - r) by lia. lia.
Qed.

Lemma exponent_bounds n d :
  0 < n → 0 < d →
  let e := Real.exponent n d in
  (0 ≤ e → d * 2 ^ e ≤ n < d * 2 ^ (e + 1))
  ∧ (e < 0 → d ≤ n * 2 ^ (- e) < 2 * d).
Proof.
  intros Hn Hd. unfold Real.exponent.
  destruct (Z.log2_spec n Hn) as [Hn1 Hn2].
  destruct (Z.log2_spec d Hd) as [Hd1 Hd2].
  pose proof (Z.log2_nonneg n) as Ha. pose proof (Z.log2_nonneg d) as Hb.
  set (a := Z.log2 n) in *. set (b := Z.log2 d) in *.
  rewrite <- Z.add_1_r in Hn2, Hd2.
  rewrite Z.pow_add_r in Hn2, Hd2 by lia. change (2 ^ 1) with 2 in *.
  destruct (0 <=? a - b) eqn:E0.
  - apply Z.leb_le in E0.
    assert (2 ^ a = 2 ^ b * 2 ^ (a - b)) as Hab.
    { rewrite <- Z.pow_add_r by lia. f_equal. lia. }
    pose proof (Z.pow_pos_nonneg 2 (a - b) ltac:(lia) E0) as Hp.
    pose proof (Z.pow_pos_nonneg 2 b ltac:(lia) Hb) as Hpb.
    destruct (d * 2 ^ (a - b) <=? n) eqn:E1.
    + apply Z.leb_le in E1. simpl. split; [|lia]. intros _.
      rewrite Z.pow_add_r by lia. change (2 ^ 1) with 2. nia.
    + apply Z.leb_gt in E1. simpl. split.
      * intros He. replace (a - b - 1 + 1) with (a - b) by lia. split; [|lia].
        assert (2 ^ (a - b) = 2 * 2 ^ (a - b - 1)) as Hh.
        { replace (a - b) with (1 + (a - b - 1)) at 1 by lia.
          rewrite Z.pow_add_r by lia. reflexivity. }
        pose proof (Z.pow_pos_nonneg 2 (a - b - 1) ltac:(lia) He). nia.
      * intros He. assert (a - b = 0) as Hz by lia. rewrite Hz in *.
        change (- (0 - 1)) with 1. change (2 ^ 1) with 2.
        change (2 ^ 0) with 1 in *. nia.
  - apply Z.leb_gt in E0.
    assert (2 ^ b = 2 ^ a * 2 ^ (- (a - b))) as Hab.
    { rewrite <- Z.pow_add_r by lia. f_equal. lia. }
    pose proof (Z.pow_pos_nonneg 2 (- (a - b)) ltac:(lia) ltac:(lia)) as Hp.
    pose proof (Z.pow_pos_nonneg 2 a ltac:(lia) Ha) as Hpa.
    destruct (d <=? n * 2 ^ (- (a - b))) eqn:E1.
    + apply Z.leb_le in E1. simpl. split; [lia|]. intros _. nia.
    + apply Z.leb_gt in E1. simpl. split; [lia|]. intros _.
      replace (- (a - b - 1)) with (- (a - b) + 1) by lia.
      rewrite Z.pow_add_r by lia. change (2 ^ 1) with 2. nia.
Qed.

Lemma Qmake_near (m n : Z) (P D : positive) :
  2 ^ 53 * Z.abs (m * Z.pos D - n * Z.pos P) ≤ n * Z.pos P →
  (Qabs ((m # P) - (n # D)) <= (n # D) * (1 # 2 ^ 53))%Q.
Proof.
  intros H. unfold Qminus, Qplus, Qopp, Qabs, Qmult, Qle. simpl.
  replace (m * Z.pos D + - n * Z.pos P) with (m * Z.pos D - n * Z.pos P) by lia.
  set (X := Z.abs (m * Z.pos D - n * Z.pos P)) in *. clearbody X.
  rewrite !Pos2Z.inj_mul. change (Z.pos (2 ^ 53)) with (2 ^ 53).
  pose proof (Pos2Z.is_pos D). nia.
Qed.

Lemma scale2_down m k :
  0 ≤ k → (Real.scale2 m (- k) == m # Z.to_pos (2 ^ k))%Q.
Proof.
  intros Hk. unfold Real.scale2. destruct (decide (k = 0)) as [->|Hne].
  - simpl. unfold Qeq, inject_Z. simpl. lia.
  - rewrite (proj2 (Z.leb_gt _ _)) by lia.
    by replace (- - k) with k by lia.
Qed.

(** The stored quotient is the mean up to one binary64 rounding: for
    positive [n] and [d] it differs from [n/d] by at most [2^-53] of it. *)
Lemma b64_div_near n d :
  0 < n → 0 < d →
  (Qabs (Real.b64_div n d - (n # Z.to_pos d)) <= (n # Z.to_pos d) * (1 # 2 ^ 53))%Q.
Proof.
  intros Hn Hd. unfold Real.b64_div. rewrite Qred_correct.
  destruct (exponent_bounds n d Hn Hd) as [Hpos Hneg].
  set (e := Real.exponent n d) in *. clearbody e.
  assert (Z.pos (Z.to_pos d) = d) as HD by (by apply Z2Pos.id).
  destruct (0 <=? 52 - e) eqn:Ek.
  - apply Z.leb_le in Ek. rewrite (scale2_down _ _ Ek).
    apply Qmake_near.
    pose proof (Z.pow_pos_nonneg 2 (52 - e) ltac:(lia) Ek) as HP.
    rewrite HD, (Z2Pos.id _ HP).
    pose proof (round_half_even_near (n * 2 ^ (52 - e)) d Hd) as Hr.
    set (m := Real.round_half_even _ _) in *. clearbody m.
    set (X := Z.abs (m * d - n * 2 ^ (52 - e))) in *. clearbody X.
    assert (2 ^ 52 * d ≤ n * 2 ^ (52 - e)) as Hscale.
    { destruct (Z.le_gt_cases 0 e) as [He|He].
      - destruct (Hpos He) as [Hlo _].
        assert (2 ^ 52 = 2 ^ e * 2 ^ (52 - e)) as ->.
        { rewrite <- Z.pow_add_r by lia. f_equal; lia. }
        nia.
      - destruct (Hneg He) as [Hlo _].
        assert (2 ^ (52 - e) = 2 ^ 52 * 2 ^ (- e)) as ->.
        { rewrite <- Z.pow_add_r by lia. f_equal; lia. }
        nia. }
    change (2 ^ 53) with (2 * 2 ^ 52). lia.
  - apply Z.leb_gt in Ek.
    assert (0 ≤ e) as He by lia. destruct (Hpos He) as [Hlo _].
    unfold Real.scale2. rewrite (proj2 (Z.leb_le _ _)) by lia.
    change (inject_Z ?z) with (z # 1). apply Qmake_near.
    rewrite HD. rewrite Z.mul_1_r.
    replace (- (52 - e)) with (e - 52) in * by lia.
    pose proof (Z.pow_pos_nonneg 2 (e - 52) ltac:(lia) ltac:(lia)) as HP.
    pose proof (round_half_even_near n (d * 2 ^ (e - 52)) ltac:(nia)) as Hr.
    set (m := Real.round_half_even _ _) in *. clearbody m.
    replace (m * 2 ^ (e - 52) * d - n) with (m * (d * 2 ^ (e - 52)) - n) by lia.
    set (X := Z.abs (m * (d * 2 ^ (e - 52)) - n)) in *. clearbody X.
    assert (d * 2 ^ e = 2 ^ 52 * (d * 2 ^ (e - 52))) as Hsplit.
    { replace e with (52 + (e - 52)) at 1 by lia.
      rewrite Z.pow_add_r by lia. lia. }
    change (2 ^ 53) with (2 * 2 ^ 52). nia.
Qed.


Lemma toFixed1_nearest (x : Q) :
  (Real.toFixed1 x - x <= 1 # 20)%Q ∧ (x - Real.toFixed1 x < 1 # 20)%Q
  ∧ (Real.toFixed1 x * 10 == inject_Z (Qfloor (x * 10 + (1 # 2))))%Q.
Proof.
  unfold Real.toFixed1. set (y := (x * 10 + (1 # 2))%Q).
  pose proof (Qfloor_le y) as Hle. pose proof (Qlt_floor y) as Hlt.
  rewrite Qred_correct.
  assert ((Qfloor y # 10) == inject_Z (Qfloor y) * (1 # 10))%Q as ->.
  { unfold Qeq, inject_Z, Qmult. simpl. lia. }
  rewrite inject_Z_plus in Hlt. unfold y in *.
  change (inject_Z 1) with 1%Q in Hlt.
  repeat split; lra.
Qed.

(** ** Swap lifecycle *)

Lemma select_with_owner_found db swapRequestId sr sk :
  swap_requests db !! swapRequestId = Some sr →
  skills db !! SwapRequest.skillRequestedId sr = Some sk →
  Swaps.select_with_owner db swapRequestId = Some (sr, Skill.userId sk).
Proof. intros H1 H2. unfold Swaps.select_with_owner. rewrite H1; simpl; by rewrite H2. Qed.

Lemma includes_targets s :
  includes s ["accepted"; "rejected"; "completed"; "cancelled"] = true
  ↔ ∃ st, Swaps.status_of_string s = Some st ∧ st ≠ pending.
Proof.
  unfold includes, Swaps.status_of_string. rewrite bool_decide_eq_true.
  rewrite !elem_of_cons, elem_of_nil.
  repeat case_bool_decide; subst; split; naive_solver.
Qed.

Section Transition.
Variables (now user swapRequestId : Z) (db : Db).
Variables (sr : SwapRequest.t) (sk : Skill.t).
Hypothesis Hsr : swap_requests db !! swapRequestId = Some sr.
Hypothesis Hsk : skills db !! SwapRequest.skillRequestedId sr = Some sk.

(** What PUT /:id/status does on an existing request, for every target:
    only the actor and the target decide, the current status is not read. *)
Lemma updateStatus_outcome (target : string) :
  Swaps.updateStatus now user swapRequestId target db =
    match Swaps.status_of_string target with
    | None => (reply 400 (Error "Invalid status"), db)
    | Some pending => (reply 400 (Error "Invalid status"), db)
    | Some st =>
        match Swaps.check_authorization user target
                (SwapRequest.requesterId sr) (Skill.userId sk) with
        | Some r => (r, db)
        | None =>
            (reply 200 (Message ("Swap request " ++ target ++ " successfully")),
             set_swap_requests (<[swapRequestId := Swaps.write_status now st sr]>) db)
        end
    end.
Proof.
  unfold Swaps.updateStatus.
  destruct (includes target _) eqn:Hinc; simpl.
  - apply includes_targets in Hinc as (st & Hst & Hne).
    rewrite Hst, (select_with_owner_found _ _ _ _ Hsr Hsk).
    unfold set_swap_requests. rewrite (alter_present _ _ _ _ Hsr).
    destruct st; try done.
  - destruct (Swaps.status_of_string target) as [st|] eqn:Hst; [|done].
    destruct (decide (st = pending)) as [->|Hne]; [done|].
    assert (includes target ["accepted"; "rejected"; "completed"; "cancelled"] = true)
      as Hc by (apply includes_targets; eauto).
    congruence.
Qed.

Lemma check_authorization_spec (target : string) (st : Status) :
  Swaps.status_of_string target = Some st → st ≠ pending →
  match Swaps.check_authorization user target
          (SwapRequest.requesterId sr) (Skill.userId sk) with
  | None => may_transition user (SwapRequest.requesterId sr) (Skill.userId sk) st = true
  | Some r => may_transition user (SwapRequest.requesterId sr) (Skill.userId sk) st = false
              ∧ status r ≠ 200
  end.
Proof.
  unfold Swaps.status_of_string, Swaps.check_authorization, includes, may_transition.
  intros Hst Hne.
  repeat (case_bool_decide; simplify_eq/=; try done);
    repeat match goal with
           | H : _ ∈ _ |- _ => rewrite ?elem_of_cons, ?elem_of_nil in H
           | H : ¬ _ ∈ _ |- _ => rewrite ?elem_of_cons, ?elem_of_nil in H
           end; try tauto; try (split; [done|lia]); try (exfalso; intuition congruence).
Qed.
End Transition.

Lemma check_authorization_replies user target requesterId skillOwnerId r :
  Swaps.check_authorization user target requesterId skillOwnerId = Some r →
  NotAuthorized r ∨ WrongAction r "rejected".
Proof.
  unfold Swaps.check_authorization, NotAuthorized, WrongAction.
  repeat (case_bool_decide || case_match); intros [= <-]; simpl; eauto.
Qed.

(** C1, as the specification states it, fails: the requester completes a
    request that is still pending, and the provider accepts a request that was
    already rejected; both calls succeed and change the status along an arrow
    that is not an edge. *)
Lemma C1_transition_off_edge :
  edge pending completed = false ∧ edge rejected accepted = false ∧
  Swaps.updateStatus 50 1 1 "completed" (Fixture.db pending)
    = (reply 200 (Message "Swap request completed successfully"),
       set_swap_requests
         (<[1 := Swaps.write_status 50 completed (Fixture.request pending)]>)
         (Fixture.db pending)) ∧
  swap_status (Swaps.updateStatus 50 1 1 "completed" (Fixture.db pending)).2 1
    = Some completed ∧
  status (Swaps.updateStatus 50 2 1 "accepted" (Fixture.db rejected)).1 = 200 ∧
  swap_status (Swaps.updateStatus 50 2 1 "accepted" (Fixture.db rejected)).2 1
    = Some accepted.
Proof. repeat split; vm_compute; reflexivity. Qed.

(** C1 (amended): on an existing swap request PUT /:id/status reads only the
    acting user and the target.  It succeeds exactly when the target is one of
    accepted, rejected, cancelled, completed and the actor passes the rule for
    that target ([may_transition]), whatever the current status; it then
    stores the target (with updatedAt, and completedAt for completed).  Every
    other call leaves the database unchanged and is answered with "Invalid
    status", NotAuthorized or WrongAction; the handler has no
    InvalidStateTransition reply. *)
Theorem C1_transition_reads_actor_and_target
    (now user swapRequestId : Z) (target : string) (db db' : Db)
    (sr : SwapRequest.t) (sk : Skill.t) (r : Response) :
  swap_requests db !! swapRequestId = Some sr →
  skills db !! SwapRequest.skillRequestedId sr = Some sk →
  Swaps.updateStatus now user swapRequestId target db = (r, db') →
  (status r = 200 ↔
     ∃ st, Swaps.status_of_string target = Some st ∧
           may_transition user (SwapRequest.requesterId sr) (Skill.userId sk) st = true)
  ∧ (status r = 200 → ∀ st, Swaps.status_of_string target = Some st →
       db' = set_swap_requests
               (<[swapRequestId := Swaps.write_status now st sr]>) db
       ∧ swap_status db' swapRequestId = Some st)
  ∧ (status r ≠ 200 →
       db' = db ∧ ¬ InvalidStateTransition r ∧
       (r = reply 400 (Error "Invalid status") ∨ NotAuthorized r
        ∨ WrongAction r "rejected")).
Proof.
  intros Hsr Hsk. rewrite (updateStatus_outcome _ _ _ _ _ _ Hsr Hsk).
  destruct (Swaps.status_of_string target) as [st|] eqn:Hst.
  2:{ intros [= <- <-]. simpl. split; [|split].
      - split; [done|]. by intros (st & ? & _).
      - done.
      - intros _. split; [done|]. split; [|by left]. by intros [=]. }
  destruct (decide (st = pending)) as [->|Hne].
  { intros [= <- <-]. simpl. split; [|split].
    - split; [done|]. intros (st & [= <-] & Hm). done.
    - done.
    - intros _. split; [done|]. split; [|by left]. by intros [=]. }
  pose proof (check_authorization_spec user sr sk target st Hst Hne) as Hauth.
  destruct (Swaps.check_authorization _ _ _ _) as [r0|] eqn:Hchk.
  - destruct Hauth as [Hfalse H200].
    assert ((r0, db) = (r, db') → r0 = r ∧ db = db') as Hinj by (by intros [= -> ->]).
    destruct st; try done; intros [<- <-]%Hinj.
    all: split; [|split].
    all: try (split; [done|]; intros (st' & [= <-] & Hm); congruence).
    all: try done.
    all: intros _; split; [done|].
    all: apply check_authorization_replies in Hchk as Hr.
    all: split; [|tauto].
    all: unfold InvalidStateTransition; intros ->.
    all: destruct Hr as [Hr|(_ & e & s & Hr)]; by simplify_eq/=.
  - assert (∀ x : Response * Db, x = (r, db') → x.1 = r ∧ x.2 = db') as Hinj
      by (by intros ? ->).
    destruct st; try done; intros [<- <-]%Hinj; simpl.
    all: split; [|split]; try done.
    all: try (split; [intros _; eauto|done]).
    all: intros _ st' [= <-]; split; [done|].
    all: unfold swap_status, set_swap_requests; simpl.
    all: by rewrite lookup_insert_eq.
Qed.

Lemma C1_transition_reads_actor_and_target_witness :
  swap_requests (Fixture.db pending) !! 1 = Some (Fixture.request pending) ∧
  skills (Fixture.db pending) !! 11 = Some (Fixture.skill 2) ∧
  (status (reply 200 (Message "Swap request completed successfully")) = 200 ↔
     ∃ st, Swaps.status_of_string "completed" = Some st ∧
           may_transition 1 1 2 st = true).
Proof.
  split; [reflexivity|]. split; [reflexivity|].
  refine (proj1 (C1_transition_reads_actor_and_target
    50 1 1 "completed" (Fixture.db pending) _
    (Fixture.request pending) (Fixture.skill 2) _ _ _ _)); reflexivity.
Defined.

(** C3, as the specification states it, fails: the requester cancels a
    request that was already accepted (and one that was already completed);
    the call succeeds and the status becomes cancelled. *)
Lemma C3_cancel_after_accept :
  swap_status (Fixture.db accepted) 1 = Some accepted ∧
  status (Swaps.updateStatus 50 1 1 "cancelled" (Fixture.db accepted)).1 = 200 ∧
  swap_status (Swaps.updateStatus 50 1 1 "cancelled" (Fixture.db accepted)).2 1
    = Some cancelled ∧
  status (Swaps.updateStatus 50 1 1 "cancelled" (Fixture.db completed)).1 = 200 ∧
  swap_status (Swaps.updateStatus 50 1 1 "cancelled" (Fixture.db completed)).2 1
    = Some cancelled.
Proof. repeat split; vm_compute; reflexivity. Qed.

(** C3 (amended): a transition to cancelled succeeds exactly when the acting
    user is the requester of the swap request, whatever its current status,
    and then stores cancelled; the provider, when not the requester, is
    answered WrongAction with "rejected" as the allowed action, and every
    other user NotAuthorized, the request staying as it was. *)
Theorem C3_cancel_by_requester_only
    (now user swapRequestId : Z) (db db' : Db)
    (sr : SwapRequest.t) (sk : Skill.t) (r : Response) :
  swap_requests db !! swapRequestId = Some sr →
  skills db !! SwapRequest.skillRequestedId sr = Some sk →
  Swaps.updateStatus now user swapRequestId "cancelled" db = (r, db') →
  (status r = 200 ↔ user = SwapRequest.requesterId sr)
  ∧ (user = SwapRequest.requesterId sr →
       swap_status db' swapRequestId = Some cancelled)
  ∧ (user ≠ SwapRequest.requesterId sr → user = Skill.userId sk →
       WrongAction r "rejected" ∧ db' = db)
  ∧ (user ≠ SwapRequest.requesterId sr → user ≠ Skill.userId sk →
       NotAuthorized r ∧ db' = db).
Proof.
  intros Hsr Hsk. rewrite (updateStatus_outcome _ _ _ _ _ _ Hsr Hsk).
  change (Swaps.status_of_string "cancelled") with (Some cancelled).
  unfold Swaps.check_authorization. simpl.
  repeat case_bool_decide; intros [= <- <-]; simpl;
    unfold WrongAction, NotAuthorized, swap_status, set_swap_requests; simpl;
    rewrite ?lookup_insert_eq; repeat split; try done; try congruence; eauto.
Qed.

Lemma C3_cancel_by_requester_only_witness :
  swap_requests (Fixture.db pending) !! 1 = Some (Fixture.request pending) ∧
  skills (Fixture.db pending) !! 11 = Some (Fixture.skill 2) ∧
  (2 ≠ 1 → 2 = 2 →
     WrongAction (Swaps.updateStatus 50 2 1 "cancelled" (Fixture.db pending)).1
       "rejected"
     ∧ (Swaps.updateStatus 50 2 1 "cancelled" (Fixture.db pending)).2
       = Fixture.db pending).
Proof.
  split; [reflexivity|]. split; [reflexivity|].
  refine (proj1 (proj2 (proj2 (C3_cancel_by_requester_only
    50 2 1 (Fixture.db pending) _
    (Fixture.request pending) (Fixture.skill 2) _ _ _ _)))); reflexivity.
Defined.

(** C4: on every swap request a transition to accepted or rejected succeeds
    only when the acting user is the provider, the owner of the wanted skill;
    any other user, and the requester in particular, is answered
    NotAuthorized and the database is unchanged.  (A provider who is not the
    requester does succeed, and the target is stored.) *)
Theorem C4_accept_reject_by_provider_only
    (now user swapRequestId : Z) (target : string) (db db' : Db)
    (sr : SwapRequest.t) (sk : Skill.t) (r : Response) :
  swap_requests db !! swapRequestId = Some sr →
  skills db !! SwapRequest.skillRequestedId sr = Some sk →
  target = "accepted" ∨ target = "rejected" →
  Swaps.updateStatus now user swapRequestId target db = (r, db') →
  (status r = 200 → user = Skill.userId sk)
  ∧ (user ≠ Skill.userId sk → NotAuthorized r ∧ db' = db)
  ∧ (user = SwapRequest.requesterId sr → NotAuthorized r ∧ db' = db)
  ∧ (user = Skill.userId sk → user ≠ SwapRequest.requesterId sr →
       status r = 200 ∧
       swap_status db' swapRequestId = Swaps.status_of_string target).
Proof.
  intros Hsr Hsk Ht. rewrite (updateStatus_outcome _ _ _ _ _ _ Hsr Hsk).
  destruct Ht as [-> | ->].
  - change (Swaps.status_of_string "accepted") with (Some accepted).
    unfold Swaps.check_authorization. simpl.
    repeat case_bool_decide; intros [= <- <-]; simpl;
      unfold NotAuthorized, swap_status, set_swap_requests; simpl;
      rewrite ?lookup_insert_eq; repeat split; try done; try congruence.
  - change (Swaps.status_of_string "rejected") with (Some rejected).
    unfold Swaps.check_authorization. simpl.
    repeat case_bool_decide; intros [= <- <-]; simpl;
      unfold NotAuthorized, swap_status, set_swap_requests; simpl;
      rewrite ?lookup_insert_eq; repeat split; try done; try congruence.
Qed.

Lemma C4_accept_reject_by_provider_only_witness :
  swap_requests (Fixture.db pending) !! 1 = Some (Fixture.request pending) ∧
  skills (Fixture.db pending) !! 11 = Some (Fixture.skill 2) ∧
  ("rejected" = "accepted" ∨ "rejected" = "rejected") ∧
  (1 = 1 →
     NotAuthorized (Swaps.updateStatus 50 1 1 "rejected" (Fixture.db pending)).1
     ∧ (Swaps.updateStatus 50 1 1 "rejected" (Fixture.db pending)).2
       = Fixture.db pending).
Proof.
  split; [reflexivity|]. split; [reflexivity|]. split; [by right|].
  refine (proj1 (proj2 (proj2 (C4_accept_reject_by_provider_only
    50 1 1 "rejected" (Fixture.db pending) _
    (Fixture.request pending) (Fixture.skill 2) _ _ _ _ _)))).
  - reflexivity.
  - reflexivity.
  - by right.
  - reflexivity.
Defined.

(** C5: DELETE /:id removes the swap request only when its status is pending
    and the acting user is its requester or its provider; a user who is
    neither is answered NotAuthorized, and a participant deleting a request
    that is not pending is answered InvalidStateTransition; in both cases
    nothing is deleted. *)
Theorem C5_delete_pending_by_participant
    (user swapRequestId : Z) (db db' : Db)
    (sr : SwapRequest.t) (sk : Skill.t) (r : Response) :
  swap_requests db !! swapRequestId = Some sr →
  skills db !! SwapRequest.skillRequestedId sr = Some sk →
  Swaps.delete user swapRequestId db = (r, db') →
  (status r = 200 ↔
     SwapRequest.status sr = pending
     ∧ (user = SwapRequest.requesterId sr ∨ user = Skill.userId sk))
  ∧ (status r = 200 →
       db' = set_swap_requests (base.delete swapRequestId) db
       ∧ swap_requests db' !! swapRequestId = None)
  ∧ (status r ≠ 200 → db' = db)
  ∧ (user ≠ SwapRequest.requesterId sr → user ≠ Skill.userId sk →
       NotAuthorized r)
  ∧ (user = SwapRequest.requesterId sr ∨ user = Skill.userId sk →
       SwapRequest.status sr ≠ pending → InvalidStateTransition r).
Proof.
  intros Hsr Hsk. unfold Swaps.delete. rewrite Hsr, Hsk.
  unfold NotAuthorized, InvalidStateTransition.
  repeat case_bool_decide; simpl; intros [= <- <-]; simpl;
    rewrite ?lookup_delete_eq; repeat split; try done; try tauto;
    try (intros [? [?|?]]; congruence); try (intros [?|?]; congruence);
    try (left; congruence); try (right; congruence).
Qed.

Lemma C5_delete_pending_by_participant_witness :
  swap_requests (Fixture.db accepted) !! 1 = Some (Fixture.request accepted) ∧
  skills (Fixture.db accepted) !! 11 = Some (Fixture.skill 2) ∧
  (1 = 1 ∨ 1 = 2 → accepted ≠ pending →
     InvalidStateTransition (Swaps.delete 1 1 (Fixture.db accepted)).1).
Proof.
  split; [reflexivity|]. split; [reflexivity|].
  refine (proj2 (proj2 (proj2 (proj2 (C5_delete_pending_by_participant
    1 1 (Fixture.db accepted) _
    (Fixture.request accepted) (Fixture.skill 2) _ _ _ _))))); reflexivity.
Defined.







(** ** Ratings *)

(** What POST /swap/:swapId does once its guards are known. *)
Lemma submit_outcome now user swapId rating feedback db :
  Ratings.submit now user swapId rating feedback db =
    if negb (Ratings.ratingSchema rating)
    then (reply 400 (Error "Validation failed"), db)
    else match swap_requests db !! swapId with
    | None => (reply 404 (Error "Completed swap request not found"), db)
    | Some sr =>
      if bool_decide (SwapRequest.status sr = completed) then
        match skills db !! SwapRequest.skillRequestedId sr with
        | None => (reply 404 (Error "Requested skill not found"), db)
        | Some sk =>
          if bool_decide (user = SwapRequest.requesterId sr ∨ user = Skill.userId sk)
          then (reply 500 (Error "Internal server error"), db)
          else (reply 403 (Error "You are not part of this swap"), db)
        end
      else (reply 404 (Error "Completed swap request not found"), db)
    end.
Proof.
  unfold Ratings.submit.
  destruct (negb _); [done|]. destruct (swap_requests db !! swapId) as [sr|]; [|done].
  repeat (case_bool_decide; simpl; try done); destruct (skills db !! _); try done.
  all: repeat (case_bool_decide; simpl; try done); try tauto.
  all: exfalso; intuition congruence.
Qed.





(** C7 (what the code does): no rating is ever recorded.  The statement
    that looks for the rater's earlier rating of the swap names
    ratings.swapId, a column no CREATE TABLE declares, and the older handler
    of the route reads a table swaps that does not exist.  So both handlers
    leave the database as it is on every request and never answer 201; a
    valid rating of a completed swap by its requester or provider is
    answered 500, and by anyone else 403 (the older handler: 500). *)
Theorem C7_rating_is_never_recorded
    (now user swapId rating : Z) (feedback : option string) (db : Db) :
  Schema.prepares "ratings" ["id"; "userId"; "swapId"; "raterId"] = false
  ∧ Schema.columns "swaps" = None
  ∧ (Ratings.submit now user swapId rating feedback db).2 = db
  ∧ (LegacyRatings.submit now user swapId rating feedback db).2 = db
  ∧ status (Ratings.submit now user swapId rating feedback db).1 ≠ 201
  ∧ status (LegacyRatings.submit now user swapId rating feedback db).1 ≠ 201
  ∧ (∀ sr sk, Ratings.ratingSchema rating = true →
       swap_requests db !! swapId = Some sr →
       SwapRequest.status sr = completed →
       skills db !! SwapRequest.skillRequestedId sr = Some sk →
       (user = SwapRequest.requesterId sr ∨ user = Skill.userId sk →
          Ratings.submit now user swapId rating feedback db
            = (reply 500 (Error "Internal server error"), db)
          ∧ LegacyRatings.submit now user swapId rating feedback db
            = (reply 500 (Error "Internal server error"), db))
       ∧ (user ≠ SwapRequest.requesterId sr → user ≠ Skill.userId sk →
            NotAuthorized (Ratings.submit now user swapId rating feedback db).1)).
Proof.
  assert (∀ x, (Ratings.submit now user swapId rating feedback db).2 = db
               ∧ (status (Ratings.submit now user swapId rating feedback db).1 = x
                  → x ≠ 201)) as Hsub.
  { intros x. rewrite submit_outcome.
    repeat case_match; simpl; (split; [done|]); by intros <-. }
  assert (∀ x, (LegacyRatings.submit now user swapId rating feedback db).2 = db
               ∧ (status (LegacyRatings.submit now user swapId rating feedback db).1
                  = x → x ≠ 201)) as Hleg.
  { intros x. unfold LegacyRatings.submit.
    destruct (negb _); simpl; (split; [done|]); by intros <-. }
  split; [by vm_compute|]. split; [by vm_compute|].
  split; [apply (Hsub 0)|]. split; [apply (Hleg 0)|].
  split; [by apply (Hsub _)|]. split; [by apply (Hleg _)|].
  intros sr sk Hv Hsr Hst Hsk. split.
  - intros Hpart. rewrite submit_outcome, Hv, Hsr, Hsk. simpl.
    rewrite !bool_decide_eq_true_2 by done.
    unfold LegacyRatings.submit. by rewrite Hv.
  - intros Hn1 Hn2. rewrite submit_outcome, Hv, Hsr, Hsk. simpl.
    rewrite bool_decide_eq_true_2 by done.
    rewrite bool_decide_eq_false_2 by tauto. done.
Qed.

Lemma C7_rating_is_never_recorded_witness :
  Ratings.ratingSchema 4 = true
  ∧ swap_requests (Fixture.db completed) !! 1 = Some (Fixture.request completed)
  ∧ Ratings.submit 40 1 1 4 None (Fixture.db completed)
    = (reply 500 (Error "Internal server error"), Fixture.db completed)
  ∧ LegacyRatings.submit 40 1 1 4 None (Fixture.db completed)
    = (reply 500 (Error "Internal server error"), Fixture.db completed).
Proof.
  split; [reflexivity|]. split; [reflexivity|].
  refine (proj1 (proj2 (proj2 (proj2 (proj2 (proj2 (proj2
    (C7_rating_is_never_recorded 40 1 1 4 None (Fixture.db completed)))))))
    (Fixture.request completed) (Fixture.skill 2) _ _ _ _) _);
    [reflexivity..|by left].
Defined.

(** ** Skill registry *)

Lemma owned_by_None db skillId user :
  (∀ sk, skills db !! skillId = Some sk → Skill.userId sk ≠ user) →
  Skills.owned_by db skillId user = None.
Proof.
  intros H. unfold Skills.owned_by. destruct (skills db !! skillId) as [s|]; [|done].
  rewrite bool_decide_eq_false_2; [done|]. by apply H.
Qed.

Lemma owned_by_Some db skillId user s :
  Skills.owned_by db skillId user = Some s →
  skills db !! skillId = Some s ∧ Skill.userId s = user.
Proof.
  unfold Skills.owned_by. destruct (skills db !! skillId) as [s'|]; [|done].
  case_bool_decide; [|done]. by intros [= <-].
Qed.

(** C8, as stated, fails for PUT: validateBody(skillSchema) runs before the
    handler looks for the skill, so user 2 updating skill 10 of user 1 with
    the one-letter name "F" is answered 400, not NotFound. *)
Lemma C8_invalid_body_before_ownership :
  skills (Fixture.db pending) !! 10 = Some (Fixture.skill 1)
  ∧ Skill.userId (Fixture.skill 1) ≠ 2
  ∧ Skills.update 50 2 10 "F" "offered" None None (Fixture.db pending)
    = (reply 400 (Error "Validation failed"), Fixture.db pending)
  ∧ ¬ NotFound (Skills.update 50 2 10 "F" "offered" None None
                  (Fixture.db pending)).1.
Proof.
  split; [reflexivity|]. split; [vm_compute; lia|]. split; [reflexivity|].
  unfold NotFound. vm_compute. discriminate.
Qed.

(** C8 (amended): PUT /:id and DELETE /:id of the skill registry change a
    skill only when it belongs to the acting user.  On a skill of another
    user both leave the database as it is and give the very reply they give
    when no skill has that id: NotFound ("Skill not found") for DELETE and
    for every PUT whose body passes skillSchema, a validation error (400)
    for a PUT whose body does not, and never Forbidden. *)
Theorem C8_skill_of_another_user_not_found
    (now user skillId : Z) (name type : string)
    (description proficiency_level : option string) (db : Db) :
  (∀ j, skills (Skills.update now user skillId name type description
                  proficiency_level db).2 !! j ≠ skills db !! j →
     j = skillId ∧ ∃ sk, skills db !! skillId = Some sk ∧ Skill.userId sk = user)
  ∧ (∀ j, skills (Skills.delete user skillId db).2 !! j ≠ skills db !! j →
     j = skillId ∧ ∃ sk, skills db !! skillId = Some sk ∧ Skill.userId sk = user)
  ∧ (∀ sk, skills db !! skillId = Some sk → Skill.userId sk ≠ user →
       let absent := set_skills (base.delete skillId) db in
       Skills.delete user skillId db = (reply 404 (Error "Skill not found"), db)
       ∧ NotFound (Skills.delete user skillId db).1
       ∧ (Skills.delete user skillId absent).1 = reply 404 (Error "Skill not found")
       ∧ (Skills.update now user skillId name type description
            proficiency_level db).2 = db
       ∧ (Skills.update now user skillId name type description
            proficiency_level db).1
         = (Skills.update now user skillId name type description
              proficiency_level absent).1
       ∧ ¬ NotAuthorized (Skills.update now user skillId name type description
                            proficiency_level db).1
       ∧ (is_Some (Skills.skillSchema name type proficiency_level) →
            (Skills.update now user skillId name type description
               proficiency_level db).1 = reply 404 (Error "Skill not found")))
  ∧ (Skills.skillSchema name type proficiency_level = None →
       Skills.update now user skillId name type description proficiency_level db
       = (reply 400 (Error "Validation failed"), db)).
Proof.
  split; [|split; [|split]]; [| | |by unfold Skills.update; intros ->].
  - intros j. unfold Skills.update.
    destruct (Skills.skillSchema _ _ _) as [prof|]; [|done].
    destruct (Skills.owned_by db skillId user) as [own|] eqn:E; [|done].
    apply owned_by_Some in E as [Hs Hu]. simpl.
    destruct (decide (skillId = j)) as [<-|Hne]; [eauto|].
    by rewrite lookup_alter_ne.
  - intros j. unfold Skills.delete.
    destruct (Skills.owned_by db skillId user) as [own|] eqn:E; [|done].
    apply owned_by_Some in E as [Hs Hu]. simpl.
    unfold Skills.delete_row. rewrite Hs, bool_decide_eq_true_2 by done. simpl.
    destruct (decide (skillId = j)) as [<-|Hne]; [eauto|].
    by rewrite lookup_delete_ne.
  - intros sk Hsk Hne absent.
    assert (Skills.owned_by db skillId user = None) as Hno.
    { apply owned_by_None. intros sk' Hsk'. congruence. }
    assert (Skills.owned_by absent skillId user = None) as Hno'.
    { apply owned_by_None. intros sk'. unfold absent. simpl.
      by rewrite lookup_delete_eq. }
    unfold Skills.delete, Skills.update, NotAuthorized, NotFound. rewrite Hno, Hno'.
    destruct (Skills.skillSchema _ _ _); simpl; repeat split; try done;
      by intros [? [=]].
Qed.

Lemma C8_skill_of_another_user_not_found_witness :
  skills (Fixture.db pending) !! 11 = Some (Fixture.skill 2) ∧ 2 ≠ 1 ∧
  Skills.delete 1 11 (Fixture.db pending)
    = (reply 404 (Error "Skill not found"), Fixture.db pending).
Proof.
  split; [reflexivity|]. split; [lia|].
  refine (proj1 (proj1 (proj2 (proj2 (C8_skill_of_another_user_not_found
    50 1 11 "Figma" "offered" None None (Fixture.db pending))))
    (Fixture.skill 2) _ _)); [reflexivity|vm_compute; lia].
Defined.

(** ** Admin console *)

(** C10 (what the code does): the ban endpoint changes no row, of an
    administrator or of anyone else, and never answers with its success
    message.  Its UPDATE names users.isBanned, a column no CREATE TABLE
    declares, so for a caller who is an administrator the statement is
    rejected and the answer is 500; any other caller is turned away by
    requireAdmin with 403. *)
Theorem C10_ban_is_never_written
    (now userId : Z) (is_admin isBanned : bool) (db : Db) :
  Schema.prepares "users" ["isBanned"; "updatedAt"; "id"; "isAdmin"] = false
  ∧ Schema.prepares "users" ["updatedAt"; "id"; "isAdmin"] = true
  ∧ (Admin.banUser now is_admin userId isBanned db).2 = db
  ∧ (is_admin = true →
       (Admin.banUser now is_admin userId isBanned db).1
       = reply 500 (Error "Internal server error"))
  ∧ (is_admin = false →
       (Admin.banUser now is_admin userId isBanned db).1
       = reply 403 (Error "Admin access required"))
  ∧ (Admin.banUser now is_admin userId isBanned db).1
    ≠ reply 200 (Message ("User " ++ (if isBanned then "banned" else "unbanned")
                          ++ " successfully")).
Proof.
  split; [by vm_compute|]. split; [by vm_compute|].
  unfold Admin.banUser, Admin.requireAdmin. by destruct is_admin.
Qed.

Lemma C10_ban_is_never_written_witness :
  (User.isAdmin <$> users AdminFixture.db !! 3) = Some true
  ∧ Admin.banUser 50 true 3 true AdminFixture.db
    = (reply 500 (Error "Internal server error"), AdminFixture.db).
Proof.
  split; [reflexivity|].
  pose proof (C10_ban_is_never_written 50 3 true true AdminFixture.db)
    as (_ & _ & Hdb & Hr & _).
  specialize (Hr eq_refl).
  destruct (Admin.banUser 50 true 3 true AdminFixture.db) as [r db'].
  simpl in Hdb, Hr. by rewrite Hdb, Hr.
Defined.

(** ** Notification relay *)

Lemma send_same_control n s : same_control s (Relay.send n s).
Proof.
  unfold same_control, Relay.send.
  destruct (Relay.readyState s) eqn:E; simpl; rewrite ?E; done.
Qed.

Lemma same_control_refl s : same_control s s.
Proof. by unfold same_control. Qed.

Lemma same_control_trans s1 s2 s3 :
  same_control s1 s2 → same_control s2 s3 → same_control s1 s3.
Proof. unfold same_control. intros (?&?&?&?) (?&?&?&?). repeat split; congruence. Qed.

(** The fan-out of broadcastToAll touches only the frames sent. *)
Lemma fan_out_same_control n (cl : gmap string nat) (socks : gmap nat Relay.Socket) ws :
  match socks !! ws with
  | Some s =>
      ∃ s', map_fold (λ _ client acc, alter (Relay.send n) client acc) socks cl !! ws
              = Some s' ∧ same_control s s'
  | None =>
      map_fold (λ _ client acc, alter (Relay.send n) client acc) socks cl !! ws = None
  end.
Proof.
  apply (map_fold_weak_ind (λ r _,
    match socks !! ws with
    | Some s => ∃ s', r !! ws = Some s' ∧ same_control s s'
    | None => r !! ws = None
    end)).
  - destruct (socks !! ws) as [s|]; [|done]. eexists. split; [done|].
    apply same_control_refl.
  - intros u client m r _ IH. destruct (socks !! ws) as [s|].
    + destruct IH as (s' & Hs' & Hc). destruct (decide (client = ws)) as [->|Hne].
      * rewrite lookup_alter_eq, Hs'. simpl. eexists. split; [done|].
        eapply same_control_trans; [exact Hc|apply send_same_control].
      * rewrite lookup_alter_ne by done. eauto.
    + destruct (decide (client = ws)) as [->|Hne].
      * by rewrite lookup_alter_eq, IH.
      * by rewrite lookup_alter_ne.
Qed.

(** How one reaction changes a socket the server already knows. *)
Lemma step_socket_shape e st ws s :
  Relay.sockets st !! ws = Some s →
  ∃ s', Relay.sockets (Relay.step e st) !! ws = Some s'
    ∧ (same_control s s'
       ∨ s' = Relay.close 1000 s
       ∨ (e = Relay.Interval ws ∧ Relay.pingInterval s = true
          ∧ s' = Relay.heartbeat s)
       ∨ (e = Relay.Pong ws ∧ s' = Relay.set_isAlive true s)
       ∨ ((e = Relay.Close ws ∨ e = Relay.SocketError ws)
          ∧ Relay.userId s' = Relay.userId s
          ∧ Relay.isAlive s' = Relay.isAlive s
          ∧ (Relay.readyState s' = Relay.OPEN → Relay.readyState s = Relay.OPEN)
          ∧ (Relay.pingInterval s' = true → Relay.pingInterval s = true))).
Proof.
  intros Hs. destruct e as [w url|w|w|w|w|w|u n|n]; simpl.
  - (* Connection *)
    destruct (Relay.sockets st !! w) as [s0|] eqn:Hw.
    { exists s. split; [done|]. left. apply same_control_refl. }
    assert (w ≠ ws) as Hne by congruence.
    unfold Relay.connection.
    destruct url as [[u|]|]; simpl;
      try (rewrite lookup_insert_ne by done; exists s; split; [done|];
           left; apply same_control_refl).
    destruct u as [|c u']; simpl.
    { rewrite lookup_insert_ne by done. exists s. split; [done|].
      left. apply same_control_refl. }
    rewrite lookup_insert_ne by done.
    destruct (Relay.clients st !! String c u') as [old|].
    + destruct (decide (old = ws)) as [->|Hne'].
      * rewrite lookup_alter_eq, Hs. simpl. eauto.
      * rewrite lookup_alter_ne by done. exists s. split; [done|].
        left. apply same_control_refl.
    + exists s. split; [done|]. left. apply same_control_refl.
  - (* Interval *)
    destruct (decide (w = ws)) as [->|Hne].
    + rewrite Hs. destruct (Relay.pingInterval s) eqn:Hp; simpl.
      * rewrite lookup_insert_eq. eexists. split; [done|]. right. right. left. done.
      * exists s. split; [done|]. left. apply same_control_refl.
    + destruct (Relay.sockets st !! w) as [s0|]; [destruct (Relay.pingInterval s0)|];
        simpl; rewrite ?lookup_insert_ne by done; exists s; (split; [done|]);
        left; apply same_control_refl.
  - (* Pong *)
    destruct (decide (w = ws)) as [->|Hne].
    + rewrite lookup_alter_eq, Hs. simpl. eexists. split; [done|]. eauto 10.
    + rewrite lookup_alter_ne by done. exists s. split; [done|].
      left. apply same_control_refl.
  - (* Close *)
    destruct (decide (w = ws)) as [->|Hne].
    + rewrite Hs. destruct (Relay.userId s) as [u|] eqn:Hu; simpl.
      * rewrite lookup_alter_eq, lookup_insert_eq. simpl. eexists. split; [done|].
        do 4 right. simpl. repeat split; eauto; done.
      * rewrite lookup_insert_eq. eexists. split; [done|].
        do 4 right. simpl. repeat split; eauto; done.
    + destruct (Relay.sockets st !! w) as [s0|]; [destruct (Relay.userId s0)|];
        simpl; rewrite ?lookup_alter_ne by done;
        rewrite ?lookup_insert_ne by done; exists s; (split; [done|]);
        left; apply same_control_refl.
  - (* SocketError *)
    destruct (decide (w = ws)) as [->|Hne].
    + rewrite Hs. destruct (Relay.userId s) as [u|] eqn:Hu; simpl.
      * rewrite lookup_alter_eq, Hs. simpl. eexists. split; [done|].
        do 4 right. simpl. repeat split; eauto; done.
      * exists s. split; [done|]. left. apply same_control_refl.
    + destruct (Relay.sockets st !! w) as [s0|]; [destruct (Relay.userId s0)|];
        simpl; rewrite ?lookup_alter_ne by done; exists s; (split; [done|]);
        left; apply same_control_refl.
  - (* PingMessage *)
    destruct (decide (w = ws)) as [->|Hne].
    + rewrite Hs. destruct (Relay.userId s); simpl.
      * rewrite lookup_insert_eq. eexists. split; [done|]. left.
        apply send_same_control.
      * exists s. split; [done|]. left. apply same_control_refl.
    + destruct (Relay.sockets st !! w) as [s0|]; [destruct (Relay.userId s0)|];
        simpl; rewrite ?lookup_insert_ne by done; exists s; (split; [done|]);
        left; apply same_control_refl.
  - (* BroadcastNotification *)
    unfold Relay.broadcastNotification.
    destruct (Relay.clients st !! u) as [client|];
      [|exists s; split; [done|]; left; apply same_control_refl].
    destruct (Relay.sockets st !! client) as [s0|] eqn:Hc;
      [|exists s; split; [done|]; left; apply same_control_refl].
    case_bool_decide; [|exists s; split; [done|]; left; apply same_control_refl].
    simpl. destruct (decide (client = ws)) as [->|Hne].
    + rewrite lookup_insert_eq. eexists. split; [done|]. left.
      assert (s0 = s) as -> by congruence. apply send_same_control.
    + rewrite lookup_insert_ne by done. exists s. split; [done|].
      left. apply same_control_refl.
  - (* BroadcastToAll *)
    unfold Relay.broadcastToAll. simpl.
    pose proof (fan_out_same_control n (Relay.clients st) (Relay.sockets st) ws) as H.
    rewrite Hs in H. destruct H as (s' & Hs' & Hc). eauto.
Qed.


Lemma heartbeat_control s :
  Relay.userId (Relay.heartbeat s) = Relay.userId s
  ∧ Relay.pingInterval (Relay.heartbeat s) = Relay.pingInterval s
  ∧ (Relay.readyState (Relay.heartbeat s) = Relay.OPEN →
     Relay.readyState s = Relay.OPEN)
  ∧ (Relay.readyState s ≠ Relay.CLOSED →
     Relay.readyState (Relay.heartbeat s) ≠ Relay.CLOSED)
  ∧ (Relay.isAlive s = false → Relay.readyState (Relay.heartbeat s) ≠ Relay.OPEN)
  ∧ (Relay.isAlive (Relay.heartbeat s) = false
     ∨ Relay.readyState (Relay.heartbeat s) ≠ Relay.OPEN).
Proof.
  destruct s as [r a p u c f]. destruct a, r; simpl; repeat split;
    try done; try (by left); try (by right).
Qed.

(** A socket left as it is meets the conditions of [consistent_sockets]. *)
Lemma unchanged_socket_ok st w :
  registry_consistent st →
  match Relay.sockets st !! w, Relay.sockets st !! w with
  | Some s, Some s' =>
      Relay.userId s' = Relay.userId s
      ∧ (Relay.readyState s' = Relay.OPEN → Relay.pingInterval s' = true →
         Relay.readyState s = Relay.OPEN ∧ Relay.pingInterval s = true)
      ∧ ((∃ u, Relay.clients st !! u = Some w) →
         Relay.pingInterval s' = true ∧ Relay.readyState s' ≠ Relay.CLOSED)
  | None, None => True
  | None, Some s' => Relay.userId s' = None
  | Some _, None => False
  end.
Proof.
  intros [HA _]. destruct (Relay.sockets st !! w) as [s|] eqn:Hs; [|done].
  split; [done|]. split; [done|].
  intros [u Hentry]. destruct (HA _ _ Hentry) as (s1 & Hs1 & _ & Hp & Hr).
  assert (s1 = s) as -> by congruence. done.
Qed.

(** Changing sockets without touching the registry keeps it consistent when
    no socket changes user or starts serving, and registry entries stay
    attached. *)
Lemma consistent_sockets st socks' :
  registry_consistent st →
  (∀ ws, match Relay.sockets st !! ws, socks' !! ws with
         | Some s, Some s' =>
             Relay.userId s' = Relay.userId s
             ∧ (Relay.readyState s' = Relay.OPEN → Relay.pingInterval s' = true →
                Relay.readyState s = Relay.OPEN ∧ Relay.pingInterval s = true)
             ∧ ((∃ u, Relay.clients st !! u = Some ws) →
                Relay.pingInterval s' = true ∧ Relay.readyState s' ≠ Relay.CLOSED)
         | None, None => True
         | None, Some s' => Relay.userId s' = None
         | Some _, None => False
         end) →
  registry_consistent (Relay.mkState (Relay.clients st) socks').
Proof.
  intros [HA HB] Hpt. split; simpl.
  - intros u ws Hu. destruct (HA _ _ Hu) as (s & Hs & Hus & _ & _).
    specialize (Hpt ws). rewrite Hs in Hpt.
    destruct (socks' !! ws) as [s'|]; [|done].
    destruct Hpt as (Hu' & _ & Hent). destruct Hent as [? ?]; [eauto|].
    exists s'. repeat split; try done. congruence.
  - intros u ws (s' & Hs' & Hu' & Ho & Hp). simpl in Hs'.
    specialize (Hpt ws). rewrite Hs' in Hpt.
    destruct (Relay.sockets st !! ws) as [s|] eqn:Hs; [|congruence].
    destruct Hpt as (Hu'' & Hserv & _). destruct (Hserv Ho Hp) as [? ?].
    apply HB. exists s. repeat split; try done. congruence.
Qed.

(** Replacing one known socket. *)
Lemma consistent_update st ws s s' :
  registry_consistent st →
  Relay.sockets st !! ws = Some s →
  Relay.userId s' = Relay.userId s →
  (Relay.readyState s' = Relay.OPEN → Relay.pingInterval s' = true →
     Relay.readyState s = Relay.OPEN ∧ Relay.pingInterval s = true) →
  (Relay.pingInterval s = true → Relay.readyState s ≠ Relay.CLOSED →
     Relay.pingInterval s' = true ∧ Relay.readyState s' ≠ Relay.CLOSED) →
  registry_consistent
    (Relay.mkState (Relay.clients st) (<[ws := s']> (Relay.sockets st))).
Proof.
  intros Hc Hs Hu Hserv Hent. apply consistent_sockets; [done|].
  intros w. destruct (decide (ws = w)) as [<-|Hne].
  - rewrite Hs, lookup_insert_eq. split; [done|]. split; [exact Hserv|].
    intros [u Hentry]. destruct Hc as [HA _].
    destruct (HA _ _ Hentry) as (s0 & Hs0 & _ & Hp & Hr).
    assert (s0 = s) as -> by congruence. by apply Hent.
  - rewrite lookup_insert_ne by done. by apply unchanged_socket_ok.
Qed.

(** handleClose, after the socket record became [s']. *)
Lemma consistent_retire st ws s s' u :
  registry_consistent st →
  Relay.sockets st !! ws = Some s →
  Relay.userId s = Some u → Relay.userId s' = Some u →
  Relay.pingInterval s' = false →
  registry_consistent
    (Relay.mkState
       (if bool_decide (Relay.clients st !! u = Some ws)
        then base.delete u (Relay.clients st) else Relay.clients st)
       (<[ws := s']> (Relay.sockets st))).
Proof.
  intros [HA HB] Hs Hu Hu' Hp'. split; simpl.
  - intros v w Hv.
    assert (Relay.clients st !! v = Some w ∧ ¬ (v = u ∧ w = ws)) as [Hv0 Hnot].
    { case_bool_decide as Hcur.
      - destruct (decide (u = v)) as [<-|Hne].
        + by rewrite lookup_delete_eq in Hv.
        + rewrite lookup_delete_ne in Hv by done. split; [done|]. intros [-> _]. done.
      - split; [done|]. intros [-> ->]. done. }
    destruct (HA _ _ Hv0) as (s0 & Hs0 & Hu0 & Hp0 & Hr0).
    destruct (decide (ws = w)) as [<-|Hne].
    + assert (s0 = s) as -> by congruence.
      exfalso. apply Hnot. split; [congruence|done].
    + rewrite lookup_insert_ne by done. eauto.
  - intros v w (s0 & Hs0 & Hu0 & Ho & Hp). simpl in Hs0.
    destruct (decide (ws = w)) as [<-|Hne].
    + rewrite lookup_insert_eq in Hs0. injection Hs0 as <-. congruence.
    + rewrite lookup_insert_ne in Hs0 by done.
      assert (Relay.clients st !! v = Some w) as Hv by (apply HB; exists s0; done).
      case_bool_decide as Hcur; [|done].
      destruct (decide (u = v)) as [<-|Hne']; [congruence|].
      by rewrite lookup_delete_ne.
Qed.

Lemma alter_after_insert {A} (f : A → A) (m : gmap nat A) k v :
  alter f k (<[k := v]> m) = <[k := f v]> m.
Proof.
  apply map_eq. intros j. destruct (decide (k = j)) as [<-|Hne].
  - by rewrite lookup_alter_eq, !lookup_insert_eq.
  - by rewrite lookup_alter_ne, !lookup_insert_ne.
Qed.

Lemma alter_known {A} (f : A → A) (m : gmap nat A) k v :
  m !! k = Some v → alter f k m = <[k := f v]> m.
Proof.
  intros H. apply map_eq. intros j. destruct (decide (k = j)) as [<-|Hne].
  - by rewrite lookup_alter_eq, lookup_insert_eq, H.
  - by rewrite lookup_alter_ne, lookup_insert_ne.
Qed.

(** A 'connection' for a user, on a socket object not seen before. *)
Lemma consistent_connection st ws u :
  registry_consistent st →
  Relay.sockets st !! ws = None →
  registry_consistent
    (Relay.mkState (<[u := ws]> (Relay.clients st))
       (<[ws := Relay.mkSocket Relay.OPEN true true (Some u) None []]>
          match Relay.clients st !! u with
          | Some existingConnection =>
              alter (Relay.close 1000) existingConnection (Relay.sockets st)
          | None => Relay.sockets st
          end)).
Proof.
  intros [HA HB] Hfresh.
  assert (∀ w s', w ≠ ws →
    match Relay.clients st !! u with
    | Some existingConnection =>
        alter (Relay.close 1000) existingConnection (Relay.sockets st)
    | None => Relay.sockets st
    end !! w = Some s' →
    ∃ s, Relay.sockets st !! w = Some s
      ∧ Relay.userId s' = Relay.userId s
      ∧ Relay.pingInterval s' = Relay.pingInterval s
      ∧ (Relay.readyState s ≠ Relay.CLOSED → Relay.readyState s' ≠ Relay.CLOSED)
      ∧ (Relay.readyState s' = Relay.OPEN →
           Relay.readyState s = Relay.OPEN
           ∧ Relay.clients st !! u ≠ Some w)) as Hold.
  { intros w s' Hne Hw. destruct (Relay.clients st !! u) as [old|] eqn:Hu.
    - destruct (decide (old = w)) as [->|Hne'].
      + rewrite lookup_alter_eq in Hw.
        destruct (Relay.sockets st !! w) as [s|] eqn:Hs; [|done].
        simpl in Hw. injection Hw as <-. exists s. split; [done|].
        unfold Relay.close. destruct (Relay.readyState s) eqn:E; simpl;
          rewrite ?E; repeat split; try done.
      + rewrite lookup_alter_ne in Hw by done. exists s'.
        repeat split; try done. congruence.
    - exists s'. repeat split; done. }
  split; simpl.
  - intros v w Hv. destruct (decide (u = v)) as [<-|Hne].
    + rewrite lookup_insert_eq in Hv. injection Hv as <-.
      rewrite lookup_insert_eq. eexists. repeat split; done.
    + rewrite lookup_insert_ne in Hv by done.
      destruct (HA _ _ Hv) as (s & Hs & Hus & Hp & Hr).
      assert (w ≠ ws) as Hw by congruence.
      rewrite lookup_insert_ne by done.
      destruct (Relay.clients st !! u) as [old|] eqn:Hu; [|eauto].
      destruct (decide (old = w)) as [->|Hne'].
      * destruct (HA _ _ Hu) as (s0 & Hs0 & Hus0 & _). congruence.
      * rewrite lookup_alter_ne by done. eauto.
  - intros v w (s' & Hs' & Hu' & Ho & Hp). simpl in Hs'.
    destruct (decide (ws = w)) as [<-|Hne].
    + rewrite lookup_insert_eq in Hs'. injection Hs' as <-. simpl in Hu'.
      injection Hu' as <-. by rewrite lookup_insert_eq.
    + rewrite lookup_insert_ne in Hs' by done.
      destruct (Hold w s' (not_eq_sym Hne) Hs') as (s & Hs & Hus & Hps & _ & Hopen).
      destruct (Hopen Ho) as [Ho' Hnot].
      assert (Relay.clients st !! v = Some w) as Hv.
      { apply HB. exists s. repeat split; congruence. }
      destruct (decide (u = v)) as [<-|Hne']; [done|].
      by rewrite lookup_insert_ne.
Qed.

Lemma step_consistent e st :
  registry_consistent st → registry_consistent (Relay.step e st).
Proof.
  intros Hc. destruct e as [w url|w|w|w|w|w|u n|n]; simpl.
  - (* Connection *)
    destruct (Relay.sockets st !! w) as [s0|] eqn:Hw; [done|].
    unfold Relay.connection.
    assert (registry_consistent
              (Relay.mkState (Relay.clients st)
                 (<[w := Relay.close 4000
                           (Relay.mkSocket Relay.OPEN true true None None [])]>
                    (Relay.sockets st)))) as Hbad.
    { apply consistent_sockets; [done|]. intros ws.
      destruct (decide (w = ws)) as [<-|Hne].
      - by rewrite Hw, lookup_insert_eq.
      - rewrite lookup_insert_ne by done. by apply unchanged_socket_ok. }
    destruct url as [[u|]|]; try done.
    destruct u as [|c u']; [done|].
    by apply consistent_connection.
  - (* Interval *)
    destruct (Relay.sockets st !! w) as [s|] eqn:Hs; [|done].
    destruct (Relay.pingInterval s) eqn:Hp; [|done].
    destruct (heartbeat_control s) as (Hu & Hpi & Hopen & Hclosed & _).
    apply (consistent_update st w s); try done.
    + intros Ho _. split; [by apply Hopen|done].
    + intros _ Hr. split; [congruence|by apply Hclosed].
  - (* Pong *)
    destruct (Relay.sockets st !! w) as [s|] eqn:Hs.
    + rewrite (alter_known _ _ _ _ Hs). by apply (consistent_update st w s).
    + assert (alter (Relay.set_isAlive true) w (Relay.sockets st) = Relay.sockets st)
        as ->; [|by destruct st].
      apply map_eq. intros j. destruct (decide (w = j)) as [<-|Hne].
      * by rewrite lookup_alter_eq, Hs.
      * by rewrite lookup_alter_ne.
  - (* Close *)
    destruct (Relay.sockets st !! w) as [s|] eqn:Hs; [|done].
    destruct (Relay.userId s) as [u|] eqn:Hu.
    + unfold Relay.handleClose. simpl. rewrite alter_after_insert.
      by apply (consistent_retire st w s).
    + apply consistent_sockets; [done|]. intros ws.
      destruct (decide (w = ws)) as [<-|Hne].
      * rewrite Hs, lookup_insert_eq. simpl. split; [done|]. split; [done|].
        intros [u Hentry]. destruct Hc as [HA _].
        destruct (HA _ _ Hentry) as (s1 & Hs1 & Hu1 & _). congruence.
      * rewrite lookup_insert_ne by done. by apply unchanged_socket_ok.
  - (* SocketError *)
    destruct (Relay.sockets st !! w) as [s|] eqn:Hs; [|done].
    destruct (Relay.userId s) as [u|] eqn:Hu; [|done].
    unfold Relay.handleClose. rewrite (alter_known _ _ _ _ Hs).
    by apply (consistent_retire st w s).
  - (* PingMessage *)
    destruct (Relay.sockets st !! w) as [s|] eqn:Hs; [|done].
    destruct (Relay.userId s) as [u|] eqn:Hu; [|done].
    destruct (send_same_control "pong" s) as (Hr & Ha & Hp & Hu').
    apply (consistent_update st w s); try done; rewrite ?Hr, ?Hp; done.
  - (* BroadcastNotification *)
    unfold Relay.broadcastNotification.
    destruct (Relay.clients st !! u) as [client|]; [|done].
    destruct (Relay.sockets st !! client) as [s|] eqn:Hs; [|done].
    case_bool_decide; [|done].
    destruct (send_same_control n s) as (Hr & Ha & Hp & Hu').
    apply (consistent_update st client s); try done; rewrite ?Hr, ?Hp; done.
  - (* BroadcastToAll *)
    unfold Relay.broadcastToAll.
    apply consistent_sockets; [done|]. intros ws.
    pose proof (fan_out_same_control n (Relay.clients st) (Relay.sockets st) ws) as H.
    destruct (Relay.sockets st !! ws) as [s|] eqn:Hs.
    + destruct H as (s' & -> & Hr & Ha & Hp & Hu). rewrite Hr, Hp, Hu.
      split; [done|]. split; [done|].
      intros [u Hentry]. destruct Hc as [HA _].
      destruct (HA _ _ Hentry) as (s1 & Hs1 & _ & Hp1 & Hr1).
      assert (s1 = s) as -> by congruence. done.
    + by rewrite H.
Qed.

Lemma reachable_consistent st : Relay.reachable st → registry_consistent st.
Proof.
  induction 1 as [|e st _ IH]; [|by apply step_consistent].
  split; simpl.
  - intros u ws H. simpl in H. by rewrite lookup_empty in H.
  - intros u ws (s & H & _). simpl in H. by rewrite lookup_empty in H.
Qed.

Lemma run_cons e es st : Relay.run (e :: es) st = Relay.run es (Relay.step e st).
Proof. reflexivity. Qed.

Lemma run_snoc es e st : Relay.run (es ++ [e]) st = Relay.step e (Relay.run es st).
Proof. unfold Relay.run. by rewrite foldl_app. Qed.

Lemma close_control code s :
  Relay.userId (Relay.close code s) = Relay.userId s
  ∧ Relay.pingInterval (Relay.close code s) = Relay.pingInterval s
  ∧ Relay.isAlive (Relay.close code s) = Relay.isAlive s
  ∧ Relay.readyState (Relay.close code s) ≠ Relay.OPEN
  ∧ (Relay.readyState s ≠ Relay.CLOSED →
     Relay.readyState (Relay.close code s) = Relay.CLOSING).
Proof. destruct s as [r a p u c f]. destruct r; simpl; repeat split; done. Qed.

(** While neither a pong nor the close of [ws] arrives, a socket that
    has an unanswered ping (or is no longer open) stays so, and its timer
    stays armed. *)
Lemma silent_step ws e st s :
  Relay.sockets st !! ws = Some s →
  Relay.pingInterval s = true →
  Relay.isAlive s = false ∨ Relay.readyState s ≠ Relay.OPEN →
  Relay.silent ws e →
  ∃ s', Relay.sockets (Relay.step e st) !! ws = Some s'
    ∧ Relay.userId s' = Relay.userId s
    ∧ Relay.pingInterval s' = true
    ∧ (Relay.isAlive s' = false ∨ Relay.readyState s' ≠ Relay.OPEN).
Proof.
  intros Hs Hp Hor Hsil.
  destruct (step_socket_shape e st ws s Hs) as (s' & Hs' & Hshape).
  exists s'. split; [done|].
  destruct Hshape as [(Hr & Ha & Hp' & Hu)|[->|[(-> & _ & ->)|[(-> & _)|([-> | ->] & _)]]]].
  - rewrite Hr, Ha, Hp', Hu. done.
  - destruct (close_control 1000 s) as (Hu & Hp' & Ha & Hno & _).
    rewrite Hu, Hp', Ha. repeat split; try done. by right.
  - destruct (heartbeat_control s) as (Hu & Hp' & _ & _ & _ & Hlast).
    rewrite Hu, Hp'. done.
  - by simpl in Hsil.
  - by simpl in Hsil.
  - by simpl in Hsil.
Qed.

Lemma silent_run ws es : ∀ st s,
  Relay.sockets st !! ws = Some s →
  Relay.pingInterval s = true →
  Relay.isAlive s = false ∨ Relay.readyState s ≠ Relay.OPEN →
  Forall (Relay.silent ws) es →
  ∃ s', Relay.sockets (Relay.run es st) !! ws = Some s'
    ∧ Relay.userId s' = Relay.userId s
    ∧ Relay.pingInterval s' = true
    ∧ (Relay.isAlive s' = false ∨ Relay.readyState s' ≠ Relay.OPEN).
Proof.
  induction es as [|e es IH]; intros st s Hs Hp Hor Hsil.
  - exists s. done.
  - apply Forall_cons in Hsil as [He Hes]. rewrite run_cons.
    destruct (silent_step ws e st s Hs Hp Hor He) as (s1 & Hs1 & Hu1 & Hp1 & Hor1).
    destruct (IH _ _ Hs1 Hp1 Hor1 Hes) as (s2 & Hs2 & Hu2 & Hp2 & Hor2).
    exists s2. repeat split; try done. congruence.
Qed.

(** Two timer ticks of a socket with no pong in between terminate it. *)
Lemma heartbeat_timeout st ws s es :
  Relay.sockets st !! ws = Some s →
  Relay.pingInterval s = true →
  Forall (Relay.silent ws) es →
  ∃ s', Relay.sockets
          (Relay.run (Relay.Interval ws :: es ++ [Relay.Interval ws]) st) !! ws
        = Some s'
    ∧ Relay.userId s' = Relay.userId s
    ∧ Relay.readyState s' ≠ Relay.OPEN.
Proof.
  intros Hs Hp Hsil. rewrite run_cons, run_snoc.
  assert (∃ s1, Relay.sockets (Relay.step (Relay.Interval ws) st) !! ws = Some s1
            ∧ Relay.userId s1 = Relay.userId s
            ∧ Relay.pingInterval s1 = true
            ∧ (Relay.isAlive s1 = false ∨ Relay.readyState s1 ≠ Relay.OPEN))
    as (s1 & Hs1 & Hu1 & Hp1 & Hor1).
  { simpl. rewrite Hs, Hp. simpl. rewrite lookup_insert_eq.
    destruct (heartbeat_control s) as (Hu & Hp' & _ & _ & _ & Hlast).
    eexists. split; [done|]. rewrite Hu, Hp'. done. }
  destruct (silent_run ws es _ _ Hs1 Hp1 Hor1 Hsil) as (s2 & Hs2 & Hu2 & Hp2 & Hor2).
  set (st2 := Relay.run es (Relay.step (Relay.Interval ws) st)) in *.
  unfold Relay.step. rewrite Hs2, Hp2. simpl. rewrite lookup_insert_eq.
  destruct (heartbeat_control s2) as (Hu & _ & Hopen & _ & Hdead & _).
  eexists. split; [done|]. split; [congruence|].
  destruct Hor2 as [Ha|Hr]; [by apply Hdead|]. intros Ho. by apply Hr, Hopen.
Qed.

(** The 'close' event of a socket removes its registry entry, and no other. *)
Lemma close_removes_entry st ws s u :
  Relay.sockets st !! ws = Some s →
  Relay.userId s = Some u →
  Relay.clients (Relay.step (Relay.Close ws) st) !! u ≠ Some ws
  ∧ (∃ s', Relay.sockets (Relay.step (Relay.Close ws) st) !! ws = Some s'
       ∧ Relay.readyState s' = Relay.CLOSED ∧ Relay.pingInterval s' = false)
  ∧ (∀ v, Relay.clients st !! v ≠ Some ws →
       Relay.clients (Relay.step (Relay.Close ws) st) !! v = Relay.clients st !! v).
Proof.
  intros Hs Hu. simpl. rewrite Hs, Hu. unfold Relay.handleClose. simpl.
  split; [|split].
  - case_bool_decide as Hcur; [by rewrite lookup_delete_eq|done].
  - rewrite lookup_alter_eq, lookup_insert_eq. simpl. eauto.
  - intros v Hv. case_bool_decide as Hcur; [|done].
    destruct (decide (u = v)) as [<-|Hne]; [done|]. by rewrite lookup_delete_ne.
Qed.

(** C9: in every state the server can reach the registry is consistent and a
    user is served by at most one socket.  A new connection for a user
    becomes that user's registry entry, and the socket it replaces is closed
    (readyState CLOSING) and serves no longer.  A socket whose timer fires
    twice with no pong in between is terminated, and its 'close' event removes
    its registry entry and no other entry.  broadcastNotification to a user
    with no open registered socket changes nothing (and has no error
    result). *)
Theorem C9_one_live_channel_per_user :
  (∀ st, Relay.reachable st →
     registry_consistent st
     ∧ ∀ u ws1 ws2, serving st u ws1 → serving st u ws2 → ws1 = ws2)
  ∧ (∀ st ws c u, Relay.reachable st → Relay.sockets st !! ws = None →
       let st' := Relay.step (Relay.Connection ws (Some (Some (String c u)))) st in
       Relay.clients st' !! String c u = Some ws
       ∧ serving st' (String c u) ws
       ∧ ∀ old, Relay.clients st !! String c u = Some old →
           ¬ serving st' (String c u) old
           ∧ ∃ s', Relay.sockets st' !! old = Some s'
                   ∧ Relay.readyState s' = Relay.CLOSING)
  ∧ (∀ st ws s u es,
       Relay.sockets st !! ws = Some s → Relay.userId s = Some u →
       Relay.pingInterval s = true → Forall (Relay.silent ws) es →
       let st' := Relay.run (Relay.Interval ws :: es ++ [Relay.Interval ws]) st in
       (∃ s', Relay.sockets st' !! ws = Some s'
              ∧ Relay.readyState s' ≠ Relay.OPEN)
       ∧ Relay.clients (Relay.step (Relay.Close ws) st') !! u ≠ Some ws
       ∧ (∀ v, Relay.clients st' !! v ≠ Some ws →
            Relay.clients (Relay.step (Relay.Close ws) st') !! v
              = Relay.clients st' !! v))
  ∧ (∀ st u n, (∀ ws, ¬ Relay.live st u ws) →
       Relay.step (Relay.BroadcastNotification u n) st = st).
Proof.
  split; [|split; [|split]].
  - intros st Hreach. pose proof (reachable_consistent st Hreach) as Hc.
    split; [done|]. intros u ws1 ws2 H1 H2. destruct Hc as [_ HB].
    apply HB in H1, H2. congruence.
  - intros st ws c u Hreach Hfresh st'.
    pose proof (reachable_consistent st Hreach) as [HA HB].
    assert (Relay.clients st' !! String c u = Some ws) as Hentry.
    { unfold st'. simpl. rewrite Hfresh. simpl. by rewrite lookup_insert_eq. }
    assert (Relay.sockets st' !! ws
              = Some (Relay.mkSocket Relay.OPEN true true (Some (String c u)) None []))
      as Hnew.
    { unfold st'. simpl. rewrite Hfresh. simpl. by rewrite lookup_insert_eq. }
    split; [done|]. split; [eexists; split; [exact Hnew|done]|].
    intros old Hold. destruct (HA _ _ Hold) as (s0 & Hs0 & Hu0 & Hp0 & Hr0).
    assert (old ≠ ws) as Hne by congruence.
    assert (Relay.sockets st' !! old = Some (Relay.close 1000 s0)) as Hclosed.
    { unfold st'. simpl. rewrite Hfresh. simpl. rewrite Hold.
      rewrite lookup_insert_ne by done. by rewrite lookup_alter_eq, Hs0. }
    destruct (close_control 1000 s0) as (_ & _ & _ & Hno & Hclosing).
    split.
    + intros (s' & Hs' & _ & Ho & _). congruence.
    + eexists. split; [exact Hclosed|]. by apply Hclosing.
  - intros st ws s u es Hs Hu Hp Hsil st'.
    destruct (heartbeat_timeout st ws s es Hs Hp Hsil) as (s' & Hs' & Hu' & Hno).
    fold st' in Hs'.
    destruct (close_removes_entry st' ws s' u Hs' ltac:(congruence))
      as (Hgone & _ & Hrest).
    split; [eauto|]. split; done.
  - intros st u n Hno. simpl. unfold Relay.broadcastNotification.
    destruct (Relay.clients st !! u) as [client|] eqn:Hc; [|done].
    destruct (Relay.sockets st !! client) as [s|] eqn:Hs; [|done].
    case_bool_decide as Ho; [|done].
    exfalso. apply (Hno client). split; [done|]. eauto.
Qed.

Lemma C9_one_live_channel_per_user_witness :
  (∀ ws, ¬ Relay.live Relay.init "42" ws) ∧
  Relay.step (Relay.BroadcastNotification "42" "hello") Relay.init = Relay.init.
Proof.
  assert (∀ ws, ¬ Relay.live Relay.init "42" ws) as H.
  { intros ws [H _]. simpl in H. by rewrite lookup_empty in H. }
  split; [exact H|].
  exact (proj2 (proj2 (proj2 C9_one_live_channel_per_user))
           Relay.init "42" "hello" H).
Defined.

(** The walk-through of the specification: A (user 1, offers skill 10) asks
    B (user 2) for skill 11; B accepts; A completes; A rates B with 5, which
    is answered 500 and stores nothing. *)
Example swap_walk_through :
  let db0 := mkDb (users (Fixture.db pending)) (skills (Fixture.db pending))
               ∅ 0 ∅ 0 in
  let '(r1, db1) := Swaps.create 10 1 2 10 11 (Some "hi") db0 in
  let '(r2, db2) := Swaps.updateStatus 20 2 1 "accepted" db1 in
  let '(r3, db3) := Swaps.updateStatus 30 1 1 "completed" db2 in
  let '(r4, db4) := Ratings.submit 40 1 1 5 None db3 in
  r1 = reply 201 (Created "Swap request created successfully" 1)
  ∧ swap_status db1 1 = Some pending
  ∧ status r2 = 200 ∧ swap_status db2 1 = Some accepted
  ∧ status r3 = 200 ∧ swap_status db3 1 = Some completed
  ∧ (SwapRequest.completedAt <$> swap_requests db3 !! 1) = Some (Some 30)
  ∧ r4 = reply 500 (Error "Internal server error")
  ∧ db4 = db3
  ∧ Ratings.getRatingsForUser 2 db4 = Ratings.mkStats None 0.
Proof. vm_compute. repeat split; reflexivity. Qed.

(** * Further properties *)

(** ** MigrationRunner *)

Section MigrationRunner.
Context {S : Type}.
Implicit Types (ms : list (Migrations.Migration S)) (db : Migrations.Db S).

Lemma run_pending_applied ms : ∀ db db',
  Migrations.run_pending ms db = (db', None) →
  Migrations.applied db'
    = Migrations.applied db ∪ list_to_set (Migrations.id <$> ms).
Proof.
  induction ms as [|m ms IH]; intros db db' H; simpl in H.
  - injection H as <-. set_solver.
  - destruct (Migrations.up m (Migrations.schema db)) as [s ok].
    destruct (ok && bool_decide _) eqn:E; [|done].
    apply IH in H. rewrite H. simpl. set_solver.
Qed.

Lemma run_pending_all_applied ms db :
  (∀ m, m ∈ ms → Migrations.id m ∈ Migrations.applied db) →
  Migrations.migrate ms db = (db, None).
Proof.
  intros Hall. unfold Migrations.migrate.
  assert (filter (λ m, Migrations.id m ∉ Migrations.applied db) ms = []) as ->;
    [|done].
  induction ms as [|m ms IH]; [done|].
  rewrite filter_cons_False.
  - apply IH. intros m' Hm'. apply Hall. by right.
  - intros Hn. apply Hn, Hall. by left.
Qed.

Lemma run_pending_split ms : ∀ db db' i,
  Migrations.run_pending ms db = (db', Some i) →
  ∃ pre m post, ms = (pre ++ m :: post)%list ∧ Migrations.id m = i
    ∧ Migrations.run_pending pre db = (db', None)
    ∧ ((Migrations.up m (Migrations.schema db')).2 = false
       ∨ i ∈ Migrations.applied db').
Proof.
  induction ms as [|m ms IH]; intros db db' i H; simpl in H; [done|].
  destruct (Migrations.up m (Migrations.schema db)) as [s ok] eqn:Eup.
  destruct (ok && bool_decide _) eqn:E.
  - apply IH in H as (pre & m' & post & -> & Hid & Hrun & Hwhy).
    exists (m :: pre), m', post. split; [done|]. split; [done|].
    split; [|done]. simpl. by rewrite Eup, E.
  - injection H as <- <-. exists [], m, ms. split; [done|]. split; [done|].
    split; [done|]. rewrite Eup. simpl.
    apply andb_false_iff in E as [->|E]; [by left|].
    right. apply bool_decide_eq_false in E. by apply dec_stable.
Qed.
End MigrationRunner.

(** X1: when [migrate] returns without throwing, the migrations table holds
    what it held before and the id of every registered migration, and a
    second [migrate] runs nothing: it leaves schema and table as they are. *)
Theorem migrate_records_all_and_is_idempotent {S : Type}
    (ms : list (Migrations.Migration S)) (db db' : Migrations.Db S) :
  Migrations.migrate ms db = (db', None) →
  Migrations.applied db'
    = Migrations.applied db ∪ list_to_set (Migrations.id <$> ms)
  ∧ Migrations.migrate ms db' = (db', None).
Proof.
  intros H. unfold Migrations.migrate in H. apply run_pending_applied in H.
  assert (Migrations.applied db'
          = Migrations.applied db ∪ list_to_set (Migrations.id <$> ms)) as Happ.
  { rewrite H. apply set_eq. intros x.
    rewrite !elem_of_union, !elem_of_list_to_set, !list_elem_of_fmap.
    split.
    - intros [?|(m & -> & Hm)]; [by left|].
      apply list_elem_of_filter in Hm as [_ Hm]. right. eauto.
    - intros [?|(m & -> & Hm)]; [by left|].
      destruct (decide (Migrations.id m ∈ Migrations.applied db)); [by left|].
      right. exists m. split; [done|]. by apply list_elem_of_filter. }
  split; [done|]. apply run_pending_all_applied. intros m Hm.
  rewrite Happ. apply elem_of_union_r, elem_of_list_to_set, list_elem_of_fmap. eauto.
Qed.

Lemma migrate_records_all_and_is_idempotent_witness :
  Migrations.migrate [MigrationFixture.createRatingsTable] MigrationFixture.db0
    = (Migrations.mkDb ["ratings"; "users"; "skills"]
         {[ "001_create_ratings_table" ]}, None) ∧
  Migrations.migrate [MigrationFixture.createRatingsTable]
    (Migrations.mkDb ["ratings"; "users"; "skills"] {[ "001_create_ratings_table" ]})
    = (Migrations.mkDb ["ratings"; "users"; "skills"]
         {[ "001_create_ratings_table" ]}, None).
Proof.
  assert (Migrations.migrate [MigrationFixture.createRatingsTable]
            MigrationFixture.db0
          = (Migrations.mkDb ["ratings"; "users"; "skills"]
               {[ "001_create_ratings_table" ]}, None)) as H.
  { vm_compute. reflexivity. }
  split; [exact H|].
  exact (proj2 (migrate_records_all_and_is_idempotent _ _ _ H)).
Defined.

Lemma NoDup_fmap_filter {A B} (f : A → B) (P : A → Prop)
    `{∀ x, Decision (P x)} (l : list A) :
  NoDup (f <$> l) → NoDup (f <$> filter P l).
Proof.
  induction l as [|x l IH]; simpl; [done|].
  rewrite NoDup_cons. intros [Hx Hl]. destruct (decide (P x)).
  - rewrite filter_cons_True by done. simpl. apply NoDup_cons. split; [|auto].
    intros Hin. apply Hx. apply list_elem_of_fmap in Hin as (y & -> & Hy).
    apply list_elem_of_fmap. exists y. split; [done|].
    by apply list_elem_of_filter in Hy as [_ ?].
  - rewrite filter_cons_False by done. auto.
Qed.

Lemma run_pending_succeeds {S : Type} (ms : list (Migrations.Migration S)) :
  ∀ db : Migrations.Db S,
  NoDup (Migrations.id <$> ms) →
  (∀ m, m ∈ ms → Migrations.id m ∉ Migrations.applied db) →
  (∀ pre m post, ms = (pre ++ m :: post)%list →
     (Migrations.up m
        (foldl (λ s m, (Migrations.up m s).1) (Migrations.schema db) pre)).2
     = true) →
  ∃ db', Migrations.run_pending ms db = (db', None)
    ∧ Migrations.schema db'
      = foldl (λ s m, (Migrations.up m s).1) (Migrations.schema db) ms.
Proof.
  induction ms as [|m ms IH]; intros db Hnd Hnew Hok; simpl.
  - eauto.
  - apply NoDup_cons in Hnd as [Hm Hnd].
    pose proof (Hok [] m ms eq_refl) as Hup. simpl in Hup.
    destruct (Migrations.up m (Migrations.schema db)) as [s ok] eqn:Eup.
    simpl in Hup. subst ok.
    rewrite bool_decide_eq_true_2 by (apply Hnew; by left). simpl.
    destruct (IH (Migrations.mkDb s ({[Migrations.id m]} ∪ Migrations.applied db)))
      as (db' & Hrun & Hs); try done.
    + intros m' Hm'. simpl. apply not_elem_of_union. split.
      * intros Heq%elem_of_singleton. apply Hm, list_elem_of_fmap.
        exists m'. by split.
      * apply Hnew. by right.
    + intros pre m' post Heq. simpl.
      specialize (Hok (m :: pre) m' post). simpl in Hok.
      rewrite Eup in Hok. simpl in Hok. apply Hok. by rewrite Heq.
    + exists db'. split; [done|]. by rewrite Hs.
Qed.

Lemma run_pending_needs {S : Type} (ms : list (Migrations.Migration S)) :
  ∀ db db' : Migrations.Db S,
  Migrations.run_pending ms db = (db', None) →
  (∀ m, m ∈ ms → Migrations.id m ∉ Migrations.applied db)
  ∧ NoDup (Migrations.id <$> ms)
  ∧ ∀ pre m post, ms = (pre ++ m :: post)%list →
      (Migrations.up m
         (foldl (λ s m, (Migrations.up m s).1) (Migrations.schema db) pre)).2
      = true.
Proof.
  induction ms as [|m ms IH]; intros db db' Hrun; simpl in Hrun.
  - split; [by intros m ?%elem_of_nil|]. split; [constructor|].
    intros pre m post Heq. by destruct pre.
  - destruct (Migrations.up m (Migrations.schema db)) as [s ok] eqn:Eup.
    destruct (ok && bool_decide _) eqn:E; [|done].
    apply andb_true_iff in E as [-> Hnew%bool_decide_eq_true].
    apply IH in Hrun as (Hfresh & Hnd & Hok). simpl in Hfresh.
    split; [|split].
    + intros m' [->|Hm']%elem_of_cons; [done|].
      specialize (Hfresh m' Hm'). set_solver.
    + simpl. apply NoDup_cons. split; [|done].
      intros (m' & Hid & Hm')%list_elem_of_fmap.
      specialize (Hfresh m' Hm'). rewrite <- Hid in Hfresh. set_solver.
    + intros pre m' post Heq. destruct pre as [|p pre]; simpl in Heq.
      * injection Heq as <- _. simpl. by rewrite Eup.
      * injection Heq as <- Heq. simpl. rewrite Eup. simpl.
        by apply (Hok pre m' post).
Qed.

(** X2: [migrate] returns without throwing exactly when the ids of the
    pending migrations are pairwise distinct and the [up] of each pending
    migration succeeds on the schema the pending ones before it leave;
    migrations that are recorded as applied are not run and may do
    anything.  The schema it then leaves is the pending [up]s applied in
    registration order. *)
Theorem migrate_succeeds {S : Type}
    (ms : list (Migrations.Migration S)) (db : Migrations.Db S) :
  let pending := filter (λ m, Migrations.id m ∉ Migrations.applied db) ms in
  ((∃ db', Migrations.migrate ms db = (db', None)) ↔
   NoDup (Migrations.id <$> pending)
   ∧ ∀ pre m post, pending = (pre ++ m :: post)%list →
       (Migrations.up m
          (foldl (λ s m, (Migrations.up m s).1) (Migrations.schema db) pre)).2
       = true)
  ∧ ∀ db', Migrations.migrate ms db = (db', None) →
      Migrations.schema db'
      = foldl (λ s m, (Migrations.up m s).1) (Migrations.schema db) pending.
Proof.
  intros pending. unfold Migrations.migrate. fold pending.
  assert (∀ m, m ∈ pending → Migrations.id m ∉ Migrations.applied db) as Hnew.
  { intros m Hm. by apply list_elem_of_filter in Hm as [? _]. }
  split; [split|].
  - intros [db' Hrun]. by apply run_pending_needs in Hrun as (_ & ? & ?).
  - intros [Hnd Hok].
    destruct (run_pending_succeeds pending db Hnd Hnew Hok) as (db' & Hrun & _).
    eauto.
  - intros db' Hrun.
    pose proof (run_pending_needs pending db db' Hrun) as (_ & Hnd & Hok).
    destruct (run_pending_succeeds pending db Hnd Hnew Hok) as (db'' & Hrun' & Hs).
    congruence.
Qed.

Lemma migrate_succeeds_witness :
  (∃ db', Migrations.migrate
            [MigrationFixture.broken; MigrationFixture.createRatingsTable]
            MigrationFixture.db1 = (db', None))
  ∧ ∀ db', Migrations.migrate
             [MigrationFixture.broken; MigrationFixture.createRatingsTable]
             MigrationFixture.db1 = (db', None) →
      Migrations.schema db' = ["ratings"; "users"; "skills"].
Proof.
  pose proof (migrate_succeeds
                [MigrationFixture.broken; MigrationFixture.createRatingsTable]
                MigrationFixture.db1) as [Hiff Hschema].
  assert (filter (λ m, Migrations.id m ∉ Migrations.applied MigrationFixture.db1)
            [MigrationFixture.broken; MigrationFixture.createRatingsTable]
          = [MigrationFixture.createRatingsTable]) as Hpending.
  { rewrite filter_cons_False; [|intros Hn; apply Hn; vm_compute; set_solver].
    rewrite filter_cons_True; [done|]. vm_compute. set_solver. }
  rewrite Hpending in Hiff, Hschema. split.
  - apply Hiff. split.
    + simpl. apply NoDup_singleton.
    + intros pre m post Heq. destruct pre as [|p pre].
      * injection Heq as <- _. reflexivity.
      * destruct pre; discriminate Heq.
  - intros db' Hrun. exact (Hschema db' Hrun).
Defined.

(** X3: when [migrate] throws at migration [i], the database is what the
    pending migrations registered before [i] left (the changes of [i] are
    rolled back), nothing applied before is lost, and [i] threw either in its
    [up] or because its id was already recorded, that is, registered twice. *)
Theorem migrate_failure_keeps_prefix {S : Type}
    (ms : list (Migrations.Migration S)) (db db' : Migrations.Db S) (i : string) :
  Migrations.migrate ms db = (db', Some i) →
  ∃ pre m post,
    filter (λ m, Migrations.id m ∉ Migrations.applied db) ms
      = (pre ++ m :: post)%list
    ∧ Migrations.id m = i
    ∧ Migrations.migrate pre db = (db', None)
    ∧ Migrations.applied db'
      = Migrations.applied db ∪ list_to_set (Migrations.id <$> pre)
    ∧ ((Migrations.up m (Migrations.schema db')).2 = false
       ∨ i ∈ list_to_set (C := gset string) (Migrations.id <$> pre)).
Proof.
  intros H. unfold Migrations.migrate in H.
  apply run_pending_split in H as (pre & m & post & Hsplit & Hid & Hrun & Hwhy).
  exists pre, m, post. split; [done|]. split; [done|].
  assert (filter (λ m, Migrations.id m ∉ Migrations.applied db) pre = pre) as Hpre.
  { assert (Forall (λ m, Migrations.id m ∉ Migrations.applied db) (pre ++ m :: post))
      as Hall.
    { rewrite <- Hsplit. apply Forall_forall. intros x Hx.
      by apply list_elem_of_filter in Hx as [? _]. }
    apply Forall_app in Hall as [Hall _]. clear -Hall.
    induction Hall as [|x l Hx Hl IH]; [done|].
    rewrite filter_cons_True by done. by rewrite IH. }
  pose proof (run_pending_applied _ _ _ Hrun) as Happ.
  split; [unfold Migrations.migrate; by rewrite Hpre|]. split; [done|].
  destruct Hwhy as [?|Hin]; [by left|]. right.
  rewrite Happ in Hin. apply elem_of_union in Hin as [Hin|Hin]; [|done].
  exfalso.
  assert (m ∈ filter (λ m, Migrations.id m ∉ Migrations.applied db) ms) as Hm.
  { rewrite Hsplit. apply elem_of_app. right. by left. }
  apply list_elem_of_filter in Hm as [Hm _]. apply Hm. by rewrite Hid.
Qed.

Lemma migrate_failure_keeps_prefix_witness :
  Migrations.migrate
    [MigrationFixture.createRatingsTable; MigrationFixture.broken]
    MigrationFixture.db0
  = (Migrations.mkDb ["ratings"; "users"; "skills"]
       {[ "001_create_ratings_table" ]}, Some "002_broken") ∧
  ∃ pre m post,
    filter (λ m, Migrations.id m ∉ Migrations.applied MigrationFixture.db0)
      [MigrationFixture.createRatingsTable; MigrationFixture.broken]
      = (pre ++ m :: post)%list
    ∧ Migrations.id m = "002_broken"
    ∧ Migrations.migrate pre MigrationFixture.db0
      = (Migrations.mkDb ["ratings"; "users"; "skills"]
           {[ "001_create_ratings_table" ]}, None)
    ∧ Migrations.applied
        (Migrations.mkDb ["ratings"; "users"; "skills"]
           {[ "001_create_ratings_table" ]})
      = Migrations.applied MigrationFixture.db0
        ∪ list_to_set (Migrations.id <$> pre)
    ∧ ((Migrations.up m
          (Migrations.schema
             (Migrations.mkDb ["ratings"; "users"; "skills"]
                {[ "001_create_ratings_table" ]}))).2 = false
       ∨ "002_broken" ∈ list_to_set (C := gset string) (Migrations.id <$> pre)).
Proof.
  assert (Migrations.migrate
            [MigrationFixture.createRatingsTable; MigrationFixture.broken]
            MigrationFixture.db0
          = (Migrations.mkDb ["ratings"; "users"; "skills"]
               {[ "001_create_ratings_table" ]}, Some "002_broken")) as H.
  { vm_compute. reflexivity. }
  split; [exact H|].
  exact (migrate_failure_keeps_prefix _ _ _ _ H).
Defined.

(** ** Adding a skill *)

Lemma listed_as_spec user name type s :
  NewSkill.listed_as user name type s = true ↔
  Skill.userId s = user ∧ Skill.name s = name
  ∧ ((Skill.isOffering s = true ∧ type = "offered")
     ∨ (Skill.isSeeking s = true ∧ type = "wanted")).
Proof.
  unfold NewSkill.listed_as.
  rewrite !andb_true_iff, orb_true_iff, !andb_true_iff, !bool_decide_eq_true.
  tauto.
Qed.

(** X4: POST /skills keeps "a user lists a name at most once per direction":
    it refuses (400, nothing written) a name the user already lists in that
    direction, and otherwise inserts one row under an unused id, owned by the
    caller, with exactly one of isOffering and isSeeking set and category
    'Other' whatever the request said; repeating an accepted request is
    refused. *)
Theorem add_skill_keeps_listings_distinct
    (now user : Z) (name type : string)
    (description proficiency_level category : option string)
    (st st' : NewSkill.Store) (r : Response) (added : option (Z * Skill.t)) :
  NewSkill.add now user name type description proficiency_level category st
    = (r, added, st') →
  (listings_distinct (skills (NewSkill.db st)) →
     listings_distinct (skills (NewSkill.db st')))
  ∧ (status r ≠ 201 → st' = st ∧ added = None)
  ∧ (status r = 201 →
       ∃ skillId row, added = Some (skillId, row)
         ∧ skills (NewSkill.db st) !! skillId = None
         ∧ skills (NewSkill.db st') = <[skillId := row]> (skills (NewSkill.db st))
         ∧ Skill.userId row = user ∧ Skill.name row = name
         ∧ Skill.category row = "Other"
         ∧ Skill.isOffering row = negb (Skill.isSeeking row)
         ∧ ∀ now' description' proficiency_level' category',
             is_Some (Skills.skillSchema name type proficiency_level') →
             NewSkill.add now' user name type description' proficiency_level'
               category' st'
             = (reply 400 (Error "You already have this skill listed"), None, st')).
Proof.
  unfold NewSkill.add.
  destruct (Skills.skillSchema name type proficiency_level) as [prof|] eqn:Hschema.
  2:{ intros [= <- <- <-]. simpl. repeat split; try done. }
  assert (type = "offered" ∨ type = "wanted") as Htype.
  { unfold Skills.skillSchema in Hschema.
    destruct (_ && includes type _) eqn:E; [|done].
    apply andb_true_iff in E as [_ E]. unfold includes in E.
    apply bool_decide_eq_true in E.
    rewrite !elem_of_cons, elem_of_nil in E. tauto. }
  destruct (negb _) eqn:Hprof.
  { intros [= <- <- <-]. simpl. repeat split; try done. }
  destruct (select_where _ _) as [[k dup]|] eqn:Hsel.
  { intros [= <- <- <-]. simpl. repeat split; try done. }
  intros [= <- <- <-]. simpl.
  pose proof (next_rowid_fresh (NewSkill.seq_skills st) (skills (NewSkill.db st)))
    as Hfresh.
  set (skillId := next_rowid _ _) in *.
  set (row := Skill.mk _ _ _ _ _ _ _ _).
  rewrite select_where_None in Hsel.
  assert (NewSkill.listed_as user name type row = true) as Hrow.
  { apply listed_as_spec. simpl. split; [done|]. split; [done|].
    destruct Htype as [-> | ->]; [left|right]; done. }
  split; [|split; [done|]].
  - intros Hd k1 k2 s1 s2 H1 H2 Hu Hn Hdir.
    destruct (decide (skillId = k1)) as [<-|Hn1],
             (decide (skillId = k2)) as [<-|Hn2]; [done|..].
    + rewrite lookup_insert_eq in H1. injection H1 as <-.
      rewrite lookup_insert_ne in H2 by done. exfalso.
      assert (NewSkill.listed_as user name type s2 = true) as Hl; [|by rewrite (Hsel _ _ H2) in Hl].
      apply listed_as_spec. simpl in *. split; [done|]. split; [done|].
      destruct Hdir as [[Ho ?]|[Hs ?]]; [left|right]; split; try done;
        by apply bool_decide_eq_true in Ho || by apply bool_decide_eq_true in Hs.
    + rewrite lookup_insert_eq in H2. injection H2 as <-.
      rewrite lookup_insert_ne in H1 by done. exfalso.
      assert (NewSkill.listed_as user name type s1 = true) as Hl; [|by rewrite (Hsel _ _ H1) in Hl].
      apply listed_as_spec. simpl in *. split; [done|]. split; [done|].
      destruct Hdir as [[? Ho]|[? Hs]]; [left|right]; split; try done;
        by apply bool_decide_eq_true in Ho || by apply bool_decide_eq_true in Hs.
    + rewrite lookup_insert_ne in H1, H2 by done. eapply Hd; eauto.
  - intros _. exists skillId, row. split; [done|]. split; [done|]. split; [done|].
    split; [done|]. split; [done|]. split; [done|]. split.
    + simpl. destruct Htype as [-> | ->]; done.
    + intros now' description' proficiency_level' category' [prof' Hs'].
      rewrite Hs'.
      assert (includes prof' ["beginner"; "intermediate"; "advanced"; "expert"] = true)
        as ->.
      { unfold Skills.skillSchema in Hs'. destruct (_ && _); [|done].
        destruct proficiency_level' as [p|].
        - destruct (includes p _) eqn:E; [|done]. by injection Hs' as <-.
        - by injection Hs' as <-. }
      simpl.
      destruct (select_where _ (<[skillId:=row]> _)) as [[k dup]|] eqn:Hsel'; [done|].
      rewrite select_where_None in Hsel'.
      specialize (Hsel' skillId row (lookup_insert_eq _ _ _)). congruence.
Qed.

Lemma add_skill_keeps_listings_distinct_witness :
  NewSkill.add 50 3 "Figma" "wanted" None None (Some "Design")
    (NewSkill.mkStore (Fixture.db pending) 12)
  = (reply 201 (Message "Skill added successfully"),
     Some (13, Skill.mk 3 "Figma" None "Other" "intermediate" false true 50),
     NewSkill.mkStore
       (set_skills (insert 13 (Skill.mk 3 "Figma" None "Other" "intermediate"
                                 false true 50)) (Fixture.db pending)) 13) ∧
  (listings_distinct (skills (Fixture.db pending)) →
   listings_distinct
     (skills (set_skills (insert 13 (Skill.mk 3 "Figma" None "Other"
                                       "intermediate" false true 50))
                (Fixture.db pending)))).
Proof.
  assert (NewSkill.add 50 3 "Figma" "wanted" None None (Some "Design")
            (NewSkill.mkStore (Fixture.db pending) 12)
          = (reply 201 (Message "Skill added successfully"),
             Some (13, Skill.mk 3 "Figma" None "Other" "intermediate" false true 50),
             NewSkill.mkStore
               (set_skills (insert 13 (Skill.mk 3 "Figma" None "Other"
                                         "intermediate" false true 50))
                  (Fixture.db pending)) 13)) as H.
  { vm_compute. reflexivity. }
  split; [exact H|].
  exact (proj1 (add_skill_keeps_listings_distinct _ _ _ _ _ _ _ _ _ _ _ H)).
Defined.

(** ** Listing swap requests *)

Lemma swap_list_lookup user status type db k sr :
  SwapList.list user status type db !! k = Some sr ↔
  swap_requests db !! k = Some sr
  ∧ SwapList.row_visible db user status type sr = true.
Proof. unfold SwapList.list. by rewrite map_lookup_filter_Some. Qed.

Lemma row_visible_spec db user status type sr :
  SwapList.row_visible db user status type sr = true →
  ∃ ws, skills db !! SwapRequest.skillRequestedId sr = Some ws
    ∧ (SwapRequest.requesterId sr = user ∨ Skill.userId ws = user)
    ∧ (type = "sent" → SwapRequest.requesterId sr = user)
    ∧ (type = "received" → Skill.userId ws = user)
    ∧ (∀ s, status = Some s → s ≠ "" →
         Swaps.status_of_string s = Some (SwapRequest.status sr)).
Proof.
  unfold SwapList.row_visible.
  destruct (users db !! SwapRequest.requesterId sr); [|done].
  destruct (skills db !! SwapRequest.skillRequestedId sr) as [ws|]; [|done].
  destruct (skills db !! SwapRequest.skillOfferedId sr); [|done].
  destruct (users db !! Skill.userId ws); [|done].
  rewrite !andb_true_iff, orb_true_iff, !bool_decide_eq_true.
  intros [[Hpart Hstatus] Htype]. exists ws. split; [done|]. split; [done|].
  split; [|split].
  - intros ->. rewrite bool_decide_eq_true_2 in Htype by done.
    by apply bool_decide_eq_true in Htype.
  - intros ->. rewrite bool_decide_eq_false_2 in Htype by done.
    rewrite bool_decide_eq_true_2 in Htype by done.
    by apply bool_decide_eq_true in Htype.
  - intros s -> Hne. destruct s as [|c s']; [done|].
    by apply bool_decide_eq_true in Hstatus.
Qed.

(** X5: GET /swaps shows a user only swap requests they take part in: every
    listed row is a row of the table whose requester or wanted-skill owner is
    the caller; under type=sent the caller is the requester, under
    type=received the owner of the wanted skill, and a status parameter is
    matched exactly.  Without filters every request of the caller whose
    users and skills exist is listed. *)
Theorem swap_listing_shows_own_requests_only
    (user : Z) (status : option string) (type : string) (db : Db) :
  (∀ k sr, SwapList.list user status type db !! k = Some sr →
     swap_requests db !! k = Some sr
     ∧ ∃ ws, skills db !! SwapRequest.skillRequestedId sr = Some ws
         ∧ (SwapRequest.requesterId sr = user ∨ Skill.userId ws = user)
         ∧ (type = "sent" → SwapRequest.requesterId sr = user)
         ∧ (type = "received" → Skill.userId ws = user)
         ∧ (∀ s, status = Some s → s ≠ "" →
              Swaps.status_of_string s = Some (SwapRequest.status sr)))
  ∧ (∀ k sr ws, swap_requests db !! k = Some sr →
       skills db !! SwapRequest.skillRequestedId sr = Some ws →
       is_Some (skills db !! SwapRequest.skillOfferedId sr) →
       is_Some (users db !! SwapRequest.requesterId sr) →
       is_Some (users db !! Skill.userId ws) →
       SwapRequest.requesterId sr = user ∨ Skill.userId ws = user →
       SwapList.list user None "all" db !! k = Some sr).
Proof.
  split.
  - intros k sr [Hk Hv]%swap_list_lookup. split; [done|]. by apply row_visible_spec.
  - intros k sr ws Hk Hws [os Hos] [u1 Hu1] [u2 Hu2] Hpart.
    apply swap_list_lookup. split; [done|]. unfold SwapList.row_visible.
    rewrite Hu1, Hws, Hos, Hu2. simpl.
    rewrite !andb_true_iff, orb_true_iff, !bool_decide_eq_true. done.
Qed.

Lemma swap_listing_shows_own_requests_only_witness :
  SwapList.list 2 None "received" (Fixture.db pending) !! 1
    = Some (Fixture.request pending) ∧
  swap_requests (Fixture.db pending) !! 1 = Some (Fixture.request pending) ∧
  ∃ ws, skills (Fixture.db pending)
          !! SwapRequest.skillRequestedId (Fixture.request pending) = Some ws
    ∧ (SwapRequest.requesterId (Fixture.request pending) = 2 ∨ Skill.userId ws = 2)
    ∧ ("received" = "sent" → SwapRequest.requesterId (Fixture.request pending) = 2)
    ∧ ("received" = "received" → Skill.userId ws = 2)
    ∧ (∀ s, None = Some s → s ≠ "" →
         Swaps.status_of_string s
           = Some (SwapRequest.status (Fixture.request pending))).
Proof.
  assert (SwapList.list 2 None "received" (Fixture.db pending) !! 1
          = Some (Fixture.request pending)) as H by (vm_compute; reflexivity).
  split; [exact H|].
  exact (proj1 (swap_listing_shows_own_requests_only 2 None "received"
                  (Fixture.db pending)) 1 (Fixture.request pending) H).
Defined.

(** X6: what the server answers to the buttons SwapRequestsPage shows on a
    listed swap (under the tab 'sent' or 'received', the requester not
    owning the wanted skill).  "Delete Request" is answered 200 and removes
    the request; a status button is answered 200 and moves the status along
    one of the edges pending → accepted, pending → rejected, accepted →
    completed.  "Rate Experience", shown on every completed swap, is
    answered 500 whatever rating between 1 and 5 is sent, and nothing is
    stored. *)
Theorem page_actions_on_the_server
    (now user k : Z) (statusFilter : option string) (filter : string)
    (db : Db) (sr : SwapRequest.t) (a : SwapRequestsPage.Action) :
  SwapList.list user statusFilter filter db !! k = Some sr →
  filter = "sent" ∨ filter = "received" →
  (∀ ws, skills db !! SwapRequest.skillRequestedId sr = Some ws →
     Skill.userId ws ≠ SwapRequest.requesterId sr) →
  a ∈ SwapRequestsPage.actions filter (SwapRequest.status sr) →
  match a with
  | SwapRequestsPage.DeleteRequest =>
      Swaps.delete user k db
      = (reply 200 (Message "Swap request deleted successfully"),
         set_swap_requests (base.delete k) db)
  | SwapRequestsPage.StatusUpdate target =>
      ∃ st, Swaps.status_of_string target = Some st
        ∧ edge (SwapRequest.status sr) st = true
        ∧ status (Swaps.updateStatus now user k target db).1 = 200
        ∧ swap_status (Swaps.updateStatus now user k target db).2 k = Some st
  | SwapRequestsPage.RateExperience =>
      ∀ rating feedback, Ratings.ratingSchema rating = true →
        Ratings.submit now user k rating feedback db
        = (reply 500 (Error "Internal server error"), db)
  end.
Proof.
  intros [Hk Hv]%swap_list_lookup Hfilter Hself Ha.
  apply row_visible_spec in Hv as (ws & Hws & Hpart & Hsent & Hrecv & _).
  specialize (Hself ws Hws).
  unfold SwapRequestsPage.actions in Ha.
  destruct (SwapRequest.status sr) eqn:Hst.
  - (* pending *)
    apply elem_of_app in Ha as [Ha|Ha].
    + case_bool_decide as Hf; [|by apply elem_of_nil in Ha].
      apply list_elem_of_singleton in Ha as ->.
      specialize (Hsent Hf). unfold Swaps.delete. rewrite Hk, Hws.
      rewrite (bool_decide_eq_false_2 (SwapRequest.requesterId sr ≠ user)) by auto.
      rewrite andb_false_r, Hst. done.
    + case_bool_decide as Hf; [|by apply elem_of_nil in Ha].
      specialize (Hrecv Hf).
      assert (a = SwapRequestsPage.StatusUpdate "accepted"
              ∨ a = SwapRequestsPage.StatusUpdate "rejected") as Hcases.
      { rewrite !elem_of_cons, elem_of_nil in Ha. tauto. }
      destruct Hcases as [-> | ->].
      * exists accepted. split; [done|]. split; [done|].
        rewrite (updateStatus_outcome now user k db sr ws Hk Hws).
        change (Swaps.status_of_string "accepted") with (Some accepted).
        unfold Swaps.check_authorization. simpl.
        rewrite bool_decide_eq_false_2 by congruence.
        rewrite bool_decide_eq_false_2 by congruence.
        simpl. unfold swap_status. simpl. by rewrite lookup_insert_eq.
      * exists rejected. split; [done|]. split; [done|].
        rewrite (updateStatus_outcome now user k db sr ws Hk Hws).
        change (Swaps.status_of_string "rejected") with (Some rejected).
        unfold Swaps.check_authorization. simpl.
        rewrite bool_decide_eq_false_2 by congruence.
        rewrite bool_decide_eq_false_2 by congruence.
        simpl. unfold swap_status. simpl. by rewrite lookup_insert_eq.
  - (* accepted *)
    apply list_elem_of_singleton in Ha as ->.
    exists completed. split; [done|]. split; [done|].
    rewrite (updateStatus_outcome now user k db sr ws Hk Hws).
    change (Swaps.status_of_string "completed") with (Some completed).
    unfold Swaps.check_authorization. simpl.
    assert (bool_decide (SwapRequest.requesterId sr ≠ user)
            && bool_decide (Skill.userId ws ≠ user) = false) as ->.
    { apply andb_false_iff.
      destruct Hpart; [left|right]; apply bool_decide_eq_false_2; auto. }
    simpl. unfold swap_status. simpl. by rewrite lookup_insert_eq.
  - by apply elem_of_nil in Ha.
  - (* completed *)
    apply list_elem_of_singleton in Ha as ->.
    intros rating feedback Hr. rewrite submit_outcome, Hr, Hk. simpl.
    rewrite bool_decide_eq_true_2 by done. rewrite Hws.
    rewrite bool_decide_eq_true_2; [done|].
    destruct Hpart; [left|right]; done.
  - by apply elem_of_nil in Ha.
Qed.

Lemma page_actions_on_the_server_witness :
  SwapList.list 2 None "received" (Fixture.db pending) !! 1
    = Some (Fixture.request pending) ∧
  ∃ st, Swaps.status_of_string "accepted" = Some st
    ∧ edge (SwapRequest.status (Fixture.request pending)) st = true
    ∧ status (Swaps.updateStatus 50 2 1 "accepted" (Fixture.db pending)).1 = 200
    ∧ swap_status (Swaps.updateStatus 50 2 1 "accepted" (Fixture.db pending)).2 1
      = Some st.
Proof.
  assert (SwapList.list 2 None "received" (Fixture.db pending) !! 1
          = Some (Fixture.request pending)) as H by (vm_compute; reflexivity).
  split; [exact H|].
  refine (page_actions_on_the_server 50 2 1 None "received" (Fixture.db pending)
            (Fixture.request pending)
            (SwapRequestsPage.StatusUpdate "accepted") H _ _ _).
  - by right.
  - intros ws Hws. vm_compute in Hws. injection Hws as <-. vm_compute. lia.
  - vm_compute. apply list_elem_of_here.
Defined.

(** ** Broadcasts *)

(** A fold that alters the socket of every registry entry alters each
    registered socket once, when no socket is registered twice. *)
Lemma fan_out_once (f : Relay.Socket → Relay.Socket)
    (socks : gmap nat Relay.Socket) (cl : gmap string nat) :
  (∀ u v ws, cl !! u = Some ws → cl !! v = Some ws → u = v) →
  ∀ ws,
    ((∃ u, cl !! u = Some ws) →
       map_fold (λ _ client acc, alter f client acc) socks cl !! ws
       = f <$> socks !! ws)
    ∧ ((∀ u, cl !! u ≠ Some ws) →
       map_fold (λ _ client acc, alter f client acc) socks cl !! ws
       = socks !! ws).
Proof.
  apply (map_fold_weak_ind (λ r (m : gmap string nat),
    (∀ u v ws, m !! u = Some ws → m !! v = Some ws → u = v) →
    ∀ ws, ((∃ u, m !! u = Some ws) → r !! ws = f <$> socks !! ws)
          ∧ ((∀ u, m !! u ≠ Some ws) → r !! ws = socks !! ws))).
  - intros _ ws. split; [|done]. intros [u Hu]. by rewrite lookup_empty in Hu.
  - intros i x m r Hi IH Hinj ws.
    assert (∀ u v w, m !! u = Some w → m !! v = Some w → u = v) as Hinj'.
    { intros u v w Hu Hv. apply (Hinj u v w).
      - rewrite lookup_insert_ne; [done|]. intros <-. congruence.
      - rewrite lookup_insert_ne; [done|]. intros <-. congruence. }
    assert (∀ u, m !! u ≠ Some x) as Hx.
    { intros u Hu. assert (i = u) as <-; [|congruence].
      apply (Hinj i u x); [by rewrite lookup_insert_eq|].
      rewrite lookup_insert_ne; [done|]. intros <-. congruence. }
    specialize (IH Hinj').
    destruct (decide (ws = x)) as [->|Hne].
    + rewrite lookup_alter_eq. split.
      * intros _. by rewrite (proj2 (IH x) Hx).
      * intros Hno. destruct (Hno i). by rewrite lookup_insert_eq.
    + rewrite lookup_alter_ne by done. split.
      * intros [u Hu]. apply (proj1 (IH ws)). exists u.
        destruct (decide (i = u)) as [<-|Hiu].
        -- rewrite lookup_insert_eq in Hu. congruence.
        -- by rewrite lookup_insert_ne in Hu.
      * intros Hno. apply (proj2 (IH ws)). intros u Hu. apply (Hno u).
        rewrite lookup_insert_ne; [done|]. intros <-. congruence.
Qed.

(** X7: in every state the server can reach, broadcastToAll hands the frame
    exactly once to each socket that is the open registry entry of a user,
    leaves every other socket as it was, and leaves the registry as it
    was. *)
Theorem broadcast_to_all_delivers_once (st : Relay.State) (n : string) :
  Relay.reachable st →
  Relay.clients (Relay.broadcastToAll n st) = Relay.clients st
  ∧ ∀ ws s, Relay.sockets st !! ws = Some s →
      ((∃ u, Relay.live st u ws) →
         Relay.sockets (Relay.broadcastToAll n st) !! ws
         = Some (Relay.mkSocket Relay.OPEN (Relay.isAlive s)
                   (Relay.pingInterval s) (Relay.userId s) (Relay.closeCode s)
                   (n :: Relay.sent s)))
      ∧ ((∀ u, ¬ Relay.live st u ws) →
         Relay.sockets (Relay.broadcastToAll n st) !! ws = Some s).
Proof.
  intros Hreach. split; [done|]. intros ws s Hs.
  destruct (reachable_consistent st Hreach) as [Hreg _].
  assert (∀ u v w, Relay.clients st !! u = Some w →
            Relay.clients st !! v = Some w → u = v) as Hinj.
  { intros u v w Hu Hv.
    destruct (Hreg u w Hu) as (s1 & H1 & Hu1 & _).
    destruct (Hreg v w Hv) as (s2 & H2 & Hu2 & _). congruence. }
  pose proof (fan_out_once (Relay.send n) (Relay.sockets st) (Relay.clients st)
                Hinj ws) as [Hin Hout].
  unfold Relay.broadcastToAll. simpl. split.
  - intros (u & Hu & s' & Hs' & Hopen).
    assert (s' = s) as -> by congruence.
    rewrite Hin by eauto. rewrite Hs. simpl. unfold Relay.send.
    by rewrite Hopen.
  - intros Hno.
    destruct (Relay.readyState s) eqn:Hrs.
    2: { (* open: then not registered *)
      rewrite Hout; [done|]. intros u Hu. apply (Hno u). split; [done|].
      by exists s. }
    all: assert (Relay.send n s = s) as Hsend
           by (unfold Relay.send; by rewrite Hrs).
    all: assert (map_fold (λ _ client acc, alter (Relay.send n) client acc)
                   (Relay.sockets st) (Relay.clients st) !! ws
                 = Relay.send n <$> Relay.sockets st !! ws
               ∨ map_fold (λ _ client acc, alter (Relay.send n) client acc)
                   (Relay.sockets st) (Relay.clients st) !! ws
                 = Relay.sockets st !! ws) as [-> | ->];
         [|by rewrite Hs; simpl; rewrite Hsend|done].
    all: destruct (Relay.clients st !! default "" (Relay.userId s)) as [w|] eqn:Hw.
    all: try (destruct (decide (w = ws)) as [->|Hne]; [left; eauto|]).
    all: right; apply Hout; intros u Hu;
         destruct (Hreg u ws Hu) as (s1 & H1 & Hu1 & _);
         assert (s1 = s) as -> by congruence;
         rewrite Hu1 in Hw; simpl in Hw; congruence.
Qed.

Lemma broadcast_to_all_delivers_once_witness :
  let st := Relay.step (Relay.Connection 7 (Some (Some "42"))) Relay.init in
  Relay.reachable st
  ∧ Relay.clients (Relay.broadcastToAll "hello" st) = Relay.clients st
  ∧ ∀ ws s, Relay.sockets st !! ws = Some s →
      ((∃ u, Relay.live st u ws) →
         Relay.sockets (Relay.broadcastToAll "hello" st) !! ws
         = Some (Relay.mkSocket Relay.OPEN (Relay.isAlive s)
                   (Relay.pingInterval s) (Relay.userId s) (Relay.closeCode s)
                   ("hello" :: Relay.sent s)))
      ∧ ((∀ u, ¬ Relay.live st u ws) →
         Relay.sockets (Relay.broadcastToAll "hello" st) !! ws = Some s).
Proof.
  intros st.
  assert (Relay.reachable st) as H
    by exact (Relay.reachable_step _ _ Relay.reachable_init).
  split; [exact H|].
  exact (broadcast_to_all_delivers_once st "hello" H).
Defined.

(** ** Reconnecting the notification socket *)

Lemma onclose_counter code n :
  0 ≤ n ≤ 5 →
  0 ≤ (NotificationProvider.onclose code n).1 ≤ 5
  ∧ n ≤ (NotificationProvider.onclose code n).1
  ∧ ∀ d, (NotificationProvider.onclose code n).2 = Some d →
      d = 1000 * 2 ^ n ∧ n < 5 ∧ (NotificationProvider.onclose code n).1 = n + 1.
Proof.
  intros Hn. unfold NotificationProvider.onclose,
    NotificationProvider.maxReconnectAttempts.
  destruct (bool_decide (code = 1000) || bool_decide (code = 4000)); simpl.
  { split; [lia|]. split; [lia|]. done. }
  case_bool_decide as Hlt; simpl.
  - split; [lia|]. split; [lia|]. intros d [= <-]. split; [|lia].
    assert (n = 0 ∨ n = 1 ∨ n = 2 ∨ n = 3 ∨ n = 4) as Hc by lia.
    destruct Hc as [-> | [-> | [-> | [-> | ->]]]]; reflexivity.
  - split; [lia|]. split; [lia|]. done.
Qed.

(** X8: however the notification sockets of a page open and close, the
    reconnect counter stays between 0 and 5 and every reconnect timer is set
    to 1000·2^k ms for some k < 5, so at most 16 s: the 30 s cap is never
    reached.  With no successful connection in between, at most five timers
    are set, each delay above the one before. *)
Theorem reconnect_delays_bounded (es : list NotificationProvider.Event) (n : Z) :
  0 ≤ n ≤ 5 →
  0 ≤ (NotificationProvider.run es n).1 ≤ 5
  ∧ Forall (λ d, ∃ k, 0 ≤ k < 5 ∧ d = 1000 * 2 ^ k ∧ d ≤ 16000)
      (NotificationProvider.run es n).2
  ∧ (NotificationProvider.Opened ∉ es →
       Z.of_nat (length (NotificationProvider.run es n).2) ≤ 5 - n
       ∧ ∀ i d d', (NotificationProvider.run es n).2 !! i = Some d →
           (NotificationProvider.run es n).2 !! S i = Some d' → d < d').
Proof.
  revert n.
  assert (∀ es n, 0 ≤ n ≤ 5 → NotificationProvider.Opened ∉ es →
            ∀ d, head (NotificationProvider.run es n).2 = Some d →
              1000 * 2 ^ n ≤ d) as Hhead.
  { intros es'. induction es' as [|e rest IH]; intros n Hn Hno d; [done|].
    destruct e as [|code]; [destruct Hno; apply list_elem_of_here|].
    assert (NotificationProvider.Opened ∉ rest) as Hno'
      by (intros ?; apply Hno; by apply list_elem_of_further).
    simpl.
    destruct (onclose_counter code n Hn) as (Hr & Hmono & Htimer).
    destruct (NotificationProvider.onclose code n) as [n1 timer] eqn:Hoc.
    simpl in *.
    destruct (NotificationProvider.run rest n1) as [n2 ds] eqn:Hrun. simpl.
    destruct timer as [t|]; simpl.
    - intros [= <-]. destruct (Htimer t eq_refl) as (-> & _). lia.
    - intros Hd. specialize (IH n1 Hr Hno' d). rewrite Hrun in IH.
      specialize (IH Hd).
      assert (2 ^ n ≤ 2 ^ n1) by (apply Z.pow_le_mono_r; lia). lia. }
  induction es as [|e rest IH]; intros n Hn.
  - simpl. split; [lia|]. split; [constructor|]. intros _. split; [lia|].
    intros i d d' Hd. done.
  - destruct e as [|code]; simpl.
    + destruct (IH 0 ltac:(lia)) as (Hr & Hall & _).
      split; [exact Hr|]. split; [exact Hall|].
      intros Hno. destruct Hno. apply list_elem_of_here.
    + destruct (onclose_counter code n Hn) as (Hr & Hmono & Htimer).
      pose proof (Hhead rest (NotificationProvider.onclose code n).1 Hr) as Hh.
      destruct (NotificationProvider.onclose code n) as [n1 timer] eqn:Hoc.
      simpl in *.
      destruct (IH n1 Hr) as (Hr2 & Hall & Hseq).
      destruct (NotificationProvider.run rest n1) as [n2 ds] eqn:Hrun.
      simpl in *. split; [exact Hr2|]. split.
      * apply Forall_app. split; [|exact Hall].
        destruct timer as [t|]; simpl; [|constructor].
        destruct (Htimer t eq_refl) as (-> & Hlt & _).
        constructor; [|constructor]. exists n. split; [lia|]. split; [done|].
        assert (2 ^ n ≤ 2 ^ 4) by (apply Z.pow_le_mono_r; lia).
        change (2 ^ 4) with 16 in *. lia.
      * intros Hno.
        assert (NotificationProvider.Opened ∉ rest) as Hno'
          by (intros ?; apply Hno; by apply list_elem_of_further).
        destruct (Hseq Hno') as [Hlen Hinc].
        destruct timer as [t|]; simpl.
        -- destruct (Htimer t eq_refl) as (-> & Hlt & ->).
           split; [lia|]. intros i d d' Hd Hd'. destruct i as [|i].
           ++ simpl in Hd, Hd'. injection Hd as <-.
              specialize (Hh Hno' d').
              rewrite <- head_lookup in Hd'. specialize (Hh Hd').
              rewrite Z.pow_add_r in Hh by lia.
              assert (0 < 2 ^ n) by (apply Z.pow_pos_nonneg; lia).
              change (2 ^ 1) with 2 in Hh. lia.
           ++ simpl in Hd, Hd'. by apply (Hinc i).
        -- split; [lia|]. exact Hinc.
Qed.

Lemma reconnect_delays_bounded_witness :
  0 ≤ 0 ≤ 5
  ∧ 0 ≤ (NotificationProvider.run
           [NotificationProvider.Closed 1006; NotificationProvider.Closed 1006] 0).1 ≤ 5
  ∧ Forall (λ d, ∃ k, 0 ≤ k < 5 ∧ d = 1000 * 2 ^ k ∧ d ≤ 16000)
      (NotificationProvider.run
         [NotificationProvider.Closed 1006; NotificationProvider.Closed 1006] 0).2.
Proof.
  assert (0 ≤ 0 ≤ 5) as H by lia.
  split; [exact H|].
  pose proof (reconnect_delays_bounded
    [NotificationProvider.Closed 1006; NotificationProvider.Closed 1006] 0 H)
    as (H1 & H2 & _).
  split; [exact H1 | exact H2].
Defined.

(** ** The pagination bar *)

Lemma page_buttons_spec (totalPages currentPage p : Z) :
  p ∈ HomePage.page_buttons totalPages currentPage ↔
  Z.max 1 (Z.min (totalPages - 4) (currentPage - 2)) ≤ p
    < Z.max 1 (Z.min (totalPages - 4) (currentPage - 2)) + Z.min 5 totalPages.
Proof.
  unfold HomePage.page_buttons. rewrite list_elem_of_fmap. split.
  - intros (i & -> & Hi). apply elem_of_seq in Hi. lia.
  - intros Hp.
    exists (Z.to_nat (p - Z.max 1 (Z.min (totalPages - 4) (currentPage - 2)))).
    split; [lia|]. apply elem_of_seq. lia.
Qed.

Lemma page_changes_in_range (totalPages currentPage : Z) :
  1 ≤ currentPage ≤ totalPages →
  ∀ p, p ∈ HomePage.page_changes totalPages currentPage → 1 ≤ p ≤ totalPages.
Proof.
  intros Hc p. unfold HomePage.page_changes.
  case_bool_decide as Ht; [|by intros ?%elem_of_nil].
  rewrite !elem_of_app, page_buttons_spec. intros [Hp | [Hp | Hp]].
  - case_bool_decide; [by apply elem_of_nil in Hp|].
    apply list_elem_of_singleton in Hp. lia.
  - lia.
  - case_bool_decide; [by apply elem_of_nil in Hp|].
    apply list_elem_of_singleton in Hp. lia.
Qed.

(** X9: on a page between 1 and totalPages, the bar of HomePage shows
    min(5, totalPages) numbered buttons, distinct and the current page among
    them, and every control that is not disabled leads to a page between 1
    and totalPages. *)
Theorem page_bar_stays_in_range (totalPages currentPage : Z) :
  1 ≤ currentPage ≤ totalPages →
  Z.of_nat (length (HomePage.page_buttons totalPages currentPage))
    = Z.min 5 totalPages
  ∧ currentPage ∈ HomePage.page_buttons totalPages currentPage
  ∧ NoDup (HomePage.page_buttons totalPages currentPage)
  ∧ ∀ p, p ∈ HomePage.page_changes totalPages currentPage → 1 ≤ p ≤ totalPages.
Proof.
  intros Hc. split; [|split; [|split]].
  - unfold HomePage.page_buttons. rewrite length_fmap, length_seq. lia.
  - apply page_buttons_spec. lia.
  - unfold HomePage.page_buttons.
    apply NoDup_fmap_2; [|apply NoDup_seq]. intros i j Hij. lia.
  - by apply page_changes_in_range.
Qed.

Lemma page_bar_stays_in_range_witness :
  1 ≤ 9 ≤ 10
  ∧ Z.of_nat (length (HomePage.page_buttons 10 9)) = Z.min 5 10
  ∧ 9 ∈ HomePage.page_buttons 10 9
  ∧ NoDup (HomePage.page_buttons 10 9)
  ∧ ∀ p, p ∈ HomePage.page_changes 10 9 → 1 ≤ p ≤ 10.
Proof.
  assert (1 ≤ 9 ≤ 10) as H by lia.
  split; [exact H|]. exact (page_bar_stays_in_range 10 9 H).
Defined.

(** ** Pages of the user search *)

Lemma Qceiling_unique (x : Q) (z : Z) :
  (inject_Z z < x)%Q → (x <= inject_Z (z + 1))%Q → Qceiling x = z + 1.
Proof.
  intros Hlo Hhi.
  pose proof (Qle_ceiling x) as H1. pose proof (Qceiling_lt x) as H2.
  assert (z < Qceiling x) as Ha.
  { rewrite Zlt_Qlt. eapply Qlt_le_trans; eauto. }
  assert (Qceiling x - 1 < z + 1) as Hb.
  { rewrite Zlt_Qlt. eapply Qlt_le_trans; eauto. }
  lia.
Qed.

Lemma b64_div_exact (q d : Z) :
  0 < q < 2 ^ 53 → 0 < d → (Real.b64_div (q * d) d == inject_Z q)%Q.
Proof.
  intros Hq Hd. unfold Real.b64_div. rewrite Qred_correct.
  assert (0 < q * d) as Hn by nia.
  destruct (exponent_bounds (q * d) d Hn Hd) as [Hpos Hneg].
  set (e := Real.exponent (q * d) d) in *. clearbody e.
  assert (0 ≤ e) as He.
  { destruct (decide (0 ≤ e)) as [|Hlt]; [done|].
    destruct (Hneg ltac:(lia)) as [_ Hup].
    assert (2 ≤ 2 ^ (- e)).
    { change 2 with (2 ^ 1) at 1. apply Z.pow_le_mono_r; lia. }
    nia. }
  destruct (Hpos He) as [Hlo Hup].
  assert (e ≤ 52) as He2.
  { destruct (decide (e ≤ 52)) as [|Hgt]; [done|].
    assert (2 ^ 53 ≤ 2 ^ e) by (apply Z.pow_le_mono_r; lia). nia. }
  rewrite (proj2 (Z.leb_le 0 (52 - e))) by lia.
  assert (Real.round_half_even (q * d * 2 ^ (52 - e)) d = q * 2 ^ (52 - e)) as ->.
  { unfold Real.round_half_even.
    replace (q * d * 2 ^ (52 - e)) with (q * 2 ^ (52 - e) * d) by ring.
    rewrite Z.mod_mul, Z.div_mul by lia. simpl.
    destruct d; done. }
  rewrite scale2_down by lia.
  assert (0 < 2 ^ (52 - e)) as Hp by (apply Z.pow_pos_nonneg; lia).
  unfold Qeq, inject_Z. simpl. rewrite Z2Pos.id by done. ring.
Qed.

Lemma ceiling_by_div_mod (total limit : Z) :
  0 < limit →
  (total + limit - 1) / limit
  = total / limit + (if decide (total mod limit = 0) then 0 else 1).
Proof.
  intros Hl.
  pose proof (Z.div_mod total limit ltac:(lia)) as Hdm.
  pose proof (Z.mod_pos_bound total limit Hl) as Hr.
  set (q := total / limit) in *. set (r := total mod limit) in *.
  clearbody q r. symmetry.
  destruct (decide (r = 0)) as [Hr0|Hr0].
  - apply Z.div_unique with (r := limit - 1); lia.
  - apply Z.div_unique with (r := r - 1); lia.
Qed.

Lemma totalPages_div_mod (total limit : Z) :
  0 ≤ total < 2 ^ 53 → 0 < limit →
  UserSearch.totalPages total limit
  = total / limit + (if decide (total mod limit = 0) then 0 else 1).
Proof.
  intros Ht Hl. unfold UserSearch.totalPages.
  case_bool_decide as Hz.
  { subst. rewrite Z.div_0_l, Z.mod_0_l by lia. done. }
  pose proof (Z.div_mod total limit ltac:(lia)) as Hdm.
  pose proof (Z.mod_pos_bound total limit Hl) as Hr.
  set (q := total / limit) in *. set (r := total mod limit) in *.
  clearbody q r.
  assert (0 ≤ q) as Hq0 by nia.
  destruct (decide (r = 0)) as [Hr0|Hr0].
  - (* limit divides total *)
    assert (total = q * limit) as -> by lia.
    assert (0 < q) as Hq by nia.
    assert (q < 2 ^ 53) as Hq2 by nia.
    rewrite (Qceiling_comp _ _ (b64_div_exact q limit ltac:(lia) Hl)).
    rewrite Qceiling_Z. lia.
  - pose proof (b64_div_near total limit ltac:(lia) Hl) as Hnear.
    apply Qabs_Qle_condition in Hnear as [Hlo Hhi].
    set (fl := Real.b64_div total limit) in *. clearbody fl.
    assert (Z.pos (Z.to_pos limit) = limit) as HD by (by apply Z2Pos.id).
    assert ((total # Z.to_pos limit) * (1 # 2 ^ 53) < 1 # Z.to_pos limit)%Q
      as Herr.
    { unfold Qlt, Qmult. simpl. rewrite !Pos2Z.inj_mul, HD.
      change (Z.pos (2 ^ 53)) with (2 ^ 53). nia. }
    assert (inject_Z q <= (total # Z.to_pos limit) - (1 # Z.to_pos limit))%Q
      as Hq1.
    { unfold Qle, Qminus, Qplus, Qopp, inject_Z. simpl. rewrite !Pos2Z.inj_mul, HD.
      nia. }
    assert ((total # Z.to_pos limit) + (1 # Z.to_pos limit)
            <= inject_Z (q + 1))%Q as Hq2.
    { unfold Qle, Qplus, inject_Z. simpl. rewrite !Pos2Z.inj_mul, HD. nia. }
    apply Qceiling_unique; lra.
Qed.

(** X10: the number of pages the search reports, computed with a binary64
    division and Math.ceil, is the exact ceiling of total/limit for every
    count below 2^53: rounding the quotient never moves it across an
    integer. *)
Theorem totalPages_is_exact_ceiling (total limit : Z) :
  0 ≤ total < 2 ^ 53 → 0 < limit →
  UserSearch.totalPages total limit = (total + limit - 1) / limit.
Proof.
  intros Ht Hl. rewrite totalPages_div_mod by done.
  by rewrite ceiling_by_div_mod.
Qed.

Lemma totalPages_is_exact_ceiling_witness :
  0 ≤ 25 < 2 ^ 53 ∧ 0 < 12
  ∧ UserSearch.totalPages 25 12 = (25 + 12 - 1) / 12.
Proof.
  assert (0 ≤ 25 < 2 ^ 53) as H1 by (split; [lia | reflexivity]).
  assert (0 < 12) as H2 by lia.
  split; [exact H1|]. split; [exact H2|].
  exact (totalPages_is_exact_ceiling 25 12 H1 H2).
Defined.

Lemma search_window {A} (p l : nat) (rows : list A) :
  (1 ≤ p)%nat →
  (UserSearch.search (Z.of_nat p) (Z.of_nat l) rows).1
  = take l (drop ((p - 1) * l) rows).
Proof.
  intros Hp. unfold UserSearch.search, UserSearch.LIMIT_OFFSET. simpl.
  rewrite bool_decide_eq_false_2 by lia. rewrite Nat2Z.id.
  f_equal. f_equal.
  replace ((Z.of_nat p - 1) * Z.of_nat l) with (Z.of_nat ((p - 1) * l)).
  - apply Nat2Z.id.
  - rewrite Nat2Z.inj_mul, Nat2Z.inj_sub by done. done.
Qed.

Lemma windows_concat {A} (l : nat) (rows : list A) (n : nat) :
  concat ((λ p, take l (drop ((p - 1) * l) rows)) <$> seq 1 n)
  = take (n * l) rows.
Proof.
  induction n as [|n IH]; [done|].
  rewrite seq_S, fmap_app, concat_app, IH. simpl.
  rewrite app_nil_r. replace (n - 0)%nat with n by lia.
  rewrite take_take_drop. f_equal. lia.
Qed.

(** X11: the pages of a search cover the result: for a positive limit the
    pages 1 .. totalPages, one after the other, are the matching users in
    order; each of these pages holds between 1 and limit users and every
    later page is empty.  So every page the pagination bar of HomePage can
    ask for has users on it. *)
Theorem search_pages_cover {A} (limit : Z) (matching : list A) :
  0 < limit → Z.of_nat (length matching) < 2 ^ 53 →
  let n := UserSearch.totalPages (Z.of_nat (length matching)) limit in
  concat ((λ p, (UserSearch.search (Z.of_nat p) limit matching).1)
            <$> seq 1 (Z.to_nat n)) = matching
  ∧ (∀ p, 1 ≤ p ≤ n →
       0 < Z.of_nat (length (UserSearch.search p limit matching).1) ≤ limit)
  ∧ (∀ p, n < p → (UserSearch.search p limit matching).1 = [])
  ∧ (∀ currentPage p, 1 ≤ currentPage ≤ n →
       p ∈ HomePage.page_changes n currentPage →
       (UserSearch.search p limit matching).1 ≠ []).
Proof.
  intros Hl Hlen n.
  assert (n = (Z.of_nat (length matching) + limit - 1) / limit) as Hn.
  { unfold n. rewrite totalPages_div_mod by lia. by rewrite ceiling_by_div_mod. }
  clearbody n.
  assert (∃ l, limit = Z.of_nat l ∧ (0 < l)%nat) as (l & -> & Hl0).
  { exists (Z.to_nat limit). lia. }
  assert (∃ k, n = Z.of_nat k) as [k ->].
  { exists (Z.to_nat n). rewrite Z2Nat.id; [done|]. subst n.
    apply Z.div_pos; lia. }
  assert ((k - 1) * l < length matching ∨ k = 0 ∧ length matching = 0)%nat
    as Hlast.
  { destruct k as [|k]; [right|left].
    - split; [done|].
      assert (Z.of_nat (length matching) + Z.of_nat l - 1 < Z.of_nat l); [|lia].
      symmetry in Hn. simpl in Hn. apply Z.div_small_iff in Hn; lia.
    - pose proof (Z.div_mod (Z.of_nat (length matching) + Z.of_nat l - 1)
                    (Z.of_nat l) ltac:(lia)) as Hdm.
      pose proof (Z.mod_pos_bound (Z.of_nat (length matching) + Z.of_nat l - 1)
                    (Z.of_nat l) ltac:(lia)) as Hr.
      rewrite <- Hn in Hdm.
      set (r := (Z.of_nat (length matching) + Z.of_nat l - 1) `mod` Z.of_nat l) in *.
      clearbody r. nia. }
  assert (length matching ≤ k * l)%nat as Hall.
  { pose proof (Z.div_mod (Z.of_nat (length matching) + Z.of_nat l - 1)
                  (Z.of_nat l) ltac:(lia)) as Hdm.
    pose proof (Z.mod_pos_bound (Z.of_nat (length matching) + Z.of_nat l - 1)
                  (Z.of_nat l) ltac:(lia)) as Hr.
    rewrite <- Hn in Hdm.
    set (r := (Z.of_nat (length matching) + Z.of_nat l - 1) `mod` Z.of_nat l) in *.
    clearbody r. nia. }
  assert (∀ p, 1 ≤ p ≤ Z.of_nat k →
            0 < Z.of_nat (length (UserSearch.search p (Z.of_nat l) matching).1)
              ≤ Z.of_nat l) as Hpages.
  { intros p Hp.
    assert (∃ j, p = Z.of_nat j ∧ (1 ≤ j ≤ k)%nat) as (j & -> & Hj).
    { exists (Z.to_nat p). lia. }
    rewrite search_window by lia.
    rewrite length_take, length_drop.
    assert ((j - 1) * l ≤ (k - 1) * l)%nat by (apply Nat.mul_le_mono_r; lia).
    lia. }
  split; [|split; [exact Hpages|split]].
  - rewrite Nat2Z.id.
    rewrite (list_fmap_ext _ (λ p, take l (drop ((p - 1) * l) matching))
               (seq 1 k)).
    + rewrite windows_concat. by apply take_ge.
    + intros i p Hp. apply search_window.
      apply lookup_seq in Hp. lia.
  - intros p Hp.
    assert (∃ j, p = Z.of_nat j ∧ (k < j)%nat) as (j & -> & Hj).
    { exists (Z.to_nat p). lia. }
    rewrite search_window by lia.
    rewrite drop_ge; [by rewrite take_nil|].
    assert (k * l ≤ (j - 1) * l)%nat by (apply Nat.mul_le_mono_r; lia).
    lia.
  - intros c p Hc Hp Hnil.
    specialize (Hpages p (page_changes_in_range (Z.of_nat k) c Hc p Hp)). rewrite Hnil in Hpages. simpl in Hpages.
    lia.
Qed.

Lemma search_pages_cover_witness :
  0 < 2 ∧ Z.of_nat (length [1; 2; 3; 4; 5]) < 2 ^ 53
  ∧ concat ((λ p, (UserSearch.search (Z.of_nat p) 2 [1; 2; 3; 4; 5]).1)
              <$> seq 1 (Z.to_nat
                    (UserSearch.totalPages (Z.of_nat (length [1; 2; 3; 4; 5])) 2)))
    = [1; 2; 3; 4; 5].
Proof.
  assert (0 < 2) as H1 by lia.
  assert (Z.of_nat (length [1; 2; 3; 4; 5]) < 2 ^ 53) as H2 by reflexivity.
  split; [exact H1|]. split; [exact H2|].
  exact (proj1 (search_pages_cover 2 [1; 2; 3; 4; 5] H1 H2)).
Defined.

(** ** Tokens and accounts *)

Lemma split_without (c : Ascii.ascii) (s : string) :
  occurs c s = false → Auth.split c s = [s].
Proof.
  induction s as [|a s IH]; [done|]. simpl.
  intros [Ha Hs]%orb_false_iff. rewrite Ha. by rewrite (IH Hs).
Qed.

Lemma split_at_first (c : Ascii.ascii) (w s : string) :
  occurs c w = false → Auth.split c (w ++ String c s) = w :: Auth.split c s.
Proof.
  induction w as [|a w IH]; simpl.
  - intros _. by rewrite Ascii.eqb_refl.
  - intros [Ha Hw]%orb_false_iff. rewrite Ha. by rewrite (IH Hw).
Qed.

Lemma second_word (scheme token : string) :
  occurs Auth.space scheme = false → occurs Auth.space token = false →
  Auth.split Auth.space (scheme ++ String Auth.space token) !! 1%nat
  = Some token.
Proof.
  intros Hs Ht. rewrite split_at_first by done. simpl.
  by rewrite split_without.
Qed.

Lemma bearer_token_lemma
    (verify : Z → string → option Auth.Claims) (now : Z) (token : string) :
  token ≠ "" → occurs Auth.space token = false →
  Auth.authenticateToken verify now (Auth.request_interceptor (Some token))
    = match verify now token with
      | Some decoded => Auth.Next decoded
      | None => Auth.Rejected (reply 403 (Error "Invalid or expired token"))
      end
  ∧ ∀ scheme, scheme ≠ "" → occurs Auth.space scheme = false →
      Auth.authenticateToken verify now (Some (scheme ++ " " ++ token))
      = match verify now token with
        | Some decoded => Auth.Next decoded
        | None => Auth.Rejected (reply 403 (Error "Invalid or expired token"))
        end.
Proof.
  intros Hne Hsp.
  assert (∀ scheme, scheme ≠ "" → occurs Auth.space scheme = false →
            Auth.authenticateToken verify now (Some (scheme ++ " " ++ token))
            = match verify now token with
              | Some decoded => Auth.Next decoded
              | None => Auth.Rejected (reply 403 (Error "Invalid or expired token"))
              end) as Hany.
  { intros scheme Hs Hocc. unfold Auth.authenticateToken.
    change (scheme ++ " " ++ token) with (scheme ++ String Auth.space token).
    destruct (scheme ++ String Auth.space token) as [|a rest] eqn:E.
    { destruct scheme; discriminate. }
    rewrite <- E, second_word by done.
    destruct token; [done|]. done. }
  assert (Auth.request_interceptor (Some token) = Some ("Bearer" ++ " " ++ token))
    as Hreq.
  { unfold Auth.request_interceptor. destruct token; [done|]. done. }
  split; [|exact Hany].
  rewrite Hreq. apply Hany; [done|]. reflexivity.
Qed.

(** X12: the header the axios interceptor builds from a stored token, Bearer
    and the token, brings exactly that token to jwt.verify: the request is
    let through with the decoded payload, or answered 403 when verification
    fails.  Without a stored token no header is set and the answer is 401.
    The word before the token is not looked at, any other scheme does as
    well.  The client drops its token on 401 only, so a token refused with
    403 stays in localStorage. *)
Theorem bearer_token_reaches_verify
    (verify : Z → string → option Auth.Claims) (now : Z) (token : string) :
  token ≠ "" → occurs Auth.space token = false →
  Auth.authenticateToken verify now (Auth.request_interceptor (Some token))
    = match verify now token with
      | Some decoded => Auth.Next decoded
      | None => Auth.Rejected (reply 403 (Error "Invalid or expired token"))
      end
  ∧ Auth.authenticateToken verify now (Auth.request_interceptor None)
    = Auth.Rejected (reply 401 (Error "Access token required"))
  ∧ (∀ scheme, scheme ≠ "" → occurs Auth.space scheme = false →
       Auth.authenticateToken verify now (Some (scheme ++ " " ++ token))
       = Auth.authenticateToken verify now
           (Auth.request_interceptor (Some token)))
  ∧ (verify now token = None →
       ∃ r, Auth.authenticateToken verify now
              (Auth.request_interceptor (Some token)) = Auth.Rejected r
            ∧ Auth.response_interceptor (status r) (Some token) = Some token).
Proof.
  intros Hne Hsp.
  destruct (bearer_token_lemma verify now token Hne Hsp) as [Hbearer Hany].
  split; [exact Hbearer|]. split; [done|]. split.
  - intros scheme Hs Hocc. rewrite Hbearer. by apply Hany.
  - intros Hv. rewrite Hbearer, Hv. eexists. split; [done|]. done.
Qed.

Lemma bearer_token_reaches_verify_witness :
  "e@x.org" ≠ "" ∧ occurs Auth.space "e@x.org" = false
  ∧ Auth.authenticateToken AuthFixture.verify 0
      (Auth.request_interceptor (Some "e@x.org"))
    = match AuthFixture.verify 0 "e@x.org" with
      | Some decoded => Auth.Next decoded
      | None => Auth.Rejected (reply 403 (Error "Invalid or expired token"))
      end.
Proof.
  assert ("e@x.org" ≠ "") as H1 by done.
  assert (occurs Auth.space "e@x.org" = false) as H2 by reflexivity.
  split; [exact H1|]. split; [exact H2|].
  exact (proj1 (bearer_token_reaches_verify AuthFixture.verify 0 "e@x.org" H1 H2)).
Defined.

Lemma select_where_unique {A} (p : A → bool) (m : gmap Z A) k v :
  (∀ k1 k2 v1 v2, m !! k1 = Some v1 → m !! k2 = Some v2 →
     p v1 = true → p v2 = true → k1 = k2) →
  m !! k = Some v → p v = true → select_where p m = Some (k, v).
Proof.
  intros Huniq Hk Hp.
  destruct (select_where p m) as [[k' v']|] eqn:E.
  - apply select_where_Some in E as [Hp' Hk'].
    assert (k' = k) as -> by eauto. congruence.
  - rewrite select_where_None in E. rewrite (E k v Hk) in Hp. done.
Qed.

Lemma register_outcome isEmail hash sign now salt email password name location st :
  Auth.register isEmail hash sign now salt email password name location st
  = if negb (Auth.userRegistrationSchema isEmail email password)
    then (Auth.Failure (reply 400 (Error "Validation failed")), st)
    else match select_where (Auth.has_email email) (users (Auth.db st)) with
    | Some _ =>
        (Auth.Failure (reply 400 (Error "User already exists with this email")), st)
    | None =>
        let username := default "" (head (Auth.split Auth.at_sign email)) in
        match select_where (Auth.has_username username) (Auth.credentials st) with
        | Some _ => (Auth.Failure (reply 500 (Error "Internal server error")), st)
        | None =>
            let userId := next_rowid (Auth.seq_users st) (users (Auth.db st)) in
            (Auth.Session 201 "User registered successfully"
               (sign now (Auth.mkClaims userId email false)) userId,
             Auth.mkStore
               (set_users (insert userId (User.mk email 0 false now))
                  (Auth.db st))
               (<[userId := Auth.mkCredentials username (hash password salt)
                              match Ratings.or_null name with
                              | Some n => n
                              | None => username
                              end
                              (Ratings.or_null location)]> (Auth.credentials st))
               userId)
        end
    end.
Proof. reflexivity. Qed.

(** X13: registering keeps the accounts unique and never touches an
    existing account, and its reply is decided as follows.  A body that
    fails userRegistrationSchema is answered 400; else an email that is
    registered is answered 400; else, when the part of the email before the
    @ is the username of an account, the INSERT fails on the UNIQUE
    constraint and the answer is 500; else the answer is 201, with a token
    for the new id, and one user is added under a fresh id, not an
    administrator, with that username and the hash of the password.  A
    request that fails leaves the store as it was. *)
Theorem register_keeps_accounts_unique
    (isEmail : string → bool) (hash : string → string → string)
    (sign : Z → Auth.Claims → string)
    (now : Z) (salt email password : string) (name location : option string)
    (st st' : Auth.Store) (r : Auth.Reply) :
  accounts_unique st →
  Auth.register isEmail hash sign now salt email password name location st
    = (r, st') →
  let username := default "" (head (Auth.split Auth.at_sign email)) in
  let valid := Auth.userRegistrationSchema isEmail email password in
  let email_taken := ∃ k u, users (Auth.db st) !! k = Some u ∧ User.email u = email in
  let username_taken :=
    ∃ k c, Auth.credentials st !! k = Some c ∧ Auth.username c = username in
  accounts_unique st'
  ∧ (∀ k u, users (Auth.db st) !! k = Some u → users (Auth.db st') !! k = Some u)
  ∧ (∀ k c, Auth.credentials st !! k = Some c → Auth.credentials st' !! k = Some c)
  ∧ match r with
    | Auth.Failure f => st' = st
    | Auth.Session code message token userId =>
        code = 201 ∧ message = "User registered successfully"
        ∧ token = sign now (Auth.mkClaims userId email false)
        ∧ users (Auth.db st) !! userId = None
        ∧ Auth.credentials st !! userId = None
        ∧ users (Auth.db st') !! userId = Some (User.mk email 0 false now)
        ∧ Auth.credentials st' !! userId
          = Some (Auth.mkCredentials username (hash password salt)
                    (default username (Ratings.or_null name))
                    (Ratings.or_null location))
        ∧ ∀ k, k ≠ userId →
            users (Auth.db st') !! k = users (Auth.db st) !! k
            ∧ Auth.credentials st' !! k = Auth.credentials st !! k
    end
  ∧ (valid = false → r = Auth.Failure (reply 400 (Error "Validation failed")))
  ∧ (valid = true → email_taken →
       r = Auth.Failure (reply 400 (Error "User already exists with this email")))
  ∧ (valid = true → ¬ email_taken → username_taken →
       r = Auth.Failure (reply 500 (Error "Internal server error")))
  ∧ (valid = true → ¬ email_taken → ¬ username_taken →
       ∃ token userId,
         r = Auth.Session 201 "User registered successfully" token userId).
Proof.
  intros (Hdom & Hemail & Huser) Hreg username valid email_taken username_taken.
  rewrite register_outcome in Hreg. fold username valid in Hreg.
  destruct valid eqn:Hv; simpl in Hreg.
  2: { injection Hreg as <- <-.
       split; [done|]. split; [done|]. split; [done|]. split; [done|].
       split; [done|]. split; [by intros [=]|]. split; by intros [=]. }
  destruct (select_where (Auth.has_email email) (users (Auth.db st)))
    as [[k0 u0]|] eqn:Hsel.
  { injection Hreg as <- <-.
    apply select_where_Some in Hsel as [Hp Hk0].
    apply bool_decide_eq_true in Hp.
    assert email_taken as Htaken by (by exists k0, u0).
    split; [done|]. split; [done|]. split; [done|]. split; [done|].
    split; [by intros [=]|]. split; [done|].
    split; intros _ Hn; by destruct Hn. }
  rewrite select_where_None in Hsel.
  assert (¬ email_taken) as Hnew.
  { intros (k & u & Hk & He). specialize (Hsel k u Hk).
    unfold Auth.has_email in Hsel. by rewrite bool_decide_eq_true_2 in Hsel. }
  destruct (select_where _ (Auth.credentials st)) as [[k1 c1]|] eqn:Hsel2.
  { injection Hreg as <- <-.
    apply select_where_Some in Hsel2 as [Hp Hk1].
    apply bool_decide_eq_true in Hp.
    assert username_taken as Htaken by (by exists k1, c1).
    split; [done|]. split; [done|]. split; [done|]. split; [done|].
    split; [by intros [=]|]. split; [by intros _ Hn; destruct Hnew|].
    split; [done|]. intros _ _ Hn. by destruct Hn. }
  rewrite select_where_None in Hsel2.
  assert (¬ username_taken) as Hfree.
  { intros (k & c & Hk & Hc). specialize (Hsel2 k c Hk).
    unfold Auth.has_username in Hsel2. by rewrite bool_decide_eq_true_2 in Hsel2. }
  injection Hreg as <- <-. simpl.
  set (userId := next_rowid (Auth.seq_users st) (users (Auth.db st))).
  pose proof (next_rowid_fresh (Auth.seq_users st) (users (Auth.db st))) as Hfresh.
  fold userId in Hfresh.
  assert (Auth.credentials st !! userId = None) as Hfresh2.
  { destruct (Auth.credentials st !! userId) eqn:E; [|done].
    destruct (proj2 (Hdom userId) ltac:(eauto)) as [u Hu]. congruence. }
  split; [|split; [|split; [|split]]].
  - split; [|split]; simpl.
    + intros k. destruct (decide (k = userId)) as [->|Hne].
      * rewrite !lookup_insert_eq. split; eauto.
      * rewrite !lookup_insert_ne by done. apply Hdom.
    + intros k1 k2 u1 u2 H1 H2 He.
      destruct (decide (k1 = userId)) as [->|Hn1];
        destruct (decide (k2 = userId)) as [->|Hn2]; [done| | |].
      * rewrite lookup_insert_eq in H1. rewrite lookup_insert_ne in H2 by done.
        injection H1 as <-. simpl in He. destruct Hnew. by exists k2, u2.
      * rewrite lookup_insert_eq in H2. rewrite lookup_insert_ne in H1 by done.
        injection H2 as <-. simpl in He. destruct Hnew. by exists k1, u1.
      * rewrite lookup_insert_ne in H1, H2 by done. eauto.
    + intros k1 k2 c1 c2 H1 H2 He.
      destruct (decide (k1 = userId)) as [->|Hn1];
        destruct (decide (k2 = userId)) as [->|Hn2]; [done| | |].
      * rewrite lookup_insert_eq in H1. rewrite lookup_insert_ne in H2 by done.
        injection H1 as <-. simpl in He. destruct Hfree. by exists k2, c2.
      * rewrite lookup_insert_eq in H2. rewrite lookup_insert_ne in H1 by done.
        injection H2 as <-. simpl in He. destruct Hfree. by exists k1, c1.
      * rewrite lookup_insert_ne in H1, H2 by done. eauto.
  - intros k u Hk. rewrite lookup_insert_ne; [done|]. intros <-. congruence.
  - intros k c Hk. rewrite lookup_insert_ne; [done|]. intros <-. congruence.
  - split; [done|]. split; [done|]. split; [done|]. split; [done|].
    split; [done|]. split; [by rewrite lookup_insert_eq|].
    split.
    + by rewrite lookup_insert_eq.
    + intros k Hne. by rewrite !lookup_insert_ne.
  - split; [by intros [=]|]. split; [by intros _ Hn; destruct Hnew|].
    split; [by intros _ _ Hn; destruct Hfree|]. intros _ _ _. eauto.
Qed.

Lemma fixture_accounts_unique : accounts_unique AuthFixture.store.
Proof.
  split; [|split]; simpl.
  - intros k. destruct (decide (k = 4)) as [->|Hne].
    + rewrite !lookup_singleton_eq. split; eauto.
    + rewrite !lookup_singleton_ne by done. split; intros [? ?]; done.
  - intros k1 k2 u1 u2 [-> _]%lookup_singleton_Some [-> _]%lookup_singleton_Some _.
    done.
  - intros k1 k2 c1 c2 [-> _]%lookup_singleton_Some [-> _]%lookup_singleton_Some _.
    done.
Qed.

Lemma register_keeps_accounts_unique_witness :
  accounts_unique AuthFixture.store
  ∧ Auth.register AuthFixture.isEmail AuthFixture.hash AuthFixture.sign
      9 "salt" "e@x.org" "pw-e" None None AuthFixture.store
    = (Auth.Session 201 "User registered successfully" "e@x.org" 5,
       (Auth.register AuthFixture.isEmail AuthFixture.hash AuthFixture.sign
          9 "salt" "e@x.org" "pw-e" None None AuthFixture.store).2)
  ∧ accounts_unique
      (Auth.register AuthFixture.isEmail AuthFixture.hash AuthFixture.sign
         9 "salt" "e@x.org" "pw-e" None None AuthFixture.store).2.
Proof.
  assert (Auth.register AuthFixture.isEmail AuthFixture.hash AuthFixture.sign
            9 "salt" "e@x.org" "pw-e" None None AuthFixture.store
          = (Auth.Session 201 "User registered successfully" "e@x.org" 5,
             (Auth.register AuthFixture.isEmail AuthFixture.hash AuthFixture.sign
                9 "salt" "e@x.org" "pw-e" None None AuthFixture.store).2)) as H
    by (vm_compute; reflexivity).
  split; [exact fixture_accounts_unique|]. split; [exact H|].
  exact (proj1 (register_keeps_accounts_unique _ _ _ _ _ _ _ _ _ _ _ _
                  fixture_accounts_unique H)).
Defined.

(** X14: an account that was just registered can log in: when bcrypt accepts
    the password against the hash stored for it, login with the same email
    and password is answered 200 with a token for the id registration gave.
    A token that verifies as that payload passes authenticateToken as that
    user, and requireAdmin refuses the user. *)
Theorem register_then_login
    (isEmail : string → bool) (hash : string → string → string)
    (compare : string → string → bool) (sign : Z → Auth.Claims → string)
    (verify : Z → string → option Auth.Claims)
    (now now' : Z) (salt email password : string) (name location : option string)
    (st st' : Auth.Store) (code userId : Z) (message token : string) :
  accounts_unique st →
  Auth.register isEmail hash sign now salt email password name location st
    = (Auth.Session code message token userId, st') →
  compare password (hash password salt) = true →
  Auth.login isEmail compare sign now' email password st'
    = Auth.Session 200 "Login successful"
        (sign now' (Auth.mkClaims userId email false)) userId
  ∧ ∀ t session, session ≠ "" → occurs Auth.space session = false →
      verify t session = Some (Auth.mkClaims userId email false) →
      Auth.authenticateToken verify t (Auth.request_interceptor (Some session))
        = Auth.Next (Auth.mkClaims userId email false)
      ∧ Admin.requireAdmin (Auth.is_admin (Auth.mkClaims userId email false))
        = Some (reply 403 (Error "Admin access required")).
Proof.
  intros Huniq Hreg Hcmp.
  rewrite register_outcome in Hreg.
  destruct (negb (Auth.userRegistrationSchema isEmail email password)) eqn:Hv;
    [done|].
  destruct (select_where (Auth.has_email email) (users (Auth.db st)))
    as [[k0 u0]|] eqn:Hsel; [done|].
  simpl in Hreg.
  destruct (select_where _ (Auth.credentials st)) as [[k1 c1]|] eqn:Hsel2; [done|].
  injection Hreg as <- <- <- <- <-.
  set (userId := next_rowid (Auth.seq_users st) (users (Auth.db st))).
  rewrite select_where_None in Hsel.
  split.
  - unfold Auth.login. simpl.
    assert (Auth.userLoginSchema isEmail email password = true) as ->.
    { apply negb_false_iff in Hv. unfold Auth.userRegistrationSchema in Hv.
      apply andb_true_iff in Hv as [He Hl]. apply bool_decide_eq_true in Hl.
      unfold Auth.userLoginSchema. rewrite He. simpl.
      apply bool_decide_eq_true. lia. }
    simpl.
    rewrite (select_where_unique _ _ userId (User.mk email 0 false now)).
    + rewrite lookup_insert_eq. simpl. by rewrite Hcmp.
    + intros k1 k2 v1 v2 H1 H2 Hp1 Hp2.
      assert (∀ k v, <[userId := User.mk email 0 false now]>
                       (users (Auth.db st)) !! k = Some v →
                Auth.has_email email v = true → k = userId) as Hone.
      { intros k v Hk Hp. destruct (decide (k = userId)) as [|Hne]; [done|].
        rewrite lookup_insert_ne in Hk by done.
        rewrite (Hsel k v Hk) in Hp. done. }
      rewrite (Hone k1 v1 H1 Hp1), (Hone k2 v2 H2 Hp2). done.
    + by rewrite lookup_insert_eq.
    + unfold Auth.has_email. simpl. by apply bool_decide_eq_true.
  - intros t session Hne Hsp Hver. split; [|done].
    destruct (bearer_token_lemma verify t session Hne Hsp) as [-> _].
    by rewrite Hver.
Qed.

Lemma register_then_login_witness :
  accounts_unique AuthFixture.store
  ∧ AuthFixture.compare "pw-e" (AuthFixture.hash "pw-e" "salt") = true
  ∧ Auth.login AuthFixture.isEmail AuthFixture.compare AuthFixture.sign 20
      "e@x.org" "pw-e"
      (Auth.register AuthFixture.isEmail AuthFixture.hash AuthFixture.sign
         9 "salt" "e@x.org" "pw-e" None None AuthFixture.store).2
    = Auth.Session 200 "Login successful"
        (AuthFixture.sign 20 (Auth.mkClaims 5 "e@x.org" false)) 5.
Proof.
  assert (Auth.register AuthFixture.isEmail AuthFixture.hash AuthFixture.sign
            9 "salt" "e@x.org" "pw-e" None None AuthFixture.store
          = (Auth.Session 201 "User registered successfully" "e@x.org" 5,
             (Auth.register AuthFixture.isEmail AuthFixture.hash AuthFixture.sign
                9 "salt" "e@x.org" "pw-e" None None AuthFixture.store).2)) as H
    by (vm_compute; reflexivity).
  assert (AuthFixture.compare "pw-e" (AuthFixture.hash "pw-e" "salt") = true)
    as Hc by (vm_compute; reflexivity).
  split; [exact fixture_accounts_unique|]. split; [exact Hc|].
  exact (proj1 (register_then_login AuthFixture.isEmail AuthFixture.hash
                  AuthFixture.compare AuthFixture.sign AuthFixture.verify
                  9 20 "salt" "e@x.org" "pw-e" None None AuthFixture.store _
                  201 5 "User registered successfully" "e@x.org"
                  fixture_accounts_unique H Hc)).
Defined.



(** ** Invariants of the routes that write *)

Lemma offered_by_exists db skillId owner s :
  Swaps.offered_by db skillId owner = Some s → is_Some (skills db !! skillId).
Proof.
  unfold Swaps.offered_by. destruct (skills db !! skillId); [eauto|done].
Qed.

Lemma resolve_alter (f : SwapRequest.t → SwapRequest.t) k db :
  (∀ sr, SwapRequest.skillOfferedId (f sr) = SwapRequest.skillOfferedId sr
         ∧ SwapRequest.skillRequestedId (f sr) = SwapRequest.skillRequestedId sr) →
  references_resolve db →
  ∀ sk us sq rt sqr, (∀ j, is_Some (skills db !! j) → is_Some (sk !! j)) →
    references_resolve (mkDb us sk (alter f k (swap_requests db)) sq rt sqr).
Proof.
  intros Hf Hres sk us sq rt sqr Hsk j sr. simpl.
  destruct (decide (j = k)) as [->|Hne].
  - rewrite lookup_alter_eq. destruct (swap_requests db !! k) as [sr0|] eqn:E; [|done].
    simpl. intros [= <-]. destruct (Hf sr0) as [-> ->].
    destruct (Hres k sr0 E). split; by apply Hsk.
  - rewrite lookup_alter_ne by done. intros E.
    destruct (Hres j sr E). split; by apply Hsk.
Qed.

Lemma alter_keeps_keys {A} (f : A → A) (m : gmap Z A) k j :
  is_Some (m !! j) → is_Some (alter f k m !! j).
Proof.
  intros [a Ha]. destruct (decide (k = j)) as [->|Hne].
  - rewrite lookup_alter_eq, Ha. eauto.
  - rewrite lookup_alter_ne by done. eauto.
Qed.

Lemma handle_resolves now user req st :
  references_resolve (NewSkill.db st) →
  references_resolve (NewSkill.db (Server.handle now user req st).2).
Proof.
  intros Hres. destruct req; simpl.
  - (* AddSkill *)
    unfold NewSkill.add.
    destruct (Skills.skillSchema _ _ _) as [p|]; [|done].
    destruct (negb _); [done|].
    destruct (select_where _ _) as [[? ?]|]; [done|]. simpl.
    unfold set_skills. simpl. intros k sr Hk. simpl in Hk |- *.
    destruct (Hres k sr Hk) as [[a Ha] [b Hb]].
    pose proof (next_rowid_fresh (NewSkill.seq_skills st)
                  (skills (NewSkill.db st))) as Hfresh.
    split; (rewrite lookup_insert_ne; [eauto|]); intros Heq;
      rewrite Heq in Hfresh; congruence.
  - (* UpdateSkill *)
    unfold Server.on_db, Skills.update.
    destruct (Skills.skillSchema _ _ _) as [p|]; [|done].
    destruct (Skills.owned_by _ _ _); [|done]. simpl.
    unfold set_skills. simpl. intros k sr Hk. simpl in Hk |- *.
    destruct (Hres k sr Hk) as [[a Ha] [b Hb]].
    split; apply alter_keeps_keys; eauto.
  - (* DeleteSkill *)
    unfold Server.on_db, Skills.delete.
    destruct (Skills.owned_by _ _ _); [|done]. simpl.
    unfold Skills.delete_row.
    destruct (skills (NewSkill.db st) !! skillId) as [s|]; [|done].
    case_bool_decide; [|done].
    intros k sr Hk. simpl in Hk.
    apply map_lookup_filter_Some in Hk as [Hk [Ho Hr]]. simpl in Ho, Hr.
    destruct (Hres k sr Hk) as [[a Ha] [b Hb]]. simpl.
    rewrite !lookup_delete_ne by done. eauto.
  - (* CreateSwap *)
    unfold Server.on_db, Swaps.create.
    destruct (negb _); [done|]. destruct (_ || _); [done|].
    destruct (Swaps.offered_by _ offeredSkillId _) eqn:Ho; [|done].
    destruct (Swaps.offered_by _ wantedSkillId _) eqn:Hw; [|done].
    destruct (select_where _ _) as [[? ?]|]; [done|]. simpl.
    unfold set_swap_requests. simpl. intros k sr Hk. simpl in Hk |- *.
    destruct (decide (k = next_rowid (seq_swap_requests (NewSkill.db st))
                             (swap_requests (NewSkill.db st)))) as [->|Hne].
    + rewrite lookup_insert_eq in Hk. injection Hk as <-. simpl.
      split; eapply offered_by_exists; eauto.
    + rewrite lookup_insert_ne in Hk by done. by apply (Hres k).
  - (* UpdateSwapStatus *)
    unfold Server.on_db, Swaps.updateStatus.
    destruct (negb _); [done|].
    destruct (Swaps.select_with_owner _ _) as [[sr0 o]|]; [|done].
    destruct (Swaps.check_authorization _ _ _ _); [done|].
    destruct (Swaps.status_of_string _); [|done]. simpl.
    unfold set_swap_requests. by apply resolve_alter.
  - (* DeleteSwap *)
    unfold Server.on_db, Swaps.delete.
    destruct (swap_requests (NewSkill.db st) !! swapRequestId) as [sr0|]; [|done].
    destruct (skills _ !! _); [|done].
    destruct (_ && _); [done|]. destruct (bool_decide _); [done|]. simpl.
    unfold set_swap_requests. simpl. intros k sr Hk. simpl in Hk |- *.
    destruct (decide (k = swapRequestId)) as [->|Hne].
    + by rewrite lookup_delete_eq in Hk.
    + rewrite lookup_delete_ne in Hk by done. by apply (Hres k).
  - (* SubmitRating *)
    unfold Server.on_db, Ratings.submit.
    destruct (negb _); [done|].
    destruct (swap_requests (NewSkill.db st) !! swapId) as [sr0|]; [|done].
    destruct (bool_decide _); [done|].
    destruct (skills _ !! _) as [sk0|]; [|done].
    destruct (_ && _); done.
  - (* BanUser *)
    unfold Server.on_db, Admin.banUser.
    destruct (Admin.requireAdmin _); done.
Qed.

Lemma serve_cons now user req rest st :
  Server.serve ((now, user, req) :: rest) st
  = ((Server.handle now user req st).1
       :: (Server.serve rest (Server.handle now user req st).2).1,
     (Server.serve rest (Server.handle now user req st).2).2).
Proof.
  simpl. destruct (Server.handle now user req st) as [r st1]. simpl.
  by destruct (Server.serve rest st1).
Qed.

(** X16: no request leaves a swap request without its skills: if every swap
    request names an offered and a wanted skill that exist, this is still so
    after any sequence of requests that add, update or delete skills,
    create, move or delete swap requests, submit ratings or ban users. *)
Theorem requests_keep_references
    (reqs : list (Z * Auth.Claims * Server.Request)) (st : NewSkill.Store) :
  references_resolve (NewSkill.db st) →
  references_resolve (NewSkill.db (Server.serve reqs st).2).
Proof.
  revert st. induction reqs as [|[[now user] req] rest IH]; intros st Hres.
  - done.
  - rewrite serve_cons. simpl. apply IH. by apply handle_resolves.
Qed.

Ltac no_new_id :=
  split; [simpl; lia | intros ? Hnew; simpl in Hnew; discriminate Hnew].

Lemma fixture_references_resolve : references_resolve (Fixture.db pending).
Proof.
  intros k sr Hk. change (swap_requests (Fixture.db pending))
    with ({[ 1 := Fixture.request pending ]} : gmap Z SwapRequest.t) in Hk.
  apply lookup_singleton_Some in Hk as [<- <-]. split; vm_compute; eauto.
Qed.

Lemma requests_keep_references_witness :
  references_resolve (NewSkill.db ServerFixture.store)
  ∧ references_resolve
      (NewSkill.db (Server.serve ServerFixture.requests ServerFixture.store).2).
Proof.
  split; [exact fixture_references_resolve|].
  exact (requests_keep_references ServerFixture.requests ServerFixture.store
           fixture_references_resolve).
Defined.

Lemma handle_sequence now user req st :
  seq_swap_requests (NewSkill.db st)
    ≤ seq_swap_requests (NewSkill.db (Server.handle now user req st).2)
  ∧ ∀ i, created_id (Server.handle now user req st).1 = Some i →
      seq_swap_requests (NewSkill.db st) < i
      ∧ seq_swap_requests (NewSkill.db (Server.handle now user req st).2) = i
      ∧ swap_requests (NewSkill.db st) !! i = None
      ∧ is_Some (swap_requests (NewSkill.db (Server.handle now user req st).2) !! i).
Proof.
  destruct req; simpl.
  - unfold NewSkill.add.
    destruct (Skills.skillSchema _ _ _) as [p|]; [|no_new_id].
    destruct (negb _); [no_new_id|].
    destruct (select_where _ _) as [[? ?]|]; no_new_id.
  - unfold Server.on_db, Skills.update.
    destruct (Skills.skillSchema _ _ _) as [p|]; [|no_new_id].
    destruct (Skills.owned_by _ _ _); no_new_id.
  - unfold Server.on_db, Skills.delete.
    destruct (Skills.owned_by _ _ _); [|no_new_id]. simpl.
    unfold Skills.delete_row.
    destruct (skills (NewSkill.db st) !! skillId) as [s|]; [|no_new_id].
    case_bool_decide; no_new_id.
  - unfold Server.on_db, Swaps.create.
    destruct (negb _); [no_new_id|]. destruct (_ || _); [no_new_id|].
    destruct (Swaps.offered_by _ offeredSkillId _); [|no_new_id].
    destruct (Swaps.offered_by _ wantedSkillId _); [|no_new_id].
    destruct (select_where _ _) as [[? ?]|]; [no_new_id|]. simpl.
    unfold next_rowid. split; [lia|]. intros i [= <-].
    split; [lia|]. split; [done|]. split.
    + apply (next_rowid_fresh (seq_swap_requests (NewSkill.db st))).
    + rewrite lookup_insert_eq. eauto.
  - unfold Server.on_db, Swaps.updateStatus.
    destruct (negb _); [no_new_id|].
    destruct (Swaps.select_with_owner _ _) as [[sr0 o]|]; [|no_new_id].
    unfold Swaps.check_authorization.
    repeat (case_bool_decide || destruct (includes _ _) || destruct (_ && _));
      simpl; try (no_new_id).
    all: destruct (Swaps.status_of_string _); no_new_id.
  - unfold Server.on_db, Swaps.delete.
    destruct (swap_requests (NewSkill.db st) !! swapRequestId) as [sr0|]; [|no_new_id].
    destruct (skills _ !! _); [|no_new_id].
    destruct (_ && _); [no_new_id|]. destruct (bool_decide _); no_new_id.
  - unfold Server.on_db, Ratings.submit.
    destruct (negb _); [no_new_id|].
    destruct (swap_requests (NewSkill.db st) !! swapId) as [sr0|]; [|no_new_id].
    destruct (bool_decide _); [no_new_id|].
    destruct (skills _ !! _) as [sk0|]; [|no_new_id].
    destruct (_ && _); no_new_id.
  - unfold Server.on_db, Admin.banUser, Admin.requireAdmin.
    destruct (negb _); no_new_id.
Qed.

Lemma serve_sequence reqs st :
  seq_swap_requests (NewSkill.db st)
    ≤ seq_swap_requests (NewSkill.db (Server.serve reqs st).2)
  ∧ ∀ j r i, (Server.serve reqs st).1 !! j = Some r → created_id r = Some i →
      seq_swap_requests (NewSkill.db st) < i.
Proof.
  revert st. induction reqs as [|[[now user] req] rest IH]; intros st.
  - simpl. split; [lia|]. intros j r i Hj. by rewrite lookup_nil in Hj.
  - rewrite serve_cons. simpl.
    destruct (handle_sequence now user req st) as [Hle Hid].
    destruct (IH (Server.handle now user req st).2) as [Hle' Hid'].
    split; [lia|]. intros [|j] r i Hj Hc; simpl in Hj.
    + injection Hj as <-. by destruct (Hid i Hc).
    + specialize (Hid' j r i Hj Hc). lia.
Qed.

(** X17: the id of a swap request is never given out twice: along any
    sequence of requests the ids announced by the 201 replies of POST /swaps
    increase strictly, also across deletions of swap requests and of the
    skills they name. *)
Theorem swap_ids_never_reused
    (reqs : list (Z * Auth.Claims * Server.Request)) (st : NewSkill.Store)
    (j1 j2 : nat) (r1 r2 : Response) (i1 i2 : Z) :
  (j1 < j2)%nat →
  (Server.serve reqs st).1 !! j1 = Some r1 → created_id r1 = Some i1 →
  (Server.serve reqs st).1 !! j2 = Some r2 → created_id r2 = Some i2 →
  i1 < i2.
Proof.
  revert st j1 j2. induction reqs as [|[[now user] req] rest IH];
    intros st j1 j2 Hlt H1 Hc1 H2 Hc2.
  - simpl in H1. by rewrite lookup_nil in H1.
  - rewrite serve_cons in H1, H2. simpl in H1, H2.
    destruct j2 as [|j2]; [lia|]. simpl in H2.
    destruct j1 as [|j1]; simpl in H1.
    + injection H1 as <-.
      destruct (handle_sequence now user req st) as [_ Hid].
      destruct (Hid i1 Hc1) as (_ & Hseq & _).
      destruct (serve_sequence rest (Server.handle now user req st).2) as [_ Hlater].
      specialize (Hlater j2 r2 i2 H2 Hc2). lia.
    + apply (IH (Server.handle now user req st).2 j1 j2); [lia|done..].
Qed.

Lemma swap_ids_never_reused_witness :
  (Server.serve ServerFixture.requests ServerFixture.store).1 !! 1%nat
    = Some (reply 201 (Created "Swap request created successfully" 2))
  ∧ (Server.serve ServerFixture.requests ServerFixture.store).1 !! 3%nat
    = Some (reply 201 (Created "Swap request created successfully" 3))
  ∧ 2 < 3.
Proof.
  assert ((Server.serve ServerFixture.requests ServerFixture.store).1 !! 1%nat
          = Some (reply 201 (Created "Swap request created successfully" 2)))
    as H1 by (vm_compute; reflexivity).
  assert ((Server.serve ServerFixture.requests ServerFixture.store).1 !! 3%nat
          = Some (reply 201 (Created "Swap request created successfully" 3)))
    as H2 by (vm_compute; reflexivity).
  split; [exact H1|]. split; [exact H2|].
  refine (swap_ids_never_reused ServerFixture.requests ServerFixture.store
            1 3 _ _ 2 3 _ H1 _ H2 _).
  - lia.
  - reflexivity.
  - reflexivity.
Defined.

(** ** The make-admin script *)

Lemma set_admin_spec now email u :
  User.email (Admin.set_admin now email u) = User.email u
  ∧ User.rating (Admin.set_admin now email u) = User.rating u
  ∧ (User.isAdmin u = true → User.isAdmin (Admin.set_admin now email u) = true)
  ∧ (User.email u = email →
       Admin.set_admin now email u = User.mk (User.email u) (User.rating u) true now)
  ∧ (User.email u ≠ email → Admin.set_admin now email u = u).
Proof.
  unfold Admin.set_admin. case_bool_decide; simpl; by repeat split.
Qed.

(** X21: the make-admin script only ever grants: it changes nothing but the
    users table, and there only rows with the email typed, which become
    administrators and keep their email and rating (updatedAt is set); no
    administrator loses the flag.  Any answer other than yes (in any
    capitalisation) changes nothing, and running the script again with the
    same answers changes nothing more. *)
Theorem make_admin_only_grants (now now' : Z) (email confirm : string) (db : Db) :
  let db' := Admin.makeUserAdmin now email confirm db in
  (skills db' = skills db ∧ swap_requests db' = swap_requests db
   ∧ ratings db' = ratings db ∧ seq_swap_requests db' = seq_swap_requests db
   ∧ seq_ratings db' = seq_ratings db)
  ∧ (∀ k, match users db !! k, users db' !! k with
          | Some u, Some u' =>
              User.email u' = User.email u ∧ User.rating u' = User.rating u
              ∧ (User.isAdmin u = true → User.isAdmin u' = true)
              ∧ (User.email u ≠ email → u' = u)
              ∧ (db' ≠ db → User.email u = email →
                   User.isAdmin u' = true
                   ∧ u' = User.mk (User.email u) (User.rating u) true now)
          | None, None => True
          | _, _ => False
          end)
  ∧ (Admin.toLowerCase confirm ≠ "yes" → db' = db)
  ∧ Admin.makeUserAdmin now' email confirm db' = db'.
Proof.
  intros db'. unfold db', Admin.makeUserAdmin.
  destruct (select_where (λ u, bool_decide (User.email u = email)) (users db))
    as [[k0 user]|] eqn:Hsel.
  2: { split; [done|]. split; [|split; [done|]].
       - intros k. destruct (users db !! k); [|done]. by repeat split.
       - by rewrite Hsel. }
  destruct (User.isAdmin user) eqn:Hadm.
  { split; [done|]. split; [|split; [done|]].
    - intros k. destruct (users db !! k); [|done]. by repeat split.
    - by rewrite Hsel, Hadm. }
  case_bool_decide as Hyes; simpl.
  2: { split; [done|]. split; [|split; [done|]].
       - intros k. destruct (users db !! k); [|done]. by repeat split.
       - by rewrite Hsel, Hadm. }
  split; [done|]. split; [|split; [done|]].
  - intros k. rewrite lookup_fmap. destruct (users db !! k) as [u|]; [|done].
    simpl. destruct (set_admin_spec now email u) as (? & ? & ? & Hrow & ?).
    split; [done|]. split; [done|]. split; [done|]. split; [done|].
    intros _ He. rewrite (Hrow He). done.
  - destruct (select_where _ (Admin.set_admin now email <$> users db))
      as [[k1 user1]|] eqn:Hsel1; [|done].
    apply select_where_Some in Hsel1 as [Hp Hk1].
    rewrite lookup_fmap in Hk1.
    destruct (users db !! k1) as [u|]; [|done]. simpl in Hk1.
    injection Hk1 as <-. apply bool_decide_eq_true in Hp.
    destruct (set_admin_spec now email u) as (He & _ & _ & Hgrant & _).
    rewrite He in Hp. by rewrite (Hgrant Hp).
Qed.

(** ** Pages *)

(** X22: PUT /skills/:id does not look for duplicates: a user who offers two
    skills can rename one to the name of the other; the request is answered
    200 and leaves the user with the same skill name listed twice as
    offered, which POST /skills refuses to create. *)
Theorem update_can_duplicate_listing
    (now user k1 k2 : Z) (s1 s2 : Skill.t) (db : Db) :
  k1 ≠ k2 → skills db !! k1 = Some s1 → skills db !! k2 = Some s2 →
  Skill.userId s1 = user → Skill.userId s2 = user →
  Skill.isOffering s2 = true → (2 ≤ String.length (Skill.name s2))%nat →
  (Skills.update now user k1 (Skill.name s2) "offered" None None db).1
    = reply 200 (Message "Skill updated successfully")
  ∧ ¬ listings_distinct
        (skills (Skills.update now user k1 (Skill.name s2) "offered" None None db).2)
  ∧ ∀ st, NewSkill.db st
          = (Skills.update now user k1 (Skill.name s2) "offered" None None db).2 →
      (NewSkill.add now user (Skill.name s2) "offered" None None None st).1.1
      = reply 400 (Error "You already have this skill listed").
Proof.
  intros Hne H1 H2 Hu1 Hu2 Hoff Hlen.
  assert (Skills.skillSchema (Skill.name s2) "offered" None = Some "intermediate")
    as Hschema.
  { unfold Skills.skillSchema.
    rewrite (proj2 (Z.leb_le 2 _)) by lia. done. }
  assert (Skills.update now user k1 (Skill.name s2) "offered" None None db
          = (reply 200 (Message "Skill updated successfully"),
             set_skills (alter (Skills.rewrite_skill now user (Skill.name s2)
                                  true false None "intermediate") k1) db)) as Hupd.
  { unfold Skills.update. rewrite Hschema. unfold Skills.owned_by.
    rewrite H1, bool_decide_eq_true_2 by done. done. }
  rewrite Hupd. simpl.
  set (s1' := Skills.rewrite_skill now user (Skill.name s2) true false None
                "intermediate" s1).
  assert (alter (Skills.rewrite_skill now user (Skill.name s2) true false None
                   "intermediate") k1 (skills db) !! k1 = Some s1') as H1'.
  { by rewrite lookup_alter_eq, H1. }
  assert (alter (Skills.rewrite_skill now user (Skill.name s2) true false None
                   "intermediate") k1 (skills db) !! k2 = Some s2) as H2'.
  { by rewrite lookup_alter_ne. }
  assert (Skill.userId s1' = user ∧ Skill.name s1' = Skill.name s2
          ∧ Skill.isOffering s1' = true) as (Hu & Hn & Ho).
  { unfold s1', Skills.rewrite_skill. by rewrite bool_decide_eq_true_2. }
  split; [done|]. split.
  - intros Hdist. apply Hne.
    apply (Hdist k1 k2 s1' s2 H1' H2'); [congruence|done|by left].
  - intros st Hst. unfold NewSkill.add. rewrite Hschema. simpl.
    destruct (select_where _ _) as [[? ?]|] eqn:Hsel; [done|].
    rewrite select_where_None in Hsel. rewrite Hst in Hsel. simpl in Hsel.
    specialize (Hsel k2 s2 H2'). unfold NewSkill.listed_as in Hsel.
    rewrite !bool_decide_eq_true_2, Hoff in Hsel by done. done.
Qed.

Lemma update_can_duplicate_listing_witness :
  (10 : Z) ≠ 12
  ∧ (Skills.update 50 1 10 "React" "offered" None None (Fixture.db pending)).1
    = reply 200 (Message "Skill updated successfully")
  ∧ ¬ listings_distinct
        (skills (Skills.update 50 1 10 "React" "offered" None None
                   (Fixture.db pending)).2).
Proof.
  assert ((10 : Z) ≠ 12) as H by lia.
  split; [exact H|].
  pose proof (update_can_duplicate_listing 50 1 10 12 (Fixture.skill 1)
                (Fixture.skill 1) (Fixture.db pending) H) as Hthm.
  simpl in Hthm.
  destruct Hthm as (Ha & Hb & _).
  - vm_compute; reflexivity.
  - vm_compute; reflexivity.
  - reflexivity.
  - reflexivity.
  - reflexivity.
  - lia.
  - split; [exact Ha | exact Hb].
Defined.

(** X23: the routes of the app never redirect in a circle: whatever the
    session and the address, after at most two redirects the app shows the
    spinner, a page, or, at an address none of the routes matches (there is
    no catch-all route), nothing.  The spinner is shown exactly while
    loading; the admin dashboard is shown to administrators only, the login
    and registration pages only without a session, and every other page only
    with one. *)
Theorem routes_settle (loading : bool) (user : option App.User) (path : App.Path) :
  match App.follow 2 loading user path with
  | App.Navigate _ => False
  | App.LoadingSpinner => loading = true
  | App.Nothing => loading = false ∧ ∃ address, path = App.other_path address
  | App.Render App.AdminDashboard =>
      loading = false ∧ ∃ u, user = Some u ∧ App.is_admin u = true
  | App.Render App.LoginPage | App.Render App.RegisterPage =>
      loading = false ∧ user = None
  | App.Render _ => loading = false ∧ is_Some user
  end
  ∧ (loading = true → App.follow 2 loading user path = App.LoadingSpinner)
  ∧ (loading = false → ∀ address,
       App.follow 2 loading user (App.other_path address) = App.Nothing).
Proof.
  destruct loading; [by destruct path|].
  split; [|by split].
  destruct user as [[[|]]|]; destruct path; simpl; eauto.
Qed.

Lemma skills_of_spec userId db k t :
  (k, t) ∈ UserProfilePage.skills_of userId db ↔
  ∃ s, skills db !! k = Some s ∧ Skill.userId s = userId
       ∧ t = UserProfilePage.type_of s.
Proof.
  unfold UserProfilePage.skills_of. rewrite list_elem_of_fmap. split.
  - intros ([k' s] & [= -> ->] & Hin). apply list_elem_of_filter in Hin as [Hu Hin].
    apply elem_of_map_to_list in Hin. simpl in *. eauto.
  - intros (s & Hk & Hu & ->). exists (k, s). split; [done|].
    apply list_elem_of_filter. split; [done|]. by apply elem_of_map_to_list.
Qed.

Lemma options_spec userId db k :
  k ∈ UserProfilePage.options (UserProfilePage.skills_of userId db) ↔
  ∃ s, skills db !! k = Some s ∧ Skill.userId s = userId
       ∧ Skill.isOffering s = true.
Proof.
  unfold UserProfilePage.options. rewrite list_elem_of_fmap. split.
  - intros ([k' t] & -> & Hin). apply list_elem_of_filter in Hin as [Ht Hin].
    simpl in *. apply skills_of_spec in Hin as (s & Hk & Hu & ->).
    exists s. split; [done|]. split; [done|].
    unfold UserProfilePage.type_of in Ht. by destruct (Skill.isOffering s).
  - intros (s & Hk & Hu & Ho). exists (k, "offered"). split; [done|].
    apply list_elem_of_filter. split; [done|]. apply skills_of_spec.
    exists s. split; [done|]. split; [done|].
    unfold UserProfilePage.type_of. by rewrite Ho.
Qed.

(** X24: the swap form of a profile page only sends requests whose skills
    pass the ownership checks of POST /swaps: with the offered skill chosen
    among the caller's skills of type offered and the wanted skill among the
    profile's, the request is answered 201 and stored as pending, or
    refused as a duplicate of a pending request; it is never refused for
    an invalid offered or wanted skill.  With a selection missing, nothing
    is sent. *)
Theorem swap_form_passes_ownership_checks
    (now me id offered wanted : Z) (message : string) (db : Db) :
  0 < id → 0 < offered → 0 < wanted →
  offered ∈ UserProfilePage.options (UserProfilePage.skills_of me db) →
  wanted ∈ UserProfilePage.options (UserProfilePage.skills_of id db) →
  (∃ r db', UserProfilePage.handleSwapRequest now me id (Some offered)
              (Some wanted) message db = Some (r, db')
      ∧ ((∃ lastID, r = reply 201 (Created "Swap request created successfully" lastID)
            ∧ swap_requests db !! lastID = None
            ∧ swap_requests db' !! lastID
              = Some (SwapRequest.mk me offered wanted pending (Some message)
                        None None None None None now now))
         ∨ (r = reply 400 (Error "You already have a pending request for this skill")
            ∧ db' = db ∧ has_pending_request db me wanted)))
  ∧ UserProfilePage.handleSwapRequest now me id None (Some wanted) message db = None
  ∧ UserProfilePage.handleSwapRequest now me id (Some offered) None message db = None.
Proof.
  intros Hid Ho Hw Hoff Hwant.
  apply options_spec in Hoff as (so & Hso & Huo & Hoo).
  apply options_spec in Hwant as (sw & Hsw & Huw & How).
  split; [|done].
  unfold UserProfilePage.handleSwapRequest, Swaps.create.
  assert (Swaps.swapRequestSchema id offered wanted = true) as ->.
  { unfold Swaps.swapRequestSchema.
    rewrite !(proj2 (Z.ltb_lt 0 _)) by done. done. }
  simpl. rewrite !bool_decide_eq_false_2 by lia. simpl.
  unfold Swaps.offered_by. rewrite Hso, Hsw.
  rewrite !bool_decide_eq_true_2, Hoo, How by done. simpl.
  destruct (select_where _ _) as [[k sr]|] eqn:Hsel.
  - eexists _, _. split; [done|]. right. split; [done|]. split; [done|].
    apply select_where_Some in Hsel as [Hp Hk].
    unfold Swaps.is_pending_for in Hp.
    apply andb_true_iff in Hp as [[H1 H2]%andb_true_iff H3].
    apply bool_decide_eq_true in H1, H2, H3. by exists k, sr.
  - eexists _, _. split; [done|]. left. eexists. split; [done|]. simpl. split.
    + apply next_rowid_fresh.
    + by rewrite lookup_insert_eq.
Qed.

Lemma swap_form_passes_ownership_checks_witness :
  0 < 2 ∧ 0 < 12 ∧ 0 < 11
  ∧ 12 ∈ UserProfilePage.options (UserProfilePage.skills_of 1 (Fixture.db accepted))
  ∧ 11 ∈ UserProfilePage.options (UserProfilePage.skills_of 2 (Fixture.db accepted))
  ∧ ∃ r db', UserProfilePage.handleSwapRequest 50 1 2 (Some 12) (Some 11) "hi"
               (Fixture.db accepted) = Some (r, db')
      ∧ ((∃ lastID, r = reply 201 (Created "Swap request created successfully" lastID)
            ∧ swap_requests (Fixture.db accepted) !! lastID = None
            ∧ swap_requests db' !! lastID
              = Some (SwapRequest.mk 1 12 11 pending (Some "hi")
                        None None None None None 50 50))
         ∨ (r = reply 400 (Error "You already have a pending request for this skill")
            ∧ db' = Fixture.db accepted
            ∧ has_pending_request (Fixture.db accepted) 1 11)).
Proof.
  assert (12 ∈ UserProfilePage.options
                 (UserProfilePage.skills_of 1 (Fixture.db accepted))) as H1.
  { apply options_spec. exists (Fixture.skill 1). by vm_compute. }
  assert (11 ∈ UserProfilePage.options
                 (UserProfilePage.skills_of 2 (Fixture.db accepted))) as H2.
  { apply options_spec. exists (Fixture.skill 2). by vm_compute. }
  split; [lia|]. split; [lia|]. split; [lia|]. split; [exact H1|].
  split; [exact H2|].
  refine (proj1 (swap_form_passes_ownership_checks 50 1 2 12 11 "hi"
                   (Fixture.db accepted) _ _ _ H1 H2)); lia.
Defined.
